(** * nanoprin: the region physics engine (js/physics.js) and the triangle
      warp of the renderer, embedded in Rocq.

    The engine is written once, over an interface [JSNumber] of the
    operations the source applies to JavaScript numbers.  Two instances
    are given:

    - [R_JSNumber]: exact real arithmetic (no rounding, no overflow, no
      NaN), used for the properties that are about the mathematics of the
      simulation;
    - [binary64_JSNumber]: IEEE 754 binary64, the arithmetic the host
      really runs, used to evaluate the code on concrete inputs, in
      particular where infinities and NaN matter. *)

From Stdlib Require Import ZArith List Bool String Lia.
From Stdlib Require Import Reals Lra Psatz.
From Stdlib Require Floats.
From Stdlib Require Import SpecFloat FloatOps FloatAxioms.
Import ListNotations.

Set Implicit Arguments.

Abbreviation float := PrimFloat.float.

(** ** Numbers *)

Declare Scope js_scope.
Delimit Scope js_scope with js.

(** The operations of the source on numbers.  [lit n d] is the decimal
    literal [n/d] ([0.08] is [lit 8 100]); [ltb a b] is [a < b] (and
    [a > b] is [ltb b a]). *)
Class JSNumber (num : Type) : Type := {
  lit : Z -> positive -> num;
  add : num -> num -> num;
  sub : num -> num -> num;
  mul : num -> num -> num;
  div : num -> num -> num;
  neg : num -> num;
  ltb : num -> num -> bool;
  Math_abs : num -> num;
  Math_sqrt : num -> num;
  Math_exp : num -> num;
  Math_max : num -> num -> num;
  Math_min : num -> num -> num;
  Math_PI : num
}.

(** The trigonometric built-ins, used by [endPress] only. *)
Class JSTrig (num : Type) : Type := {
  Math_cos : num -> num;
  Math_sin : num -> num;
  Math_atan2 : num -> num -> num
}.

Infix "+" := add : js_scope.
Infix "-" := sub : js_scope.
Infix "*" := mul : js_scope.
Infix "/" := div : js_scope.
Notation "- a" := (neg a) : js_scope.
Infix "<?" := ltb : js_scope.
Notation "a >? b" := (ltb b a) (at level 70, only parsing) : js_scope.

(** Integer literals and array indices used as numbers. *)
Definition int {num} `{JSNumber num} (n : Z) : num := lit n 1.

(** [v || 0]: the value itself unless it is falsy ([0], [-0] or [NaN]). *)
Definition or0 {num} `{JSNumber num} (v : num) : num :=
  if (ltb v (int 0) || ltb (int 0) v)%bool then v else int 0.

(** *** Exact real arithmetic *)

Definition Rltb (a b : R) : bool := if Rlt_dec a b then true else false.

(** [Math.atan2(y, x)] on the reals. *)
Definition Ratan2 (y x : R) : R :=
  if Rlt_dec 0 x then atan (y / x)
  else if Rlt_dec x 0 then
    (if Rlt_dec y 0 then atan (y / x) - PI else atan (y / x) + PI)
  else if Rlt_dec 0 y then PI / 2
  else if Rlt_dec y 0 then - (PI / 2)
  else 0.

(** The quotient of the reals is total ([x / 0 = 0]) where the code's
    division gives an infinity or NaN: the real instance reads the code
    only where the divisors are not zero, and the statements over the
    reals carry the hypotheses that make them so.  The binary64 instance
    has the code's division everywhere. *)
#[export] Instance R_JSNumber : JSNumber R := {
  lit n d := (IZR n / IZR (Zpos d))%R;
  add := Rplus;
  sub := Rminus;
  mul := Rmult;
  div := Rdiv;
  neg := Ropp;
  ltb := Rltb;
  Math_abs := Rabs;
  Math_sqrt := sqrt;
  Math_exp := exp;
  Math_max := Rmax;
  Math_min := Rmin;
  Math_PI := PI
}.

#[export] Instance R_JSTrig : JSTrig R := {
  Math_cos := cos;
  Math_sin := sin;
  Math_atan2 := Ratan2
}.

(** *** IEEE 754 binary64 *)

Module Binary64.

Import PrimFloat.

(** An integer below [2^63] in magnitude as a binary64 number. *)
Definition of_Z (n : Z) : float :=
  match n with
  | Z0 => PrimFloat.zero
  | Zpos p => PrimFloat.of_uint63 (Uint63.of_Z (Zpos p))
  | Zneg p => PrimFloat.opp (PrimFloat.of_uint63 (Uint63.of_Z (Zpos p)))
  end.

(** A decimal literal is the binary64 number nearest to its value; for
    the literals of the source (numerator and denominator exactly
    representable) that is the correctly rounded quotient. *)
Definition literal (n : Z) (d : positive) : float :=
  PrimFloat.div (of_Z n) (of_Z (Zpos d)).

(** [Math.max]: NaN if either argument is NaN, and [+0] above [-0]. *)
Definition max (a b : float) : float :=
  if (PrimFloat.is_nan a || PrimFloat.is_nan b)%bool then PrimFloat.nan
  else if PrimFloat.ltb a b then b
  else if PrimFloat.ltb b a then a
  else if PrimFloat.is_zero a then PrimFloat.add a b
  else a.

(** [Math.min]: NaN if either argument is NaN, and [-0] below [+0]. *)
Definition min (a b : float) : float :=
  if (PrimFloat.is_nan a || PrimFloat.is_nan b)%bool then PrimFloat.nan
  else if PrimFloat.ltb a b then a
  else if PrimFloat.ltb b a then b
  else if PrimFloat.is_zero a then
    PrimFloat.opp (PrimFloat.add (PrimFloat.opp a) (PrimFloat.opp b))
  else a.

Fixpoint iter_square (n : nat) (v : float) : float :=
  match n with
  | O => v
  | S n' => iter_square n' (PrimFloat.mul v v)
  end.

(** Horner evaluation of [sum_{k<n} y^k/k!], from the innermost term. *)
Fixpoint exp_series (n : nat) (k : float) (y acc : float) : float :=
  match n with
  | O => acc
  | S n' =>
      exp_series n' (PrimFloat.sub k PrimFloat.one) y
        (PrimFloat.add PrimFloat.one
           (PrimFloat.mul (PrimFloat.div y k) acc))
  end.

(** [Math.exp] is a host built-in whose result the language leaves
    "implementation-approximated"; only its special values are fixed
    (NaN for NaN, [+0] for [-Infinity], [+Infinity] for [+Infinity], [1]
    for [+0] and [-0]).  This model has those special values and
    otherwise approximates [e^v] as [(e^(v/1024))^1024] with a Taylor
    polynomial of degree 14.  The evaluations below use of it only that
    [exp(-0) = 1] and that [exp(-0.18)] is a finite number. *)
Definition exp (v : float) : float :=
  if PrimFloat.is_nan v then PrimFloat.nan
  else if PrimFloat.ltb v (literal (-746) 1) then PrimFloat.zero
  else if PrimFloat.ltb (literal 710 1) v then PrimFloat.infinity
  else
    let y := PrimFloat.div v (literal 1024 1) in
    iter_square 10 (exp_series 14 (literal 14 1) y PrimFloat.one).

(** The literal [1e308]: the binary64 number nearest to it. *)
Definition decimal_1e308 : float := 0x1.1ccf385ebc8ap+1023%float.

(** [Math.round] of a finite number, as an integer: the value is
    [n * 2^e] for the signed mantissa [n], and the result is
    [floor(n * 2^e + 1/2)], computed exactly (a tie goes up).  For NaN
    and the infinities [Math.round] returns its argument, which is no
    integer; they are sent to 0 here, and so are the zeros. *)
Definition round (v : float) : Z :=
  match Prim2SF v with
  | S754_finite s m e =>
      let n := if s then Zneg m else Zpos m in
      if (0 <=? e)%Z then (n * 2 ^ e)%Z
      else ((2 * n + 2 ^ (- e)) / 2 ^ (1 - e))%Z
  | _ => 0%Z
  end.

End Binary64.

#[export] Instance binary64_JSNumber : JSNumber float := {
  lit := Binary64.literal;
  add := PrimFloat.add;
  sub := PrimFloat.sub;
  mul := PrimFloat.mul;
  div := PrimFloat.div;
  neg := PrimFloat.opp;
  ltb := PrimFloat.ltb;
  Math_abs := PrimFloat.abs;
  Math_sqrt := PrimFloat.sqrt;
  Math_exp := Binary64.exp;
  Math_max := Binary64.max;
  Math_min := Binary64.min;
  Math_PI := Binary64.literal 3141592653589793 1000000000000000
}.

(** *** Rounding to an integer, and [>=] *)

(** The two operations of the grid sizes beyond those of [JSNumber]:
    [geb a b] is [a >= b], and [Math_round v] is [Math.round(v)] as an
    integer. *)
Class JSRound (num : Type) : Type := {
  geb : num -> num -> bool;
  Math_round : num -> Z
}.

(** [a >= b] on the reals. *)
Definition Rgeb (a b : R) : bool := if Rle_dec b a then true else false.

(** [Math.round] in exact arithmetic: [floor(v + 0.5)]. *)
Definition Rround (v : R) : Z := Int_part (v + 1 / 2)%R.

#[export] Instance R_JSRound : JSRound R := {
  geb := Rgeb;
  Math_round := Rround
}.

#[export] Instance binary64_JSRound : JSRound float := {
  geb a b := PrimFloat.leb b a;
  Math_round := Binary64.round
}.

(** *** Reals with rounded results *)

(** The arithmetic of the host as the standard model of floating-point
    arithmetic has it: every operation gives the exact result rounded
    by [fl] to a representable number.  Comparisons, [Math.abs],
    [Math.max] and [Math.min] round nothing. *)
Definition Rounded_JSNumber (fl : R -> R) : JSNumber R := {|
  lit n d := fl (IZR n / IZR (Zpos d))%R;
  add a b := fl (a + b)%R;
  sub a b := fl (a - b)%R;
  mul a b := fl (a * b)%R;
  div a b := fl (a / b)%R;
  neg := Ropp;
  ltb := Rltb;
  Math_abs := Rabs;
  Math_sqrt v := fl (sqrt v);
  Math_exp v := fl (exp v);
  Math_max := Rmax;
  Math_min := Rmin;
  Math_PI := fl PI
|}.

(** What is used of the rounding [fl] of binary64, with [eps = 2^-53]:
    it is monotone, it leaves the integers up to [2^53] as they are,
    and in the range of the quotients and products of the grid sizes
    its relative error is at most [eps]. *)
Definition standard_model (fl : R -> R) (eps : R) : Prop :=
  (0 <= eps <= / 1000)%R
  /\ (forall x y : R, (x <= y)%R -> (fl x <= fl y)%R)
  /\ (forall z : Z, (Z.abs z <= 2 ^ 53)%Z -> fl (IZR z) = IZR z)
  /\ (forall x : R,
        (/ 10 ^ 15 <= x <= 10 ^ 15)%R -> (Rabs (fl x - x) <= eps * x)%R).

(** ** Data model *)

(** [{x, y}]: a force, a position, a velocity. *)
Module Vec2.
Record t (num : Type) : Type := mk { x : num; y : num }.
End Vec2.

(** An entry of [forceHistory]: [{x, y, patternId}]; [None] is an
    absent ([undefined]) or [null] pattern id. *)
Module ForceEntry.
Record t (num : Type) : Type :=
  mk { x : num; y : num; patternId : option string }.
End ForceEntry.

(** The ellipse box [{x, y, width, height}] handed to [addRegion]. *)
Module Rect.
Record t (num : Type) : Type :=
  mk { x : num; y : num; width : num; height : num }.
End Rect.

(** An element of [this.regions]. *)
Module Region.
Record t (num : Type) : Type := mk {
  x : num;
  y : num;
  width : num;
  height : num;
  position : Vec2.t num;
  velocity : Vec2.t num;
  stiffness : num;
  damping : num;
  delayFrames : nat;
  phaseOffset : num
}.

(** The region with its [position] and [velocity] replaced. *)
Definition moved {num} (r : t num) (p v : Vec2.t num) : t num :=
  mk (x r) (y r) (width r) (height r) p v
     (stiffness r) (damping r) (delayFrames r) (phaseOffset r).
End Region.

(** An element of [this.vertices]. *)
Module Vertex.
Record t (num : Type) : Type :=
  mk { baseX : num; baseY : num; dx : num; dy : num }.
End Vertex.

(** A value of the [pressPoints] map. *)
Module PressPoint.
Record t (num : Type) : Type :=
  mk { x : num; y : num; depth : num; targetDepth : num }.
End PressPoint.

(** An element of the array [calculateVertexDisplacements] returns. *)
Module Sample.
Record t (num : Type) : Type :=
  mk { x : num; y : num; dx : num; dy : num; influence : num }.
End Sample.

(** A JavaScript [Map] with number keys: entries in insertion order, one
    entry per key. *)
Module JSMap.
Definition t (V : Type) : Type := list (Z * V).

Fixpoint get {V} (k : Z) (m : t V) : option V :=
  match m with
  | [] => None
  | (k', v) :: m' => if Z.eqb k k' then Some v else get k m'
  end.

(** [set] overwrites the value of a present key where it stands and
    appends an absent one. *)
Fixpoint set {V} (k : Z) (v : V) (m : t V) : t V :=
  match m with
  | [] => [(k, v)]
  | (k', v') :: m' =>
      if Z.eqb k k' then (k', v) :: m' else (k', v') :: set k v m'
  end.

Fixpoint delete {V} (k : Z) (m : t V) : t V :=
  match m with
  | [] => []
  | (k', v') :: m' =>
      if Z.eqb k k' then delete k m' else (k', v') :: delete k m'
  end.

Definition keys {V} (m : t V) : list Z := List.map fst m.
End JSMap.

(** The fields of a [PhysicsEngine]. *)
Module PhysicsEngine.
Record t (num : Type) : Type := mk {
  baseStiffness : num;
  baseDamping : num;
  mass : num;
  sensitivity : num;
  maxDisplacement : num;
  posThreshold : num;
  velThreshold : num;
  gridDensity : nat;
  gridSizeX : nat;
  gridSizeY : nat;
  aspectRatio : num;
  vertices : list (Vertex.t num);
  regions : list (Region.t num);
  forceHistory : list (ForceEntry.t num);
  historyLength : nat;
  pressPoints : JSMap.t (PressPoint.t num);
  pressSpeed : num;
  releaseSpeed : num
}.

Definition with_vertices {num} (e : t num) (vs : list (Vertex.t num)) :=
  mk (baseStiffness e) (baseDamping e) (mass e) (sensitivity e)
     (maxDisplacement e) (posThreshold e) (velThreshold e)
     (gridDensity e) (gridSizeX e) (gridSizeY e) (aspectRatio e)
     vs (regions e) (forceHistory e) (historyLength e)
     (pressPoints e) (pressSpeed e) (releaseSpeed e).

Definition with_regions {num} (e : t num) (rs : list (Region.t num)) :=
  mk (baseStiffness e) (baseDamping e) (mass e) (sensitivity e)
     (maxDisplacement e) (posThreshold e) (velThreshold e)
     (gridDensity e) (gridSizeX e) (gridSizeY e) (aspectRatio e)
     (vertices e) rs (forceHistory e) (historyLength e)
     (pressPoints e) (pressSpeed e) (releaseSpeed e).

Definition with_forceHistory {num} (e : t num)
    (h : list (ForceEntry.t num)) :=
  mk (baseStiffness e) (baseDamping e) (mass e) (sensitivity e)
     (maxDisplacement e) (posThreshold e) (velThreshold e)
     (gridDensity e) (gridSizeX e) (gridSizeY e) (aspectRatio e)
     (vertices e) (regions e) h (historyLength e)
     (pressPoints e) (pressSpeed e) (releaseSpeed e).

Definition with_pressPoints {num} (e : t num)
    (ps : JSMap.t (PressPoint.t num)) :=
  mk (baseStiffness e) (baseDamping e) (mass e) (sensitivity e)
     (maxDisplacement e) (posThreshold e) (velThreshold e)
     (gridDensity e) (gridSizeX e) (gridSizeY e) (aspectRatio e)
     (vertices e) (regions e) (forceHistory e) (historyLength e)
     ps (pressSpeed e) (releaseSpeed e).
End PhysicsEngine.

(** ** The engine (js/physics.js) *)

Section Engine.

Context {num : Type} {JSN : JSNumber num}.

Local Open Scope js_scope.

Implicit Types (e : PhysicsEngine.t num) (region : Region.t num).

(** [clamp(value, min, max)] *)
Definition clamp (value min max : num) : num :=
  Math_max min (Math_min max value).

(** [initVertices()]: rows [y = 0..gridSizeY] of columns
    [x = 0..gridSizeX]. *)
Definition initVertices e : PhysicsEngine.t num :=
  PhysicsEngine.with_vertices e
    (flat_map
       (fun y =>
          List.map
            (fun x =>
               Vertex.mk
                 (int (Z.of_nat x) / int (Z.of_nat (PhysicsEngine.gridSizeX e)))
                 (int (Z.of_nat y) / int (Z.of_nat (PhysicsEngine.gridSizeY e)))
                 (int 0) (int 0))
            (seq 0 (S (PhysicsEngine.gridSizeX e))))
       (seq 0 (S (PhysicsEngine.gridSizeY e)))).

(** [new PhysicsEngine()] *)
Definition new_PhysicsEngine : PhysicsEngine.t num :=
  initVertices
    (PhysicsEngine.mk
       (lit 8 100) (lit 92 100) (int 1) (int 4) (int 25)
       (lit 3 10) (lit 5 100)
       10 10 10 (int 1)
       [] [] [] 8
       [] (lit 15 100) (lit 8 100)).

(** [addRegion(region)].  The three [Math.random()] draws are
    arguments: [u1] and [u2] are the draws of the stiffness and the
    damping variation; [coin] is [Math.floor(Math.random() * 2)], which
    is 0 or 1 as [Math.random()] lies in [0, 1). *)
Definition addRegion e (region : Rect.t num) (u1 u2 : num) (coin : bool)
  : PhysicsEngine.t num :=
  let index := List.length (PhysicsEngine.regions e) in
  let stiffnessVariation := lit 7 10 + u1 * lit 6 10 in
  let dampingVariation := lit 95 100 + u2 * lit 1 10 in
  let delayFrames := (index * 3 + (if coin then 1 else 0))%nat in
  PhysicsEngine.with_regions e
    (PhysicsEngine.regions e ++
     [Region.mk
        (Rect.x region) (Rect.y region)
        (Rect.width region) (Rect.height region)
        (Vec2.mk (int 0) (int 0))
        (Vec2.mk (int 0) (int 0))
        (PhysicsEngine.baseStiffness e * stiffnessVariation)
        (PhysicsEngine.baseDamping e * dampingVariation)
        delayFrames
        (int (Z.of_nat index) * Math_PI * lit 3 10)]).

(** [clearRegions()] *)
Definition clearRegions e : PhysicsEngine.t num :=
  PhysicsEngine.with_forceHistory (PhysicsEngine.with_regions e []) [].

(** [setRegions(regions)], each region with its own draws. *)
Definition setRegions e (regions : list (Rect.t num * (num * num * bool)))
  : PhysicsEngine.t num :=
  fold_left
    (fun e' '(r, (u1, u2, coin)) => addRegion e' r u1 u2 coin)
    regions (clearRegions e).

(** [removeRegion(index)] for an integer [index]: [splice(index, 1)]
    when [0 <= index < regions.length]. *)
Definition removeRegion e (index : Z) : PhysicsEngine.t num :=
  if ((0 <=? index)%Z && (index <? Z.of_nat (List.length (PhysicsEngine.regions e)))%Z)%bool
  then
    PhysicsEngine.with_regions e
      (firstn (Z.to_nat index) (PhysicsEngine.regions e) ++
       skipn (S (Z.to_nat index)) (PhysicsEngine.regions e))
  else e.

(** [calculateRegionInfluence(px, py, region)] *)
Definition calculateRegionInfluence (px py : num) region : num :=
  let x := Region.x region in
  let y := Region.y region in
  let width := Region.width region in
  let height := Region.height region in
  let cx := x + width / int 2 in
  let cy := y + height / int 2 in
  let rx := (px - cx) / (width / int 2) in
  let ry := (py - cy) / (height / int 2) in
  let ellipseDist := Math_sqrt (rx * rx + ry * ry) in
  let fadeStart := lit 6 10 in
  let fadeEnd := lit 15 10 in
  let influence :=
    if ellipseDist <? fadeStart then
      Math_exp (- ellipseDist * ellipseDist * lit 5 10)
    else
      let t := (ellipseDist - fadeStart) / (fadeEnd - fadeStart) in
      let smoothT := Math_max (int 0) (int 1 - t * t * t) in
      let centerValue := Math_exp (- fadeStart * fadeStart * lit 5 10) in
      centerValue * smoothT in
  let verticalBias := int 1 + (cy - py) * lit 5 10 in
  influence * Math_max (lit 5 10) (Math_min (lit 15 10) verticalBias).

(** The first loop of [updatePressState()] on one point: the eased
    point, and whether its id is pushed on [toDelete]. *)
Definition updatePressPoint e (point : PressPoint.t num)
  : PressPoint.t num * bool :=
  let depth := PressPoint.depth point in
  let targetDepth := PressPoint.targetDepth point in
  if targetDepth >? int 0 then
    (PressPoint.mk (PressPoint.x point) (PressPoint.y point)
       (depth + (targetDepth - depth) * PhysicsEngine.pressSpeed e)
       targetDepth,
     false)
  else
    let depth' :=
      depth + (targetDepth - depth) * PhysicsEngine.releaseSpeed e in
    (PressPoint.mk (PressPoint.x point) (PressPoint.y point)
       depth' targetDepth,
     Math_abs depth' <? lit 1 1000).

(** [updatePressState()] *)
Definition updatePressState e : PhysicsEngine.t num :=
  let stepped :=
    List.map (fun '(id, point) => (id, updatePressPoint e point))
      (PhysicsEngine.pressPoints e) in
  let toDelete :=
    List.map fst (filter (fun '(_, (_, del)) => del) stepped) in
  let points := List.map (fun '(id, (point, _)) => (id, point)) stepped in
  PhysicsEngine.with_pressPoints e
    (fold_left (fun m id => JSMap.delete id m) toDelete points).

(** [startPress(id, x, y)] *)
Definition startPress e (id : Z) (x y : num) : PhysicsEngine.t num :=
  PhysicsEngine.with_pressPoints e
    (JSMap.set id (PressPoint.mk x y (int 0) (int 1))
       (PhysicsEngine.pressPoints e)).

(** [updatePressPosition(id, x, y)] *)
Definition updatePressPosition e (id : Z) (x y : num)
  : PhysicsEngine.t num :=
  match JSMap.get id (PhysicsEngine.pressPoints e) with
  | Some point =>
      PhysicsEngine.with_pressPoints e
        (JSMap.set id
           (PressPoint.mk x y (PressPoint.depth point)
              (PressPoint.targetDepth point))
           (PhysicsEngine.pressPoints e))
  | None => e
  end.

(** One vertex of [calculateVertexDisplacements()]: the sum over the
    regions, then the loop over the press points, then the rounding of
    small displacements. *)
Definition vertexDisplacement e (v : Vertex.t num) : Sample.t num :=
  let threshold := lit 3 10 in
  let baseX := Vertex.baseX v in
  let baseY := Vertex.baseY v in
  let '(totalDx, totalDy, totalWeight) :=
    fold_left
      (fun '(totalDx, totalDy, totalWeight) region =>
         let influence := calculateRegionInfluence baseX baseY region in
         if influence >? lit 1 1000 then
           (totalDx + Vec2.x (Region.position region) * influence,
            totalDy + Vec2.y (Region.position region) * influence,
            totalWeight + influence)
         else (totalDx, totalDy, totalWeight))
      (PhysicsEngine.regions e) (int 0, int 0, int 0) in
  let '(totalDx, totalDy) :=
    fold_left
      (fun '(totalDx, totalDy) '(_, point) =>
         if PressPoint.depth point >? lit 1 1000 then
           let regionInfluence :=
             fold_left
               (fun regionInfluence region =>
                  Math_max regionInfluence
                    (calculateRegionInfluence baseX baseY region))
               (PhysicsEngine.regions e) (int 0) in
           if regionInfluence <? lit 1 100 then (totalDx, totalDy)
           else
             let dx := baseX - PressPoint.x point in
             let dy := baseY - PressPoint.y point in
             let dist := Math_sqrt (dx * dx + dy * dy) in
             let radius := lit 15 100 in
             let pressInfluence :=
               Math_exp (- (dist * dist) / (int 2 * radius * radius)) in
             if pressInfluence >? lit 1 100 then
               let pressDisplacement := PressPoint.depth point * int 15 in
               let combinedInfluence := pressInfluence * regionInfluence in
               let '(totalDx, totalDy) :=
                 if dist >? lit 1 1000 then
                   let normalX := dx / dist in
                   let normalY := dy / dist in
                   (totalDx
                    + normalX * pressDisplacement * combinedInfluence * lit 5 10,
                    totalDy
                    + normalY * pressDisplacement * combinedInfluence * lit 3 10)
                 else (totalDx, totalDy) in
               let centerInfluence :=
                 Math_exp
                   (- (dist * dist)
                    / (int 2 * (radius * lit 5 10) * (radius * lit 5 10))) in
               (totalDx,
                totalDy
                + pressDisplacement * centerInfluence * regionInfluence * lit 3 10)
             else (totalDx, totalDy)
         else (totalDx, totalDy))
      (PhysicsEngine.pressPoints e) (totalDx, totalDy) in
  let totalDx := if Math_abs totalDx <? threshold then int 0 else totalDx in
  let totalDy := if Math_abs totalDy <? threshold then int 0 else totalDy in
  Sample.mk baseX baseY totalDx totalDy totalWeight.

(** [calculateVertexDisplacements()] *)
Definition calculateVertexDisplacements e : list (Sample.t num) :=
  List.map (vertexDisplacement e) (PhysicsEngine.vertices e).

(** [getDisplacements()] *)
Definition getDisplacements e : list (Sample.t num) :=
  calculateVertexDisplacements e.

(** The body of the loop of [update] for the region at index [i];
    [forceHistory] is the history once the entry of this call is in.
    ([forceHistory.length - 1] is computed on naturals; the history is
    never empty here, and on an empty one both index 0 and index -1
    fall back to the default entry.) *)
Definition update_region e (forceHistory : list (ForceEntry.t num))
    (i : nat) region : Region.t num :=
  let delayIndex :=
    Nat.min (Region.delayFrames region) (List.length forceHistory - 1) in
  let delayedForce :=
    nth delayIndex forceHistory (ForceEntry.mk (int 0) (int 0) None) in
  let appliedForceX := ForceEntry.x delayedForce in
  let appliedForceY := ForceEntry.y delayedForce in
  let appliedForceX :=
    if match ForceEntry.patternId delayedForce with
       | Some id => (String.eqb id "kneadLeft" || String.eqb id "kneadRight")%bool
       | None => false
       end
    then if (i mod 2 =? 1)%nat then - appliedForceX else appliedForceX
    else appliedForceX in
  let springForceX := - Region.stiffness region * Vec2.x (Region.position region) in
  let springForceY := - Region.stiffness region * Vec2.y (Region.position region) in
  let dampingForceX := - Region.damping region * Vec2.x (Region.velocity region) in
  let dampingForceY := - Region.damping region * Vec2.y (Region.velocity region) in
  let ax := (springForceX + dampingForceX + appliedForceX) / PhysicsEngine.mass e in
  let ay := (springForceY + dampingForceY + appliedForceY) / PhysicsEngine.mass e in
  let velocityX := Vec2.x (Region.velocity region) + ax in
  let velocityY := Vec2.y (Region.velocity region) + ay in
  let positionX := Vec2.x (Region.position region) + velocityX in
  let positionY := Vec2.y (Region.position region) + velocityY in
  let positionX :=
    clamp positionX (- PhysicsEngine.maxDisplacement e)
      (PhysicsEngine.maxDisplacement e) in
  let positionY :=
    clamp positionY (- PhysicsEngine.maxDisplacement e)
      (PhysicsEngine.maxDisplacement e) in
  let '(positionX, velocityX) :=
    if ((Math_abs positionX <? PhysicsEngine.posThreshold e)
        && (Math_abs velocityX <? PhysicsEngine.velThreshold e))%bool
    then (int 0, int 0) else (positionX, velocityX) in
  let '(positionY, velocityY) :=
    if ((Math_abs positionY <? PhysicsEngine.posThreshold e)
        && (Math_abs velocityY <? PhysicsEngine.velThreshold e))%bool
    then (int 0, int 0) else (positionY, velocityY) in
  Region.moved region (Vec2.mk positionX positionY)
    (Vec2.mk velocityX velocityY).

(** The loop [for (let i = 0; i < this.regions.length; i++)] from
    index [i] on. *)
Fixpoint update_regions e (forceHistory : list (ForceEntry.t num))
    (i : nat) (regions : list (Region.t num)) : list (Region.t num) :=
  match regions with
  | [] => []
  | region :: rest =>
      update_region e forceHistory i region
      :: update_regions e forceHistory (S i) rest
  end.

(** The history after [unshift] of the new entry and the [pop] that
    follows when it is longer than [historyLength]. *)
Definition pushForce e (entry : ForceEntry.t num)
  : list (ForceEntry.t num) :=
  let forceHistory := entry :: PhysicsEngine.forceHistory e in
  if (PhysicsEngine.historyLength e <? List.length forceHistory)%nat
  then removelast forceHistory else forceHistory.

(** [update(force, patternId)]: the engine after the call and the
    array it returns. *)
Definition update e (force : Vec2.t num) (patternId : option string)
  : PhysicsEngine.t num * list (Sample.t num) :=
  let e := updatePressState e in
  let forceX := or0 (Vec2.x force) * PhysicsEngine.sensitivity e in
  let forceY := or0 (Vec2.y force) * PhysicsEngine.sensitivity e in
  let forceHistory := pushForce e (ForceEntry.mk forceX forceY patternId) in
  let e := PhysicsEngine.with_forceHistory e forceHistory in
  let e :=
    PhysicsEngine.with_regions e
      (update_regions e forceHistory 0 (PhysicsEngine.regions e)) in
  (e, calculateVertexDisplacements e).

(** The body of the loop of [applyForceAtPosition]. *)
Definition applyForceAtPosition_region e (forceX forceY posX posY : num)
    region : Region.t num :=
  let cx := Region.x region + Region.width region / int 2 in
  let cy := Region.y region + Region.height region / int 2 in
  let dx := posX - cx in
  let dy := posY - cy in
  let dist := Math_sqrt (dx * dx + dy * dy) in
  let influence := calculateRegionInfluence posX posY region in
  if influence >? lit 1 100 then
    let springForceX := - Region.stiffness region * Vec2.x (Region.position region) in
    let springForceY := - Region.stiffness region * Vec2.y (Region.position region) in
    let dampingForceX := - Region.damping region * Vec2.x (Region.velocity region) in
    let dampingForceY := - Region.damping region * Vec2.y (Region.velocity region) in
    let ax := (springForceX + dampingForceX + forceX * influence) / PhysicsEngine.mass e in
    let ay := (springForceY + dampingForceY + forceY * influence) / PhysicsEngine.mass e in
    let velocityX := Vec2.x (Region.velocity region) + ax in
    let velocityY := Vec2.y (Region.velocity region) + ay in
    let positionX := Vec2.x (Region.position region) + velocityX in
    let positionY := Vec2.y (Region.position region) + velocityY in
    let positionX :=
      clamp positionX (- PhysicsEngine.maxDisplacement e)
        (PhysicsEngine.maxDisplacement e) in
    let positionY :=
      clamp positionY (- PhysicsEngine.maxDisplacement e)
        (PhysicsEngine.maxDisplacement e) in
    let '(positionX, velocityX) :=
      if ((Math_abs positionX <? PhysicsEngine.posThreshold e)
          && (Math_abs velocityX <? PhysicsEngine.velThreshold e))%bool
      then (int 0, int 0) else (positionX, velocityX) in
    let '(positionY, velocityY) :=
      if ((Math_abs positionY <? PhysicsEngine.posThreshold e)
          && (Math_abs velocityY <? PhysicsEngine.velThreshold e))%bool
      then (int 0, int 0) else (positionY, velocityY) in
    Region.moved region (Vec2.mk positionX positionY)
      (Vec2.mk velocityX velocityY)
  else region.

(** [applyForceAtPosition(force, posX, posY)] *)
Definition applyForceAtPosition e (force : Vec2.t num) (posX posY : num)
  : PhysicsEngine.t num * list (Sample.t num) :=
  let e := updatePressState e in
  let forceX := or0 (Vec2.x force) * PhysicsEngine.sensitivity e in
  let forceY := or0 (Vec2.y force) * PhysicsEngine.sensitivity e in
  let e :=
    PhysicsEngine.with_regions e
      (List.map (applyForceAtPosition_region e forceX forceY posX posY)
         (PhysicsEngine.regions e)) in
  (e, calculateVertexDisplacements e).

(** [reset()] *)
Definition reset e : PhysicsEngine.t num :=
  let e :=
    PhysicsEngine.with_regions e
      (List.map
         (fun region =>
            Region.moved region (Vec2.mk (int 0) (int 0))
              (Vec2.mk (int 0) (int 0)))
         (PhysicsEngine.regions e)) in
  let e :=
    PhysicsEngine.with_vertices e
      (List.map
         (fun v => Vertex.mk (Vertex.baseX v) (Vertex.baseY v) (int 0) (int 0))
         (PhysicsEngine.vertices e)) in
  PhysicsEngine.with_forceHistory e [].

Context {JST : JSTrig num}.

(** The loop of [endPress] over the regions.  [random k] is the k-th
    draw of [Math.random()] in the call; one is drawn for each region
    the release reaches. *)
Fixpoint endPress_regions (point : PressPoint.t num) (releaseMagnitude : num)
    (random : nat -> num) (k : nat) (regions : list (Region.t num))
  : list (Region.t num) :=
  match regions with
  | [] => []
  | region :: rest =>
      let cx := Region.x region + Region.width region / int 2 in
      let cy := Region.y region + Region.height region / int 2 in
      let dx := PressPoint.x point - cx in
      let dy := PressPoint.y point - cy in
      let dist := Math_sqrt (dx * dx + dy * dy) in
      let influence := Math_max (int 0) (int 1 - dist * int 2) in
      if influence >? int 0 then
        let angle :=
          Math_atan2 (cy - PressPoint.y point) (cx - PressPoint.x point) in
        let randomOffset := (random k - lit 5 10) * lit 3 10 in
        let velocityX :=
          Vec2.x (Region.velocity region)
          + Math_cos (angle + randomOffset) * releaseMagnitude * influence * lit 5 10 in
        let velocityY :=
          Vec2.y (Region.velocity region)
          + Math_sin (angle + randomOffset) * releaseMagnitude * influence * lit 5 10 in
        let velocityY := velocityY - releaseMagnitude * influence * lit 8 10 in
        Region.moved region (Region.position region)
          (Vec2.mk velocityX velocityY)
        :: endPress_regions point releaseMagnitude random (S k) rest
      else region :: endPress_regions point releaseMagnitude random k rest
  end.

(** [endPress(id)] *)
Definition endPress e (id : Z) (random : nat -> num) : PhysicsEngine.t num :=
  match JSMap.get id (PhysicsEngine.pressPoints e) with
  | Some point =>
      let releaseMagnitude := PressPoint.depth point * int 8 in
      let e :=
        PhysicsEngine.with_regions e
          (endPress_regions point releaseMagnitude random 0
             (PhysicsEngine.regions e)) in
      PhysicsEngine.with_pressPoints e
        (JSMap.set id
           (PressPoint.mk (PressPoint.x point) (PressPoint.y point)
              (PressPoint.depth point) (int 0))
           (PhysicsEngine.pressPoints e))
  | None => e
  end.

End Engine.

(** ** The triangle warp of the renderer (js/storage.js, [Renderer]) *)

Section Renderer.

Context {num : Type} {JSN : JSNumber num}.

Local Open Scope js_scope.

(** The arguments of [ctx.transform(m11, m21, m12, m22, m13, m23)]. *)
Record Transform : Type := mkTransform {
  m11 : num; m21 : num; m12 : num; m22 : num; m13 : num; m23 : num
}.

(** [drawTexturedTriangle(sx0, ..., dy2)], as far as the affine map is
    concerned: [Some] of the transform the image is drawn through, or
    [None] when the function restores the context and returns before
    drawing.  (The clip path set before is undone by [ctx.restore()]
    either way.) *)
Definition drawTexturedTriangle
    (sx0 sy0 sx1 sy1 sx2 sy2 dx0 dy0 dx1 dy1 dx2 dy2 : num)
  : option Transform :=
  let denom := (sx0 - sx2) * (sy1 - sy2) - (sx1 - sx2) * (sy0 - sy2) in
  if Math_abs denom <? lit 1 1000 then None
  else
    let m11 := ((dx0 - dx2) * (sy1 - sy2) - (dx1 - dx2) * (sy0 - sy2)) / denom in
    let m12 := ((dx1 - dx2) * (sx0 - sx2) - (dx0 - dx2) * (sx1 - sx2)) / denom in
    let m21 := ((dy0 - dy2) * (sy1 - sy2) - (dy1 - dy2) * (sy0 - sy2)) / denom in
    let m22 := ((dy1 - dy2) * (sx0 - sx2) - (dy0 - dy2) * (sx1 - sx2)) / denom in
    let m13 := dx2 - m11 * sx2 - m12 * sy2 in
    let m23 := dy2 - m21 * sx2 - m22 * sy2 in
    Some (mkTransform m11 m21 m12 m22 m13 m23).

End Renderer.

(** ** The step of a region as the specification words it *)

Section StepSpec.

Context {num : Type} {JSN : JSNumber num}.

Local Open Scope js_scope.

(** One axis of a region step: spring force [-stiffness * position],
    damping force [-damping * velocity], summed with the applied force
    and divided by the mass; [velocity += acceleration],
    [position += velocity]; the position clamped to
    [+-maxDisplacement]; both snapped to 0 when the position is below
    [posThreshold] and the velocity below [velThreshold] in
    magnitude.  Returns the new position and velocity. *)
Definition axis_step_spec (e : PhysicsEngine.t num) (stiffness damping : num)
    (position velocity applied : num) : num * num :=
  let springForce := - stiffness * position in
  let dampingForce := - damping * velocity in
  let acceleration :=
    (springForce + dampingForce + applied) / PhysicsEngine.mass e in
  let velocity := velocity + acceleration in
  let position := position + velocity in
  let position :=
    clamp position (- PhysicsEngine.maxDisplacement e)
      (PhysicsEngine.maxDisplacement e) in
  if ((Math_abs position <? PhysicsEngine.posThreshold e)
      && (Math_abs velocity <? PhysicsEngine.velThreshold e))%bool
  then (int 0, int 0)
  else (position, velocity).

(** A region step under the applied force [(fx, fy)]: the two axes
    independently. *)
Definition region_step_spec (e : PhysicsEngine.t num) (region : Region.t num)
    (fx fy : num) : Region.t num :=
  let '(px, vx) :=
    axis_step_spec e (Region.stiffness region) (Region.damping region)
      (Vec2.x (Region.position region)) (Vec2.x (Region.velocity region)) fx in
  let '(py, vy) :=
    axis_step_spec e (Region.stiffness region) (Region.damping region)
      (Vec2.y (Region.position region)) (Vec2.y (Region.velocity region)) fy in
  Region.moved region (Vec2.mk px py) (Vec2.mk vx vy).

(** The two "knead" pattern ids. *)
Definition is_knead (patternId : option string) : bool :=
  match patternId with
  | Some id => (String.eqb id "kneadLeft" || String.eqb id "kneadRight")%bool
  | None => false
  end.

(** The history entry a region reads: the one at index
    [min(delayFrames, length - 1)]. *)
Definition delayed_entry (forceHistory : list (ForceEntry.t num))
    (region : Region.t num) : ForceEntry.t num :=
  nth (Nat.min (Region.delayFrames region) (List.length forceHistory - 1))
    forceHistory (ForceEntry.mk (int 0) (int 0) None).

(** The X force applied to the region at index [i] from the entry
    [entry]: negated for a knead pattern at an odd index. *)
Definition applied_x_spec (entry : ForceEntry.t num) (i : nat) : num :=
  if (is_knead (ForceEntry.patternId entry) && Nat.odd i)%bool
  then - ForceEntry.x entry
  else ForceEntry.x entry.

(** The entry a call of [update] adds: the force scaled by the
    sensitivity, with the pattern id. *)
Definition new_entry (e : PhysicsEngine.t num) (force : Vec2.t num)
    (patternId : option string) : ForceEntry.t num :=
  ForceEntry.mk
    (or0 (Vec2.x force) * PhysicsEngine.sensitivity e)
    (or0 (Vec2.y force) * PhysicsEngine.sensitivity e)
    patternId.

(** A sequence of [update] calls, each with its force and pattern id. *)
Definition run (e : PhysicsEngine.t num)
    (steps : list (Vec2.t num * option string)) : PhysicsEngine.t num :=
  fold_left (fun e' '(force, patternId) => fst (update e' force patternId))
    steps e.

End StepSpec.

(** ** The influence field as the specification words it *)

Section InfluenceSpec.

Local Open Scope R_scope.

(** [clamp(v, lo, hi)] *)
Definition clamp_spec (v lo hi : R) : R := Rmin hi (Rmax lo v).

(** The normalized ellipse distance of [(px, py)] from the centre
    [(cx, cy)] of the region, with radii [(width/2, height/2)]. *)
Definition ellipse_distance_spec (px py : R) (region : Region.t R) : R :=
  let cx := Region.x region + Region.width region / 2 in
  let cy := Region.y region + Region.height region / 2 in
  let rx := Region.width region / 2 in
  let ry := Region.height region / 2 in
  sqrt (((px - cx) / rx) ^ 2 + ((py - cy) / ry) ^ 2).

(** The two-piece falloff in the distance [d]: the Gaussian core below
    0.6, the cubic fade from there on. *)
Definition falloff_spec (d : R) : R :=
  if Rlt_dec d (6 / 10) then exp (- (5 / 10) * d ^ 2)
  else
    let t := (d - 6 / 10) / (9 / 10) in
    exp (- (5 / 10) * (6 / 10) ^ 2) * Rmax 0 (1 - t ^ 3).

(** The vertical bias of a point at height [py]. *)
Definition vertical_bias_spec (py : R) (region : Region.t R) : R :=
  let cy := Region.y region + Region.height region / 2 in
  clamp_spec (1 + (cy - py) * (5 / 10)) (5 / 10) (15 / 10).

Definition influence_spec (px py : R) (region : Region.t R) : R :=
  falloff_spec (ellipse_distance_spec px py region)
  * vertical_bias_spec py region.

End InfluenceSpec.

(** ** Rest and release, for the statements below *)

Section RestSpec.

Local Open Scope R_scope.

(** The force [{x: 0, y: 0}]. *)
Definition zero_force : Vec2.t R := Vec2.mk 0 0.

(** A sequence of [update] calls with that force, one for each pattern
    id of the list. *)
Definition zero_steps (patternIds : list (option string))
  : list (Vec2.t R * option string) :=
  List.map (fun patternId => (zero_force, patternId)) patternIds.

(** A region at rest. *)
Definition at_rest (region : Region.t R) : Prop :=
  Region.position region = Vec2.mk 0 0 /\ Region.velocity region = Vec2.mk 0 0.

(** A history entry with no force. *)
Definition zero_entry (entry : ForceEntry.t R) : Prop :=
  ForceEntry.x entry = 0 /\ ForceEntry.y entry = 0.

(** The state in which [update] with a zero force changes nothing. *)
Definition resting (e : PhysicsEngine.t R) : Prop :=
  Forall at_rest (PhysicsEngine.regions e)
  /\ Forall zero_entry (PhysicsEngine.forceHistory e)
  /\ PhysicsEngine.pressPoints e = [].

(** [n] calls of [updatePressState()]. *)
Definition updatePressState_times (n : nat) (e : PhysicsEngine.t R)
  : PhysicsEngine.t R :=
  Nat.iter n updatePressState e.

End RestSpec.

(** The press points after the first loop of [updatePressState()], each
    with its deletion flag. *)
Definition stepped_points {num} `{JSNumber num} (e : PhysicsEngine.t num)
    (m : JSMap.t (PressPoint.t num))
  : list (Z * (PressPoint.t num * bool)) :=
  List.map (fun '(id, point) => (id, updatePressPoint e point)) m.

(** A binary64 value that is NaN or lies in [[-m, m]]. *)
Definition nan_or_within (m v : float) : bool :=
  (PrimFloat.is_nan v
   || (PrimFloat.leb (PrimFloat.opp m) v && PrimFloat.leb v m))%bool.

(** ** Concrete engines *)

(** Inputs in binary64, the arithmetic of the host. *)
Module On64.

Definition n (a : Z) (b : positive) : float := lit a b.

(** The number [1e308]. *)
Definition huge : float := Binary64.decimal_1e308.

Definition engine0 : PhysicsEngine.t float := new_PhysicsEngine.

(** One region over the middle of the image; both variation draws are
    0.5, so its stiffness is 0.08 and its damping 0.92. *)
Definition one_region : PhysicsEngine.t float :=
  addRegion engine0 (Rect.mk (n 3 10) (n 3 10) (n 4 10) (n 4 10))
    (n 5 10) (n 5 10) false.

(** [update({x: 100, y: 0})] on it. *)
Definition pushed : PhysicsEngine.t float * list (Sample.t float) :=
  update one_region (Vec2.mk (n 100 1) (n 0 1)) None.

(** Then [applyForceAtPosition({x: 1, y: 0}, 0.95, 0.95)], the pointer
    in the corner of the image, away from the region. *)
Definition pointer_far : PhysicsEngine.t float * list (Sample.t float) :=
  applyForceAtPosition (fst pushed) (Vec2.mk (n 1 1) (n 0 1))
    (n 95 100) (n 95 100).

(** Two regions side by side. *)
Definition two_regions : PhysicsEngine.t float :=
  addRegion
    (addRegion engine0 (Rect.mk (n 1 10) (n 3 10) (n 3 10) (n 4 10))
       (n 5 10) (n 5 10) false)
    (Rect.mk (n 6 10) (n 3 10) (n 3 10) (n 4 10))
    (n 5 10) (n 5 10) true.

(** A region of width 0 on the right edge of the image, as the
    selection yields it when the rectangle is drawn beside the image
    ([pixelToNormalized] clamps [x] to 1 and [width] to [1 - x = 0]). *)
Definition zero_width : PhysicsEngine.t float :=
  addRegion engine0 (Rect.mk (n 1 1) (n 3 10) (n 0 1) (n 4 10))
    (n 5 10) (n 5 10) false.

(** One region; [update({x: 1e308, y: 0})], which overflows, then
    [update({x: 0, y: 0})]. *)
Definition overflowed : PhysicsEngine.t float * list (Sample.t float) :=
  update
    (fst (update one_region
            (Vec2.mk huge (n 0 1)) None))
    (Vec2.mk (n 0 1) (n 0 1)) None.

(** [update({x: 100, y: 0})], [reset()], then three times
    [update({x: 0, y: 0})]: the arrays the three calls return. *)
Definition reset_and_rest : list (list (Sample.t float)) :=
  let e0 := reset (fst pushed) in
  let zero := Vec2.mk (n 0 1) (n 0 1) in
  let r1 := update e0 zero None in
  let r2 := update (fst r1) zero None in
  let r3 := update (fst r2) zero None in
  [snd r1; snd r2; snd r3].

(** [startPress(0, 1, 0.5)] on it, then [update({x: 0, y: 0})]. *)
Definition zero_width_pressed : PhysicsEngine.t float * list (Sample.t float) :=
  update (startPress zero_width 0 (n 1 1) (n 5 10))
    (Vec2.mk (n 0 1) (n 0 1)) None.

End On64.

(** Inputs in exact arithmetic. *)
Module OnR.

Local Open Scope R_scope.

Definition engine0 : PhysicsEngine.t R := new_PhysicsEngine.

Definition one_region : PhysicsEngine.t R :=
  addRegion engine0 (Rect.mk (3 / 10) (3 / 10) (4 / 10) (4 / 10))
    (5 / 10) (5 / 10) false.

(** A region covering the whole image. *)
Definition whole_image : Region.t R :=
  Region.mk 0 0 1 1 (Vec2.mk 0 0) (Vec2.mk 0 0) (8 / 100) (92 / 100) 0 0.

(** A press in progress. *)
Definition pressing : PhysicsEngine.t R :=
  startPress engine0 0 (5 / 10) (5 / 10).

End OnR.

(** ** More of the engine (js/physics.js) *)

(** The argument of [setPhysicsParams] and the result of
    [getPhysicsParams]: an absent ([undefined]) field is [None]. *)
Module PhysicsParams.
Record t (num : Type) : Type := mk {
  baseStiffness : option num;
  baseDamping : option num;
  sensitivity : option num;
  posThreshold : option num;
  velThreshold : option num
}.
End PhysicsParams.

Section EngineSettings.

Context {num : Type} {JSN : JSNumber num}.

Local Open Scope js_scope.

Implicit Types (e : PhysicsEngine.t num) (region : Region.t num).

(** The region with its [stiffness] and [damping] replaced. *)
Definition retuned region (stiffness damping : num) : Region.t num :=
  Region.mk (Region.x region) (Region.y region)
    (Region.width region) (Region.height region)
    (Region.position region) (Region.velocity region)
    stiffness damping (Region.delayFrames region) (Region.phaseOffset region).

(** The engine with the five parameters of [getPhysicsParams] replaced. *)
Definition with_params e (baseStiffness baseDamping sensitivity posThreshold
    velThreshold : num) : PhysicsEngine.t num :=
  PhysicsEngine.mk baseStiffness baseDamping (PhysicsEngine.mass e)
    sensitivity (PhysicsEngine.maxDisplacement e) posThreshold velThreshold
    (PhysicsEngine.gridDensity e) (PhysicsEngine.gridSizeX e)
    (PhysicsEngine.gridSizeY e) (PhysicsEngine.aspectRatio e)
    (PhysicsEngine.vertices e) (PhysicsEngine.regions e)
    (PhysicsEngine.forceHistory e) (PhysicsEngine.historyLength e)
    (PhysicsEngine.pressPoints e) (PhysicsEngine.pressSpeed e)
    (PhysicsEngine.releaseSpeed e).

(** [getPhysicsParams()] *)
Definition getPhysicsParams e : PhysicsParams.t num :=
  PhysicsParams.mk
    (Some (PhysicsEngine.baseStiffness e))
    (Some (PhysicsEngine.baseDamping e))
    (Some (PhysicsEngine.sensitivity e))
    (Some (PhysicsEngine.posThreshold e))
    (Some (PhysicsEngine.velThreshold e)).

(** The loop [for (const region of this.regions)] that ends
    [setPhysicsParams] and [resetToDefaults]: every region gets a new
    stiffness and damping, from two draws of [Math.random()] each;
    [random k] is the k-th draw of the call. *)
Fixpoint retune_regions e (random : nat -> num) (k : nat)
    (regions : list (Region.t num)) : list (Region.t num) :=
  match regions with
  | [] => []
  | region :: rest =>
      let stiffnessVariation := lit 7 10 + random k * lit 6 10 in
      let dampingVariation := lit 95 100 + random (S k) * lit 1 10 in
      retuned region
        (PhysicsEngine.baseStiffness e * stiffnessVariation)
        (PhysicsEngine.baseDamping e * dampingVariation)
      :: retune_regions e random (S (S k)) rest
  end.

(** [setPhysicsParams(params)] *)
Definition setPhysicsParams e (params : PhysicsParams.t num)
    (random : nat -> num) : PhysicsEngine.t num :=
  let pick (given : option num) (current : num) : num :=
    match given with Some v => v | None => current end in
  let e :=
    with_params e
      (pick (PhysicsParams.baseStiffness params) (PhysicsEngine.baseStiffness e))
      (pick (PhysicsParams.baseDamping params) (PhysicsEngine.baseDamping e))
      (pick (PhysicsParams.sensitivity params) (PhysicsEngine.sensitivity e))
      (pick (PhysicsParams.posThreshold params) (PhysicsEngine.posThreshold e))
      (pick (PhysicsParams.velThreshold params) (PhysicsEngine.velThreshold e)) in
  PhysicsEngine.with_regions e
    (retune_regions e random 0 (PhysicsEngine.regions e)).

(** [resetToDefaults()], with [PhysicsEngine.DEFAULTS]. *)
Definition resetToDefaults e (random : nat -> num) : PhysicsEngine.t num :=
  let e :=
    with_params e (lit 8 100) (lit 92 100) (int 4) (lit 3 10) (lit 5 100) in
  PhysicsEngine.with_regions e
    (retune_regions e random 0 (PhysicsEngine.regions e)).

(** [getRegionCount()] *)
Definition getRegionCount e : nat := List.length (PhysicsEngine.regions e).

Context {JST : JSTrig num}.

(** The loop of [applyImpulse]: two draws of [Math.random()] for each
    region, the angle and then the magnitude. *)
Fixpoint applyImpulse_regions (ix iy : num) (random : nat -> num) (k : nat)
    (regions : list (Region.t num)) : list (Region.t num) :=
  match regions with
  | [] => []
  | region :: rest =>
      let angle := Region.phaseOffset region + random k * lit 5 10 in
      let magnitude := lit 7 10 + random (S k) * lit 6 10 in
      let rotatedX := ix * Math_cos angle - iy * Math_sin angle * lit 3 10 in
      let rotatedY := iy * Math_cos angle + ix * Math_sin angle * lit 3 10 in
      Region.moved region (Region.position region)
        (Vec2.mk
           (Vec2.x (Region.velocity region) + rotatedX * magnitude)
           (Vec2.y (Region.velocity region) + rotatedY * magnitude))
      :: applyImpulse_regions ix iy random (S (S k)) rest
  end.

(** [applyImpulse(impulse)] *)
Definition applyImpulse e (impulse : Vec2.t num) (random : nat -> num)
  : PhysicsEngine.t num :=
  let ix := or0 (Vec2.x impulse) * PhysicsEngine.sensitivity e * int 5 in
  let iy := or0 (Vec2.y impulse) * PhysicsEngine.sensitivity e * int 5 in
  PhysicsEngine.with_regions e
    (applyImpulse_regions ix iy random 0 (PhysicsEngine.regions e)).

End EngineSettings.

(** The region [addRegion] creates at index [index] from the box
    [rect] and the draws [u1], [u2], [coin]. *)
Definition created_region {num} `{JSNumber num} (e : PhysicsEngine.t num)
    (index : nat) (rect : Rect.t num) (u1 u2 : num) (coin : bool)
  : Region.t num :=
  Region.mk (Rect.x rect) (Rect.y rect) (Rect.width rect) (Rect.height rect)
    (Vec2.mk (int 0) (int 0)) (Vec2.mk (int 0) (int 0))
    (mul (PhysicsEngine.baseStiffness e) (add (lit 7 10) (mul u1 (lit 6 10))))
    (mul (PhysicsEngine.baseDamping e) (add (lit 95 100) (mul u2 (lit 1 10))))
    (index * 3 + (if coin then 1 else 0))
    (mul (mul (int (Z.of_nat index)) Math_PI) (lit 3 10)).

(** Two regions that differ at most in their velocity. *)
Definition same_but_velocity {num} (r r' : Region.t num) : Prop :=
  Region.x r' = Region.x r /\ Region.y r' = Region.y r
  /\ Region.width r' = Region.width r /\ Region.height r' = Region.height r
  /\ Region.position r' = Region.position r
  /\ Region.stiffness r' = Region.stiffness r
  /\ Region.damping r' = Region.damping r
  /\ Region.delayFrames r' = Region.delayFrames r
  /\ Region.phaseOffset r' = Region.phaseOffset r.

(** Two regions that differ at most in their position and velocity. *)
Definition same_but_motion {num} (r r' : Region.t num) : Prop :=
  Region.x r' = Region.x r /\ Region.y r' = Region.y r
  /\ Region.width r' = Region.width r /\ Region.height r' = Region.height r
  /\ Region.stiffness r' = Region.stiffness r
  /\ Region.damping r' = Region.damping r
  /\ Region.delayFrames r' = Region.delayFrames r
  /\ Region.phaseOffset r' = Region.phaseOffset r.

(** Two regions that differ at most in their stiffness and damping. *)
Definition same_but_tuning {num} (r r' : Region.t num) : Prop :=
  Region.x r' = Region.x r /\ Region.y r' = Region.y r
  /\ Region.width r' = Region.width r /\ Region.height r' = Region.height r
  /\ Region.position r' = Region.position r
  /\ Region.velocity r' = Region.velocity r
  /\ Region.delayFrames r' = Region.delayFrames r
  /\ Region.phaseOffset r' = Region.phaseOffset r.

(** How far the release of a press point reaches a region, in exact
    arithmetic: [max(0, 1 - 2 dist)], [dist] being the distance of the
    point from the centre of the region. *)
Definition release_reach (point : PressPoint.t R) (region : Region.t R) : R :=
  let cx := (Region.x region + Region.width region / 2)%R in
  let cy := (Region.y region + Region.height region / 2)%R in
  Rmax 0
    (1 - 2 * sqrt ((PressPoint.x point - cx) * (PressPoint.x point - cx)
                   + (PressPoint.y point - cy) * (PressPoint.y point - cy)))%R.

(** ** The grid sizes (js/physics.js) *)

Section GridSize.

Context {num : Type} {JSN : JSNumber num} {JSR : JSRound num}.

Local Open Scope js_scope.

Implicit Types (e : PhysicsEngine.t num).

(** The engine with its grid fields replaced. *)
Definition with_grid e (gridDensity gridSizeX gridSizeY : nat)
    (aspectRatio : num) : PhysicsEngine.t num :=
  PhysicsEngine.mk (PhysicsEngine.baseStiffness e) (PhysicsEngine.baseDamping e)
    (PhysicsEngine.mass e) (PhysicsEngine.sensitivity e)
    (PhysicsEngine.maxDisplacement e) (PhysicsEngine.posThreshold e)
    (PhysicsEngine.velThreshold e)
    gridDensity gridSizeX gridSizeY aspectRatio
    (PhysicsEngine.vertices e) (PhysicsEngine.regions e)
    (PhysicsEngine.forceHistory e) (PhysicsEngine.historyLength e)
    (PhysicsEngine.pressPoints e) (PhysicsEngine.pressSpeed e)
    (PhysicsEngine.releaseSpeed e).

(** [calculateGridSize()].  The sizes are kept as naturals, as the loops
    of [initVertices] count them: for a positive aspect ratio the
    rounded size is a finite number and not negative. *)
Definition calculateGridSize e : PhysicsEngine.t num :=
  let gridDensity := int (Z.of_nat (PhysicsEngine.gridDensity e)) in
  if geb (PhysicsEngine.aspectRatio e) (int 1) then
    with_grid e (PhysicsEngine.gridDensity e)
      (Z.to_nat (Math_round (gridDensity * PhysicsEngine.aspectRatio e)))
      (PhysicsEngine.gridDensity e)
      (PhysicsEngine.aspectRatio e)
  else
    with_grid e (PhysicsEngine.gridDensity e)
      (PhysicsEngine.gridDensity e)
      (Z.to_nat (Math_round (gridDensity / PhysicsEngine.aspectRatio e)))
      (PhysicsEngine.aspectRatio e).

(** [setImageAspectRatio(width, height)] *)
Definition setImageAspectRatio e (width height : num) : PhysicsEngine.t num :=
  let e :=
    with_grid e (PhysicsEngine.gridDensity e) (PhysicsEngine.gridSizeX e)
      (PhysicsEngine.gridSizeY e) (width / height) in
  initVertices (calculateGridSize e).

(** [setGridDensity(density)] for an integer [density] (the caller
    passes the result of [parseInt]). *)
Definition setGridDensity e (density : Z) : PhysicsEngine.t num :=
  let e :=
    with_grid e (Z.to_nat (Z.max 5 (Z.min 40 density)))
      (PhysicsEngine.gridSizeX e) (PhysicsEngine.gridSizeY e)
      (PhysicsEngine.aspectRatio e) in
  initVertices (calculateGridSize e).

(** [getGridDensity()], which [getGridSize()] returns too. *)
Definition getGridDensity e : nat := PhysicsEngine.gridDensity e.

(** [getGridSizeX()] and [getGridSizeY()] *)
Definition getGridSizeX e : nat := PhysicsEngine.gridSizeX e.
Definition getGridSizeY e : nat := PhysicsEngine.gridSizeY e.

End GridSize.

(** An image 400 pixels wide and 580 high on a new engine: in binary64,
    and in exact arithmetic. *)
Module OnGrid.

Definition portrait64 : PhysicsEngine.t float :=
  setImageAspectRatio new_PhysicsEngine (lit 400 1) (lit 580 1).

Definition portraitR : PhysicsEngine.t R :=
  setImageAspectRatio new_PhysicsEngine 400%R 580%R.

End OnGrid.

(** ** Sequences of calls on an engine *)

Section Calls.

Context {num : Type} {JSN : JSNumber num} {JST : JSTrig num}.

Local Open Scope js_scope.

(** A call of one of these methods of the engine, with its arguments and
    the draws of [Math.random()] it consumes.  (The methods that rebuild
    the grid, and [setParams], are not among them.) *)
Inductive Call : Type :=
  | CallAddRegion (region : Rect.t num) (u1 u2 : num) (coin : bool)
  | CallSetRegions (regions : list (Rect.t num * (num * num * bool)))
  | CallClearRegions
  | CallRemoveRegion (index : Z)
  | CallUpdate (force : Vec2.t num) (patternId : option string)
  | CallStartPress (id : Z) (x y : num)
  | CallUpdatePressPosition (id : Z) (x y : num)
  | CallEndPress (id : Z) (random : nat -> num)
  | CallUpdatePressState
  | CallApplyForceAtPosition (force : Vec2.t num) (posX posY : num)
  | CallApplyImpulse (impulse : Vec2.t num) (random : nat -> num)
  | CallReset
  | CallSetPhysicsParams (params : PhysicsParams.t num) (random : nat -> num)
  | CallResetToDefaults (random : nat -> num).

(** The engine after a call. *)
Definition call (e : PhysicsEngine.t num) (c : Call) : PhysicsEngine.t num :=
  match c with
  | CallAddRegion region u1 u2 coin => addRegion e region u1 u2 coin
  | CallSetRegions regions => setRegions e regions
  | CallClearRegions => clearRegions e
  | CallRemoveRegion index => removeRegion e index
  | CallUpdate force patternId => fst (update e force patternId)
  | CallStartPress id x y => startPress e id x y
  | CallUpdatePressPosition id x y => updatePressPosition e id x y
  | CallEndPress id random => endPress e id random
  | CallUpdatePressState => updatePressState e
  | CallApplyForceAtPosition force posX posY =>
      fst (applyForceAtPosition e force posX posY)
  | CallApplyImpulse impulse random => applyImpulse e impulse random
  | CallReset => reset e
  | CallSetPhysicsParams params random => setPhysicsParams e params random
  | CallResetToDefaults random => resetToDefaults e random
  end.

(** The engine after a sequence of calls, the first of the list first. *)
Definition calls (e : PhysicsEngine.t num) (cs : list Call)
  : PhysicsEngine.t num :=
  fold_left call cs e.

(** What the calls keep of a new engine: the constants of the
    constructor, the vertices, a force history no longer than
    [historyLength], one press point for an id, and a target depth of 1
    or 0 for each. *)
Definition well_formed (e : PhysicsEngine.t num) : Prop :=
  PhysicsEngine.mass e = int 1
  /\ PhysicsEngine.maxDisplacement e = int 25
  /\ PhysicsEngine.historyLength e = 8%nat
  /\ PhysicsEngine.pressSpeed e = lit 15 100
  /\ PhysicsEngine.releaseSpeed e = lit 8 100
  /\ PhysicsEngine.vertices e = PhysicsEngine.vertices new_PhysicsEngine
  /\ (List.length (PhysicsEngine.forceHistory e) <= 8)%nat
  /\ NoDup (JSMap.keys (PhysicsEngine.pressPoints e))
  /\ (forall id point,
        JSMap.get id (PhysicsEngine.pressPoints e) = Some point ->
        PressPoint.targetDepth point = int 1
        \/ PressPoint.targetDepth point = int 0).

(** Both components of the position of every region satisfy [P]. *)
Definition positions (P : num -> Prop) (e : PhysicsEngine.t num) : Prop :=
  Forall
    (fun region =>
       P (Vec2.x (Region.position region))
       /\ P (Vec2.y (Region.position region)))
    (PhysicsEngine.regions e).

(** The depth of every press point satisfies [D]. *)
Definition depths (D : num -> Prop) (e : PhysicsEngine.t num) : Prop :=
  forall id point,
    JSMap.get id (PhysicsEngine.pressPoints e) = Some point ->
    D (PressPoint.depth point).

End Calls.

(** ** The renderer (js/storage.js, [Renderer]): coordinates and regions *)

Module Renderer.

Section Coordinates.

Context {num : Type} {JSN : JSNumber num}.

Local Open Scope js_scope.

(** [v || 1] *)
Definition or1 (v : num) : num :=
  if (ltb v (int 0) || ltb (int 0) v)%bool then v else int 1.

(** [calculateImageRect()] once an image is loaded: the value of
    [this.imageRect], from [canvas.width], [canvas.height],
    [window.devicePixelRatio] and the size of the image. *)
Definition calculateImageRect
    (canvas_width canvas_height devicePixelRatio image_width image_height : num)
  : Rect.t num :=
  let canvasWidth := canvas_width / or1 devicePixelRatio in
  let canvasHeight := canvas_height / or1 devicePixelRatio in
  let scale :=
    Math_min (canvasWidth / image_width) (canvasHeight / image_height) in
  let width := image_width * scale in
  let height := image_height * scale in
  let x := (canvasWidth - width) / int 2 in
  let y := (canvasHeight - height) / int 2 in
  Rect.mk x y width height.

(** [clientToNormalized(clientX, clientY)]; [rect_left] and [rect_top]
    are those of [canvas.getBoundingClientRect()]. *)
Definition clientToNormalized (imageRect : Rect.t num)
    (rect_left rect_top clientX clientY : num) : Vec2.t num :=
  let canvasX := clientX - rect_left in
  let canvasY := clientY - rect_top in
  let normalizedX := (canvasX - Rect.x imageRect) / Rect.width imageRect in
  let normalizedY := (canvasY - Rect.y imageRect) / Rect.height imageRect in
  Vec2.mk
    (Math_max (int 0) (Math_min (int 1) normalizedX))
    (Math_max (int 0) (Math_min (int 1) normalizedY)).

(** [updateSelectionRect(currentX, currentY)]: the new
    [this.selectionRect]. *)
Definition updateSelectionRect (selectionStart : Vec2.t num)
    (currentX currentY : num) : Rect.t num :=
  let x := Math_min (Vec2.x selectionStart) currentX in
  let y := Math_min (Vec2.y selectionStart) currentY in
  let width := Math_abs (currentX - Vec2.x selectionStart) in
  let height := Math_abs (currentY - Vec2.y selectionStart) in
  Rect.mk x y width height.

(** [pixelToNormalized(rect)] *)
Definition pixelToNormalized (imageRect rect : Rect.t num) : Rect.t num :=
  let imgX := Rect.x imageRect in
  let imgY := Rect.y imageRect in
  let imgW := Rect.width imageRect in
  let imgH := Rect.height imageRect in
  let x := Math_max (int 0) (Math_min (int 1) ((Rect.x rect - imgX) / imgW)) in
  let y := Math_max (int 0) (Math_min (int 1) ((Rect.y rect - imgY) / imgH)) in
  let width := Math_max (int 0) (Math_min (int 1 - x) (Rect.width rect / imgW)) in
  let height := Math_max (int 0) (Math_min (int 1 - y) (Rect.height rect / imgH)) in
  Rect.mk x y width height.

(** [onSelectionEnd()]: the region handed to [onRegionSelected], if the
    callback is called. *)
Definition onSelectionEnd (isSelecting : bool)
    (selectionRect : option (Rect.t num)) (imageRect : Rect.t num)
  : option (Rect.t num) :=
  if isSelecting then
    match selectionRect with
    | Some rect =>
        if ((Rect.width rect >? int 10) && (Rect.height rect >? int 10))%bool
        then Some (pixelToNormalized imageRect rect)
        else None
    | None => None
    end
  else None.

(** [addRegion(region)], [clearRegions()], [removeRegion(index)] and
    [getRegionCount()], on [this.regions]. *)
Definition addRegion (regions : list (Rect.t num)) (region : Rect.t num)
  : list (Rect.t num) :=
  regions ++ [region].

Definition clearRegions (regions : list (Rect.t num)) : list (Rect.t num) :=
  [].

Definition removeRegion (regions : list (Rect.t num)) (index : Z)
  : list (Rect.t num) :=
  if ((0 <=? index)%Z && (index <? Z.of_nat (List.length regions))%Z)%bool
  then firstn (Z.to_nat index) regions ++ skipn (S (Z.to_nat index)) regions
  else regions.

Definition getRegionCount (regions : list (Rect.t num)) : nat :=
  List.length regions.

End Coordinates.

Section Exact.

Local Open Scope R_scope.

(** A quotient of the code as the comparison [dist <= 1] sees it, in
    exact arithmetic: [None] where the divisor is zero.  The code's
    quotient is an infinity or NaN there, and so is everything computed
    from it by [-], [/], [Math.pow(_, 2)] and [+] with a square; neither
    is [<= 1]. *)
Definition finite_quotient (a b : R) : option R :=
  if Req_dec_T b 0 then None else Some (a / b).

(** The test of [hitTestRegion] on one region, in exact arithmetic:
    [dist <= 1]. *)
Definition hits (normX normY : R) (region : Rect.t R) : bool :=
  let cx := Rect.x region + Rect.width region / 2 in
  let cy := Rect.y region + Rect.height region / 2 in
  let rx := Rect.width region / 2 in
  let ry := Rect.height region / 2 in
  match finite_quotient (normX - cx) rx, finite_quotient (normY - cy) ry with
  | Some qx, Some qy =>
      let dist := qx ^ 2 + qy ^ 2 in
      if Rle_dec dist 1 then true else false
  | _, _ => false
  end.

(** The loop [for (let i = regions.length - 1; i >= 0; i--)] with
    [n = i + 1] iterations left. *)
Fixpoint hitTestRegion_loop (normX normY : R) (regions : list (Rect.t R))
    (n : nat) : Z :=
  match n with
  | O => -1
  | S i =>
      match nth_error regions i with
      | Some region =>
          if hits normX normY region then Z.of_nat i
          else hitTestRegion_loop normX normY regions i
      | None => hitTestRegion_loop normX normY regions i
      end
  end.

(** [hitTestRegion(canvasX, canvasY)].  When the image rectangle has no
    width or no height ([clearImage()] leaves it so), [normX] or [normY]
    is an infinity or NaN, no [dist] is [<= 1] and the loop ends
    with -1. *)
Definition hitTestRegion (imageRect : Rect.t R) (regions : list (Rect.t R))
    (canvasX canvasY : R) : Z :=
  match
    finite_quotient (canvasX - Rect.x imageRect) (Rect.width imageRect),
    finite_quotient (canvasY - Rect.y imageRect) (Rect.height imageRect)
  with
  | Some normX, Some normY =>
      hitTestRegion_loop normX normY regions (List.length regions)
  | _, _ => -1
  end.

(** The clip path of [drawTexturedTriangle]: [expand] and the three
    vertices pushed away from the centroid. *)
Definition clipTriangle (dx0 dy0 dx1 dy1 dx2 dy2 : R)
  : R * ((R * R) * (R * R) * (R * R)) :=
  let edge1 := sqrt ((dx1 - dx0) ^ 2 + (dy1 - dy0) ^ 2) in
  let edge2 := sqrt ((dx2 - dx1) ^ 2 + (dy2 - dy1) ^ 2) in
  let edge3 := sqrt ((dx0 - dx2) ^ 2 + (dy0 - dy2) ^ 2) in
  let avgEdge := (edge1 + edge2 + edge3) / 3 in
  let cx := (dx0 + dx1 + dx2) / 3 in
  let cy := (dy0 + dy1 + dy2) / 3 in
  let expand := Rmax (3 / 10) (Rmin (8 / 10) (avgEdge * (2 / 100))) in
  let dist0 := sqrt ((dx0 - cx) ^ 2 + (dy0 - cy) ^ 2) + 1 / 100 in
  let dist1 := sqrt ((dx1 - cx) ^ 2 + (dy1 - cy) ^ 2) + 1 / 100 in
  let dist2 := sqrt ((dx2 - cx) ^ 2 + (dy2 - cy) ^ 2) + 1 / 100 in
  let ex0 := dx0 + (dx0 - cx) * expand / dist0 in
  let ey0 := dy0 + (dy0 - cy) * expand / dist0 in
  let ex1 := dx1 + (dx1 - cx) * expand / dist1 in
  let ey1 := dy1 + (dy1 - cy) * expand / dist1 in
  let ex2 := dx2 + (dx2 - cx) * expand / dist2 in
  let ey2 := dy2 + (dy2 - cy) * expand / dist2 in
  (expand, ((ex0, ey0), (ex1, ey1), (ex2, ey2))).

(** The loop of [renderWithMeshDeformation] that looks for the first
    sample whose [y] is not [firstY], from index [i] on. *)
Fixpoint first_other_row (firstY : R) (displacements : list (Sample.t R))
    (i : nat) : option nat :=
  match displacements with
  | [] => None
  | d :: rest =>
      if Req_dec_T (Sample.y d) firstY
      then first_other_row firstY rest (S i)
      else Some i
  end.

(** The grid sizes [renderWithMeshDeformation] infers from the array
    of samples. *)
Definition inferGridSize (displacements : list (Sample.t R)) : Z * Z :=
  let length := List.length displacements in
  let gridSizeX :=
    match displacements with
    | d0 :: _ :: _ =>
        match first_other_row (Sample.y d0) displacements 0 with
        | Some i => (Z.of_nat i - 1)%Z
        | None => 0%Z
        end
    | _ => 0%Z
    end in
  let gridSizeX :=
    if (gridSizeX =? 0)%Z then (Math_round (sqrt (INR length)) - 1)%Z
    else gridSizeX in
  let gridSizeY :=
    (Math_round (INR length / IZR (gridSizeX + 1))%R - 1)%Z in
  (gridSizeX, gridSizeY).

(** The four sample indices of the cell [(gx, gy)] of the mesh. *)
Definition cellIndices (gridSizeX gx gy : nat) : nat * nat * nat * nat :=
  ((gy * (gridSizeX + 1) + gx)%nat,
   (gy * (gridSizeX + 1) + gx + 1)%nat,
   ((gy + 1) * (gridSizeX + 1) + gx)%nat,
   ((gy + 1) * (gridSizeX + 1) + gx + 1)%nat).

End Exact.

End Renderer.

(** ** The motion sensor ([MotionSensor]) *)

(** The object a [MotionSensor] hands to its callback: the [type] and
    the fields that go with it.  ([tap] is a type the callback of the
    application handles.) *)
Module MotionData.
Inductive t (num : Type) : Type :=
  | auto (force : Vec2.t num) (patternId : string)
  | accelerometer (force : Vec2.t num)
  | pointerMove (force : Vec2.t num) (clientX clientY : num)
  | mouse (force : Vec2.t num)
  | touch (force : Vec2.t num)
  | pressStart (id : Z) (clientX clientY : num)
  | pressEnd (id : Z)
  | tap (impulse : Vec2.t num).
End MotionData.

Module MotionSensor.

(** The fields of a [MotionSensor] the handlers read and write. *)
Record t (num : Type) : Type := mk {
  isRunning : bool;
  lastAcceleration : Vec2.t num;
  orientation : Z;
  lastMousePosition : option (Vec2.t num);
  autoEnabled : bool;
  manualEnabled : bool;
  sensorEnabled : bool;
  manualMode : string;
  currentPatternIndex : nat;
  autoStrength : num
}.

(** A touch of a [TouchEvent]: [identifier], [clientX], [clientY]. *)
Record Touch (num : Type) : Type :=
  mkTouch { identifier : Z; clientX : num; clientY : num }.

Section Handlers.

Context {num : Type} {JSN : JSNumber num}.

Local Open Scope js_scope.

Implicit Types (s : t num).

(** The ids of [this.autoPatterns], in order. *)
Definition autoPatterns : list string :=
  ["breath"; "walk"; "run"; "jump"; "shake"; "wave"; "kneadLeft";
   "kneadRight"]%string.

(** [new MotionSensor(callback)]; [window_orientation] is
    [window.orientation || 0]. *)
Definition new_MotionSensor (window_orientation : Z) : t num :=
  mk false (Vec2.mk (int 0) (int 0)) window_orientation None
     false true false "global" 0 (lit 10 10).

Definition with_isRunning s (b : bool) : t num :=
  mk b (lastAcceleration s) (orientation s) (lastMousePosition s)
     (autoEnabled s) (manualEnabled s) (sensorEnabled s) (manualMode s)
     (currentPatternIndex s) (autoStrength s).

Definition with_lastAcceleration s (a : Vec2.t num) : t num :=
  mk (isRunning s) a (orientation s) (lastMousePosition s)
     (autoEnabled s) (manualEnabled s) (sensorEnabled s) (manualMode s)
     (currentPatternIndex s) (autoStrength s).

Definition with_lastMousePosition s (p : option (Vec2.t num)) : t num :=
  mk (isRunning s) (lastAcceleration s) (orientation s) p
     (autoEnabled s) (manualEnabled s) (sensorEnabled s) (manualMode s)
     (currentPatternIndex s) (autoStrength s).

Definition with_autoStrength s (v : num) : t num :=
  mk (isRunning s) (lastAcceleration s) (orientation s) (lastMousePosition s)
     (autoEnabled s) (manualEnabled s) (sensorEnabled s) (manualMode s)
     (currentPatternIndex s) v.

(** [start()] and [stop()], as far as [isRunning] goes. *)
Definition start s : t num := if isRunning s then s else with_isRunning s true.

Definition stop s : t num := if isRunning s then with_isRunning s false else s.

(** [toggleAuto()], [setAutoEnabled(enabled)], [toggleManual()],
    [setManualEnabled(enabled)], [setManualMode(mode)] and
    [setSensorEnabled(enabled)] *)
Definition setAutoEnabled s (enabled : bool) : t num :=
  mk (isRunning s) (lastAcceleration s) (orientation s) (lastMousePosition s)
     enabled (manualEnabled s) (sensorEnabled s) (manualMode s)
     (currentPatternIndex s) (autoStrength s).

Definition toggleAuto s : t num * bool :=
  (setAutoEnabled s (negb (autoEnabled s)), negb (autoEnabled s)).

Definition setManualEnabled s (enabled : bool) : t num :=
  mk (isRunning s) (lastAcceleration s) (orientation s) (lastMousePosition s)
     (autoEnabled s) enabled (sensorEnabled s) (manualMode s)
     (currentPatternIndex s) (autoStrength s).

Definition toggleManual s : t num * bool :=
  (setManualEnabled s (negb (manualEnabled s)), negb (manualEnabled s)).

Definition setManualMode s (mode : string) : t num :=
  mk (isRunning s) (lastAcceleration s) (orientation s) (lastMousePosition s)
     (autoEnabled s) (manualEnabled s) (sensorEnabled s) mode
     (currentPatternIndex s) (autoStrength s).

Definition setSensorEnabled s (enabled : bool) : t num :=
  mk (isRunning s) (lastAcceleration s) (orientation s) (lastMousePosition s)
     (autoEnabled s) (manualEnabled s) enabled (manualMode s)
     (currentPatternIndex s) (autoStrength s).

(** [autoPatterns.findIndex(p => p.id === patternId)], from index [i]. *)
Fixpoint findIndex (patternId : string) (patterns : list string) (i : nat)
  : option nat :=
  match patterns with
  | [] => None
  | p :: rest =>
      if String.eqb p patternId then Some i else findIndex patternId rest (S i)
  end.

(** [setPattern(patternId)] *)
Definition setPattern s (patternId : string) : t num :=
  match findIndex patternId autoPatterns 0 with
  | Some index =>
      mk (isRunning s) (lastAcceleration s) (orientation s)
         (lastMousePosition s) (autoEnabled s) (manualEnabled s)
         (sensorEnabled s) (manualMode s) index (autoStrength s)
  | None => s
  end.

(** [getCurrentPattern()], the id of it. *)
Definition getCurrentPattern s : option string :=
  nth_error autoPatterns (currentPatternIndex s).

(** [increaseStrength()], [decreaseStrength()] and
    [setAutoStrength(value)] *)
Definition increaseStrength s : t num :=
  with_autoStrength s (Math_min (lit 20 10) (autoStrength s + lit 25 100)).

Definition decreaseStrength s : t num :=
  with_autoStrength s (Math_max (lit 25 100) (autoStrength s - lit 25 100)).

Definition setAutoStrength s (value : num) : t num :=
  with_autoStrength s (Math_max (lit 5 10) (Math_min (lit 20 10) value)).

(** [handleOrientationChange()] *)
Definition handleOrientationChange s (window_orientation : Z) : t num :=
  mk (isRunning s) (lastAcceleration s) window_orientation
     (lastMousePosition s) (autoEnabled s) (manualEnabled s)
     (sensorEnabled s) (manualMode s) (currentPatternIndex s)
     (autoStrength s).

(** [handleDeviceMotion(event)]: the sensor after the event and what
    the callback is called with.  [acc] is
    [event.accelerationIncludingGravity], [None] when it is [null]. *)
Definition handleDeviceMotion s (acc : option (Vec2.t num))
  : t num * list (MotionData.t num) :=
  if (negb (isRunning s) || negb (sensorEnabled s))%bool then (s, [])
  else
    match acc with
    | None => (s, [])
    | Some acc =>
        let x := or0 (Vec2.x acc) in
        let y := or0 (Vec2.y acc) in
        let '(x, y) :=
          if (orientation s =? 90)%Z then (- y, x)
          else if (orientation s =? -90)%Z then (y, - x)
          else if (orientation s =? 180)%Z then (- x, - y)
          else (x, y) in
        let deltaX := x - Vec2.x (lastAcceleration s) in
        let deltaY := y - Vec2.y (lastAcceleration s) in
        (with_lastAcceleration s (Vec2.mk x y),
         [MotionData.accelerometer
            (Vec2.mk (deltaX * lit 5 10) (deltaY * lit 5 10))])
    end.

(** The part [handleMouseMove] and [handleTouchMove] share: the move
    to [(x, y)], with the factor of the handler and the event of its
    global mode. *)
Definition pointerMoved s (x y factor : num)
    (global : Vec2.t num -> MotionData.t num)
  : t num * list (MotionData.t num) :=
  let events :=
    match lastMousePosition s with
    | Some last =>
        let deltaX := x - Vec2.x last in
        let deltaY := y - Vec2.y last in
        if ((Math_abs deltaX >? int 1) || (Math_abs deltaY >? int 1))%bool then
          if String.eqb (manualMode s) "pointer" then
            [MotionData.pointerMove
               (Vec2.mk (deltaX * factor) (deltaY * factor)) x y]
          else if String.eqb (manualMode s) "global" then
            [global (Vec2.mk (deltaX * factor) (deltaY * factor))]
          else []
        else []
    | None => []
    end in
  (with_lastMousePosition s (Some (Vec2.mk x y)), events).

(** [handleMouseMove(event)] *)
Definition handleMouseMove s (clientX clientY : num)
  : t num * list (MotionData.t num) :=
  if (negb (isRunning s) || negb (manualEnabled s))%bool then (s, [])
  else pointerMoved s clientX clientY (lit 1 10) (@MotionData.mouse num).

(** [handleTouchMove(event)], from [event.touches]. *)
Definition handleTouchMove s (touches : list (Touch num))
  : t num * list (MotionData.t num) :=
  if (negb (isRunning s) || negb (manualEnabled s))%bool then (s, [])
  else
    match touches with
    | [] => (s, [])
    | first :: _ =>
        pointerMoved s (clientX first) (clientY first) (lit 15 100)
          (@MotionData.touch num)
    end.

(** The test of the handlers on [event.target.tagName]. *)
Definition onControl (tagName : string) : bool :=
  (String.eqb tagName "BUTTON" || String.eqb tagName "LABEL"
   || String.eqb tagName "SELECT" || String.eqb tagName "INPUT")%bool.

(** [handleMouseDown(event)] and [handleMouseUp(event)] *)
Definition handleMouseDown s (tagName : string) (clientX clientY : num)
  : t num * list (MotionData.t num) :=
  if (negb (isRunning s) || negb (manualEnabled s))%bool then (s, [])
  else if onControl tagName then (s, [])
  else (s, [MotionData.pressStart 0 clientX clientY]).

Definition handleMouseUp s : t num * list (MotionData.t num) :=
  if (negb (isRunning s) || negb (manualEnabled s))%bool then (s, [])
  else (s, [MotionData.pressEnd num 0]).

(** [handleTouchStart(event)], from [event.changedTouches] and
    [event.touches]; [handleTouchEnd(event)]. *)
Definition handleTouchStart s (tagName : string)
    (changedTouches touches : list (Touch num))
  : t num * list (MotionData.t num) :=
  if (negb (isRunning s) || negb (manualEnabled s))%bool then (s, [])
  else if onControl tagName then (s, [])
  else
    let events :=
      List.map
        (fun touch =>
           MotionData.pressStart (identifier touch) (clientX touch)
             (clientY touch))
        changedTouches in
    match touches with
    | first :: _ =>
        (with_lastMousePosition s
           (Some (Vec2.mk (clientX first) (clientY first))),
         events)
    | [] => (s, events)
    end.

Definition handleTouchEnd s (changedTouches : list (Touch num))
  : t num * list (MotionData.t num) :=
  if (negb (isRunning s) || negb (manualEnabled s))%bool then (s, [])
  else
    (s,
     List.map (fun touch => MotionData.pressEnd num (identifier touch))
       changedTouches).

(** A sequence of [devicemotion] events: the sensor after them and all
    the callback was called with, in order. *)
Fixpoint handleDeviceMotions s (accs : list (option (Vec2.t num)))
  : t num * list (MotionData.t num) :=
  match accs with
  | [] => (s, [])
  | acc :: rest =>
      let '(s1, events1) := handleDeviceMotion s acc in
      let '(s2, events2) := handleDeviceMotions s1 rest in
      (s2, events1 ++ events2)
  end.

(** The calls that change [autoStrength]. *)
Inductive StrengthCall : Type :=
  | IncreaseStrength
  | DecreaseStrength
  | SetAutoStrength (value : num).

Definition strengthCall s (c : StrengthCall) : t num :=
  match c with
  | IncreaseStrength => increaseStrength s
  | DecreaseStrength => decreaseStrength s
  | SetAutoStrength value => setAutoStrength s value
  end.

End Handlers.

Section Patterns.

Local Open Scope R_scope.

(** [a % b] in exact arithmetic: [a - b * trunc(a / b)]. *)
Definition remainder (a b : R) : R :=
  let q := a / b in
  a - b * IZR (if Rle_dec 0 q then Zfloor q else Zceil q).

(** [calculatePatternForce(patternId, time)] *)
Definition calculatePatternForce (patternId : string) (time : R) : Vec2.t R :=
  if String.eqb patternId "breath" then
    Vec2.mk (sin (time * (11 / 10)) * (1 / 10))
      (sin (time * (15 / 10)) * (5 / 10) + sin (time * (23 / 10)) * (2 / 10))
  else if String.eqb patternId "walk" then
    Vec2.mk (sin (time * 2) * (3 / 10))
      (Rabs (sin (time * 4)) * (6 / 10))
  else if String.eqb patternId "run" then
    Vec2.mk (sin (time * 4) * (4 / 10))
      (Rabs (sin (time * 8)) * (8 / 10) + sin (time * 16) * (2 / 10))
  else if String.eqb patternId "jump" then
    let jumpCycle := remainder (time * (15 / 10)) (PI * 2) in
    let y :=
      if Rlt_dec jumpCycle (PI * (3 / 10)) then
        sin (jumpCycle / (3 / 10) * PI / 2) * (15 / 10)
      else if Rlt_dec jumpCycle (PI * 1) then
        cos ((jumpCycle - PI * (3 / 10)) / (7 / 10) * PI / 2) * (15 / 10)
      else
        let t := (jumpCycle - PI) / PI in
        sin (t * PI * 3) * exp (- t * 3) * (8 / 10) in
    Vec2.mk (sin (time * 2) * (2 / 10)) y
  else if String.eqb patternId "shake" then
    Vec2.mk
      (sin (time * 23) * (25 / 100) + sin (time * 31) * (15 / 100))
      (sin (time * 20) * (3 / 10) + sin (time * 27) * (2 / 10)
       + sin (time * 33) * (15 / 100))
  else if String.eqb patternId "wave" then
    Vec2.mk
      (cos (time * (25 / 10)) * (4 / 10) + sin (time * 4) * (2 / 10))
      (sin (time * 3) * (6 / 10) + sin (time * (55 / 10)) * (3 / 10))
  else if String.eqb patternId "kneadLeft" then
    Vec2.mk (cos (- time * 3) * (5 / 10)) (sin (- time * 3) * (5 / 10))
  else if String.eqb patternId "kneadRight" then
    Vec2.mk (cos (time * 3) * (5 / 10)) (sin (time * 3) * (5 / 10))
  else Vec2.mk 0 0.

(** The callback of the timer of [startAutoSway] at [time] seconds
    after its start: what the sensor's callback is called with.  An
    index without a pattern would make [pattern.id] throw before the
    callback is called; [setPattern] never stores one. *)
Definition autoSway (s : t R) (time : R) : list (MotionData.t R) :=
  if (negb (isRunning s) || negb (autoEnabled s))%bool then []
  else
    match nth_error autoPatterns (currentPatternIndex s) with
    | Some patternId =>
        let force := calculatePatternForce patternId time in
        [MotionData.auto
           (Vec2.mk (Vec2.x force * autoStrength s)
              (Vec2.y force * autoStrength s))
           patternId]
    | None => []
    end.

End Patterns.

End MotionSensor.

(** ** The application ([App]): regions, animation and motion events *)

Module App.

(** The fields of the [App] that the physics and the region lists
    depend on: the engine, [renderer.regions], [renderer.image] (the
    width and the height of the image, [None] for [null]),
    [renderer.imageRect] and [isAnimating].  Drawing
    ([renderer.render]) and the changes of the page read these fields
    and write none of them. *)
Record t (num : Type) : Type := mk {
  physics : PhysicsEngine.t num;
  renderer_regions : list (Rect.t num);
  image : option (num * num);
  imageRect : Rect.t num;
  isAnimating : bool
}.

Section Methods.

Context {num : Type} {JSN : JSNumber num} {JST : JSTrig num}
  {JSR : JSRound num}.

Local Open Scope js_scope.

Implicit Types (a : t num).

(** The box of a region of the engine. *)
Definition rect_of (region : Region.t num) : Rect.t num :=
  Rect.mk (Region.x region) (Region.y region)
    (Region.width region) (Region.height region).

(** [{ x: 0, y: 0, width: 0, height: 0 }], the [imageRect] of a renderer
    without image. *)
Definition no_imageRect : Rect.t num :=
  Rect.mk (int 0) (int 0) (int 0) (int 0).

(** [onRegionSelected(region)], with the draws of [physics.addRegion]. *)
Definition onRegionSelected a (region : Rect.t num) (u1 u2 : num)
    (coin : bool) : t num :=
  mk (addRegion (physics a) region u1 u2 coin)
     (Renderer.addRegion (renderer_regions a) region)
     (image a) (imageRect a) (isAnimating a).

(** [deleteRegionAt(index)] *)
Definition deleteRegionAt a (index : Z) : t num :=
  mk (removeRegion (physics a) index)
     (Renderer.removeRegion (renderer_regions a) index)
     (image a) (imageRect a) (isAnimating a).

(** The regions of the renderer, each with the draws [physics.setRegions]
    makes for it: [draws i] for the region at index [i], counting from
    [i]. *)
Fixpoint with_draws (regions : list (Rect.t num))
    (draws : nat -> num * num * bool) (i : nat)
  : list (Rect.t num * (num * num * bool)) :=
  match regions with
  | [] => []
  | region :: rest => (region, draws i) :: with_draws rest draws (S i)
  end.

(** [handleMotion(data)]; [rect_left] and [rect_top] are those of
    the canvas when the event arrives, [random] the draws of the call
    of the engine. *)
Definition handleMotion a (rect_left rect_top : num)
    (data : MotionData.t num) (random : nat -> num) : t num :=
  if negb (isAnimating a) then a
  else
    let physics' :=
      match data with
      | MotionData.tap impulse => applyImpulse (physics a) impulse random
      | MotionData.pressStart id clientX clientY =>
          let normalizedPos :=
            Renderer.clientToNormalized (imageRect a) rect_left rect_top
              clientX clientY in
          startPress (physics a) id (Vec2.x normalizedPos)
            (Vec2.y normalizedPos)
      | MotionData.pressEnd _ id => endPress (physics a) id random
      | MotionData.pointerMove force clientX clientY =>
          let normalizedPos :=
            Renderer.clientToNormalized (imageRect a) rect_left rect_top
              clientX clientY in
          fst (applyForceAtPosition (physics a) force (Vec2.x normalizedPos)
                 (Vec2.y normalizedPos))
      | MotionData.auto force patternId =>
          fst (update (physics a) force (Some patternId))
      | MotionData.accelerometer force
      | MotionData.mouse force
      | MotionData.touch force =>
          fst (update (physics a) force None)
      end in
    mk physics' (renderer_regions a) (image a) (imageRect a) (isAnimating a).

(** [animate()]: the application after the frame and the array handed
    to [renderer.render], if the frame is drawn. *)
Definition animate a : t num * option (list (Sample.t num)) :=
  if negb (isAnimating a) then (a, None)
  else
    let '(physics', displacements) :=
      update (physics a) (Vec2.mk (int 0) (int 0)) None in
    (mk physics' (renderer_regions a) (image a) (imageRect a)
       (isAnimating a),
     Some displacements).

(** [startAnimation()]: the regions of the renderer handed to the
    engine, then [isAnimating] set and the first frame, by
    [this.animate()]. *)
Definition startAnimation a (draws : nat -> num * num * bool) : t num :=
  fst (animate
         (mk (setRegions (physics a) (with_draws (renderer_regions a) draws 0))
             (renderer_regions a) (image a) (imageRect a) true)).

(** [enterEditMode()] *)
Definition enterEditMode a : t num :=
  mk (reset (physics a)) (renderer_regions a) (image a) (imageRect a) false.

(** [loadPreset(id)] from the preset found to the decoding of its
    image: the animation stopped, the engine reset, both region lists
    cleared. *)
Definition loadPreset_clear a : t num :=
  mk (clearRegions (reset (physics a)))
     (Renderer.clearRegions (renderer_regions a))
     (image a) (imageRect a) false.

(** [reset()]; [renderer.clearImage()] drops the image and its
    rectangle. *)
Definition reset a : t num :=
  mk (clearRegions (reset (physics a)))
     (Renderer.clearRegions (renderer_regions a))
     None no_imageRect false.

(** [renderer.resize()]; [canvas_width] and [canvas_height] are
    [canvas.width] and [canvas.height] once it has set them,
    [devicePixelRatio] is that of the window. *)
Definition resize a (canvas_width canvas_height devicePixelRatio : num)
  : t num :=
  match image a with
  | Some (image_width, image_height) =>
      mk (physics a) (renderer_regions a) (image a)
         (Renderer.calculateImageRect canvas_width canvas_height
            devicePixelRatio image_width image_height)
         (isAnimating a)
  | None => a
  end.

(** The end of [loadImage(file)] and of [loadImageFromBase64(data)],
    once the image [img] is decoded: [renderer.loadImageElement(img)],
    [physics.setImageAspectRatio(img.width, img.height)] and
    [renderer.resize()], which replaces the rectangle that
    [loadImageElement] computes for the canvas as it was. *)
Definition loadImage a (img_width img_height : num)
    (canvas_width canvas_height devicePixelRatio : num) : t num :=
  resize
    (mk (setImageAspectRatio (physics a) img_width img_height)
        (renderer_regions a) (Some (img_width, img_height))
        (imageRect a) (isAnimating a))
    canvas_width canvas_height devicePixelRatio.

(** [loadPreset(id)] from the image decoded on: the image loaded, each
    region of [preset.regions] added to the renderer and to the engine
    (with the draws of [physics.addRegion]), then
    [preset.physicsParams] and [preset.gridDensity] restored when the
    preset has them. *)
Definition loadPreset_restore a (img_width img_height : num)
    (canvas_width canvas_height devicePixelRatio : num)
    (regions : list (Rect.t num * (num * num * bool)))
    (physicsParams : option (PhysicsParams.t num * (nat -> num)))
    (gridDensity : option Z) : t num :=
  let a :=
    loadImage a img_width img_height canvas_width canvas_height
      devicePixelRatio in
  let a :=
    fold_left
      (fun a '(region, (u1, u2, coin)) =>
         mk (addRegion (physics a) region u1 u2 coin)
            (Renderer.addRegion (renderer_regions a) region)
            (image a) (imageRect a) (isAnimating a))
      regions a in
  let physics1 :=
    match physicsParams with
    | Some (params, random) => setPhysicsParams (physics a) params random
    | None => physics a
    end in
  let physics2 :=
    match gridDensity with
    | Some density => setGridDensity physics1 density
    | None => physics1
    end in
  mk physics2 (renderer_regions a) (image a) (imageRect a) (isAnimating a).

(** [resetPhysicsSettings()] *)
Definition resetPhysicsSettings a (random : nat -> num) : t num :=
  mk (resetToDefaults (setGridDensity (physics a) 20) random)
     (renderer_regions a) (image a) (imageRect a) (isAnimating a).

(** What happens to an application: a call of one of its methods by a
    control or by the renderer, one of the two parts of [loadPreset], a
    motion event, a frame, a resize of the window, or a change of a
    slider of the settings.  The arguments are what the surroundings
    choose: the draws of [Math.random()], the sizes of the canvas and
    of the image, the contents of the preset. *)
Inductive Event : Type :=
  | RegionSelected (region : Rect.t num) (u1 u2 : num) (coin : bool)
  | DeleteRegionAt (index : Z)
  | StartAnimation (draws : nat -> num * num * bool)
  | EnterEditMode
  | Reset
  | Motion (rect_left rect_top : num) (data : MotionData.t num)
      (random : nat -> num)
  | Animate
  | Resize (canvas_width canvas_height devicePixelRatio : num)
  | LoadImage (img_width img_height : num)
      (canvas_width canvas_height devicePixelRatio : num)
  | LoadPresetClear
  | LoadPresetRestore (img_width img_height : num)
      (canvas_width canvas_height devicePixelRatio : num)
      (regions : list (Rect.t num * (num * num * bool)))
      (physicsParams : option (PhysicsParams.t num * (nat -> num)))
      (gridDensity : option Z)
  | GridDensityChanged (value : Z)
  | PhysicsParamsChanged (params : PhysicsParams.t num) (random : nat -> num)
  | ResetPhysicsSettings (random : nat -> num).

Definition handle a (ev : Event) : t num :=
  match ev with
  | RegionSelected region u1 u2 coin => onRegionSelected a region u1 u2 coin
  | DeleteRegionAt index => deleteRegionAt a index
  | StartAnimation draws => startAnimation a draws
  | EnterEditMode => enterEditMode a
  | Reset => reset a
  | Motion rect_left rect_top data random =>
      handleMotion a rect_left rect_top data random
  | Animate => fst (animate a)
  | Resize canvas_width canvas_height devicePixelRatio =>
      resize a canvas_width canvas_height devicePixelRatio
  | LoadImage img_width img_height canvas_width canvas_height
      devicePixelRatio =>
      loadImage a img_width img_height canvas_width canvas_height
        devicePixelRatio
  | LoadPresetClear => loadPreset_clear a
  | LoadPresetRestore img_width img_height canvas_width canvas_height
      devicePixelRatio regions physicsParams gridDensity =>
      loadPreset_restore a img_width img_height canvas_width canvas_height
        devicePixelRatio regions physicsParams gridDensity
  | GridDensityChanged value =>
      mk (setGridDensity (physics a) value)
         (renderer_regions a) (image a) (imageRect a) (isAnimating a)
  | PhysicsParamsChanged params random =>
      mk (setPhysicsParams (physics a) params random)
         (renderer_regions a) (image a) (imageRect a) (isAnimating a)
  | ResetPhysicsSettings random => resetPhysicsSettings a random
  end.

(** [new App()]: a new engine, and a renderer without regions and
    without image. *)
Definition new_App : t num :=
  mk new_PhysicsEngine [] None no_imageRect false.

End Methods.

End App.

(** ** Events of the sensor, for the statements below *)

Section SensorEvents.

Context {num : Type} {JSN : JSNumber num} {JST : JSTrig num}.

(** [data.force], where the object has the field. *)
Definition force_of (data : MotionData.t num) : option (Vec2.t num) :=
  match data with
  | MotionData.auto force _
  | MotionData.accelerometer force
  | MotionData.pointerMove force _ _
  | MotionData.mouse force
  | MotionData.touch force => Some force
  | _ => None
  end.

(** [data.type === 'tap'] *)
Definition is_tap (data : MotionData.t num) : bool :=
  match data with
  | MotionData.tap _ => true
  | _ => false
  end.

(** The sums of the [x] and of the [y] of the forces of a list of
    events. *)
Definition total_force (events : list (MotionData.t num)) : num * num :=
  fold_right
    (fun data '(x, y) =>
       match force_of data with
       | Some force => (add (Vec2.x force) x, add (Vec2.y force) y)
       | None => (x, y)
       end)
    (int 0, int 0) events.

(** The callback of the application called on each event of a list,
    each call with the draws [random]. *)
Definition handleMotions (a : App.t num) (rect_left rect_top : num)
    (events : list (MotionData.t num)) (random : nat -> num) : App.t num :=
  fold_left
    (fun a' data => App.handleMotion a' rect_left rect_top data random)
    events a.

End SensorEvents.

(** ** More concrete inputs, in exact arithmetic *)

Module OnApp.

Local Open Scope R_scope.

(** The draws of [Math.random()] all 0.5. *)
Definition half : nat -> R := fun _ => 5 / 10.

(** One region and a press that has just begun at its centre. *)
Definition pressed : PhysicsEngine.t R :=
  startPress OnR.one_region 0 (5 / 10) (5 / 10).

(** An image drawn 100 pixels wide and high at the corner of the
    canvas. *)
Definition image : Rect.t R := Rect.mk 0 0 100 100.

(** An application animating one region on that image. *)
Definition app : App.t R :=
  App.mk OnR.one_region [Rect.mk (3 / 10) (3 / 10) (4 / 10) (4 / 10)]
    (Some (100, 100)) image true.

(** A sensor that has been started. *)
Definition sensor : MotionSensor.t R :=
  MotionSensor.start (MotionSensor.new_MotionSensor 0).

(** That sensor with the automatic sway switched on. *)
Definition swaying : MotionSensor.t R :=
  MotionSensor.setAutoEnabled sensor true.

End OnApp.

Unset Implicit Arguments.

(** ** Facts shared by the proofs *)

Section Shared.

Context {num : Type} {JSN : JSNumber num}.

Local Open Scope js_scope.

Lemma mod2_odd (i : nat) : (i mod 2 =? 1)%nat = Nat.odd i.
Proof.
  rewrite <- Nat.bit0_mod, Nat.bit0_odd.
  destruct (Nat.odd i); reflexivity.
Qed.

Lemma update_region_spec (e : PhysicsEngine.t num) h i region :
  update_region e h i region
  = region_step_spec e region
      (applied_x_spec (delayed_entry h region) i)
      (ForceEntry.y (delayed_entry h region)).
Proof.
  unfold update_region, region_step_spec, axis_step_spec, applied_x_spec,
    delayed_entry, is_knead.
  rewrite mod2_odd.
  set (entry := nth _ h _).
  destruct (ForceEntry.patternId entry) as [id|]; cbn [andb];
    [destruct (String.eqb id "kneadLeft" || String.eqb id "kneadRight")%bool;
     cbn [andb] |];
    repeat match goal with
      | |- context [if ?c then _ else _] => destruct c
      end; reflexivity.
Qed.

Lemma applyForceAtPosition_region_spec (e : PhysicsEngine.t num)
    forceX forceY posX posY region :
  applyForceAtPosition_region e forceX forceY posX posY region
  = if calculateRegionInfluence posX posY region >? lit 1 100 then
      region_step_spec e region
        (forceX * calculateRegionInfluence posX posY region)
        (forceY * calculateRegionInfluence posX posY region)
    else region.
Proof.
  unfold applyForceAtPosition_region, region_step_spec, axis_step_spec.
  repeat match goal with
    | |- context [if ?c then _ else _] => destruct c
    end; reflexivity.
Qed.

Lemma update_regions_nth_error (e : PhysicsEngine.t num) h rs :
  forall i k,
    nth_error (update_regions e h i rs) k
    = option_map (update_region e h (i + k)) (nth_error rs k).
Proof.
  induction rs as [|r rs IH]; intros i k.
  - destruct k; reflexivity.
  - destruct k as [|k]; cbn.
    + now rewrite Nat.add_0_r.
    + rewrite IH. now rewrite Nat.add_succ_comm.
Qed.

Lemma run_maxDisplacement (e : PhysicsEngine.t num) steps :
  PhysicsEngine.maxDisplacement (run e steps) = PhysicsEngine.maxDisplacement e.
Proof.
  revert e; induction steps as [|[force pid] steps IH]; intros e; cbn;
    [reflexivity|].
  unfold run in IH. now rewrite IH.
Qed.

End Shared.

(** *** The press-point map *)

Section MapFacts.

Context {V : Type}.

Implicit Types (m : JSMap.t V) (k : Z) (v : V).

Lemma get_set_same m k v : JSMap.get k (JSMap.set k v m) = Some v.
Proof.
  induction m as [|[k' v'] m IH]; cbn.
  - now rewrite Z.eqb_refl.
  - destruct (Z.eqb k k') eqn:E; cbn; rewrite E; [reflexivity | exact IH].
Qed.

Lemma get_set_other m k k' v :
  k' <> k -> JSMap.get k' (JSMap.set k v m) = JSMap.get k' m.
Proof.
  intros Hne. induction m as [|[k0 v0] m IH]; cbn.
  - apply Z.eqb_neq in Hne. now rewrite Hne.
  - destruct (Z.eqb k k0) eqn:E; cbn.
    + apply Z.eqb_eq in E; subst k0.
      apply Z.eqb_neq in Hne. now rewrite Hne.
    + now rewrite IH.
Qed.

Lemma keys_set_present m k v old :
  JSMap.get k m = Some old -> JSMap.keys (JSMap.set k v m) = JSMap.keys m.
Proof.
  induction m as [|[k0 v0] m IH]; cbn; [discriminate|].
  destruct (Z.eqb k k0) eqn:E; cbn; intros H.
  - reflexivity.
  - f_equal. exact (IH H).
Qed.

Lemma get_delete_same m k : JSMap.get k (JSMap.delete k m) = None.
Proof.
  induction m as [|[k0 v0] m IH]; cbn; [reflexivity|].
  destruct (Z.eqb k k0) eqn:E; cbn; [exact IH | now rewrite E].
Qed.

Lemma get_delete_other m k k' :
  k' <> k -> JSMap.get k' (JSMap.delete k m) = JSMap.get k' m.
Proof.
  intros Hne. induction m as [|[k0 v0] m IH]; cbn; [reflexivity|].
  destruct (Z.eqb k k0) eqn:E; cbn.
  - apply Z.eqb_eq in E; subst k0.
    apply Z.eqb_neq in Hne. now rewrite Hne.
  - now rewrite IH.
Qed.

Lemma get_delete_all m (ks : list Z) k :
  JSMap.get k (fold_left (fun m' id => JSMap.delete id m') ks m)
  = if existsb (Z.eqb k) ks then None else JSMap.get k m.
Proof.
  revert m; induction ks as [|k0 ks IH]; intros m; cbn; [reflexivity|].
  rewrite IH. destruct (Z.eqb k k0) eqn:E; cbn.
  - apply Z.eqb_eq in E; subst k0.
    rewrite get_delete_same. now destruct (existsb _ ks).
  - apply Z.eqb_neq in E. now rewrite get_delete_other.
Qed.

End MapFacts.

(** *** What [update] does to the regions and the history *)

Section UpdateFacts.

Context {num : Type} {JSN : JSNumber num}.

Local Open Scope js_scope.

Implicit Types (e : PhysicsEngine.t num).

Lemma update_forceHistory e force pid :
  PhysicsEngine.forceHistory (fst (update e force pid))
  = pushForce e (new_entry e force pid).
Proof. reflexivity. Qed.

Lemma pushForce_firstn e entry :
  (List.length (PhysicsEngine.forceHistory e) <= PhysicsEngine.historyLength e)%nat ->
  pushForce e entry
  = firstn (PhysicsEngine.historyLength e)
      (entry :: PhysicsEngine.forceHistory e).
Proof.
  intros Hlen. unfold pushForce.
  set (l := entry :: PhysicsEngine.forceHistory e).
  assert (Hl : List.length l = S (List.length (PhysicsEngine.forceHistory e)))
    by reflexivity.
  destruct (Nat.ltb_spec (PhysicsEngine.historyLength e) (List.length l)) as [Hlt|Hge].
  - rewrite removelast_firstn_len. f_equal. lia.
  - symmetry. now apply firstn_all2.
Qed.

(** The region at index [i] after [update]: the step of the region
    that was there, under the force of the entry it reads from the new
    history. *)
Lemma update_region_at e force pid i :
  let h := PhysicsEngine.forceHistory (fst (update e force pid)) in
  nth_error (PhysicsEngine.regions (fst (update e force pid))) i
  = option_map
      (fun region =>
         region_step_spec e region
           (applied_x_spec (delayed_entry h region) i)
           (ForceEntry.y (delayed_entry h region)))
      (nth_error (PhysicsEngine.regions e) i).
Proof.
  cbn zeta. unfold update. cbn [fst PhysicsEngine.regions PhysicsEngine.with_regions
    PhysicsEngine.forceHistory PhysicsEngine.with_forceHistory].
  rewrite update_regions_nth_error. cbn [Nat.add].
  change (PhysicsEngine.regions (updatePressState e))
    with (PhysicsEngine.regions e).
  destruct (nth_error (PhysicsEngine.regions e) i) as [region|]; cbn [option_map];
    [|reflexivity].
  rewrite update_region_spec. reflexivity.
Qed.

(** A property of the position that every axis step establishes holds
    of both components of every region after every call. *)
Lemma update_position_invariant (P : num -> num -> Prop) e steps force pid :
  (forall e' k c p v f,
     PhysicsEngine.maxDisplacement e' = PhysicsEngine.maxDisplacement e ->
     P (PhysicsEngine.maxDisplacement e) (fst (axis_step_spec e' k c p v f))) ->
  Forall
    (fun region =>
       P (PhysicsEngine.maxDisplacement e) (Vec2.x (Region.position region))
       /\ P (PhysicsEngine.maxDisplacement e) (Vec2.y (Region.position region)))
    (PhysicsEngine.regions (fst (update (run e steps) force pid))).
Proof.
  intros Haxis.
  pose proof (run_maxDisplacement e steps) as Hrun.
  set (e1 := run e steps) in *.
  apply Forall_forall. intros region Hin.
  apply In_nth_error in Hin. destruct Hin as [i Hi].
  pose proof (update_region_at e1 force pid i) as Hat.
  cbn zeta in Hat. rewrite Hi in Hat.
  destruct (nth_error (PhysicsEngine.regions e1) i) as [r0|];
    cbn [option_map] in Hat; [|discriminate].
  injection Hat as ->.
  unfold region_step_spec.
  set (fx := applied_x_spec _ _). set (fy := ForceEntry.y _).
  pose proof (Haxis e1 (Region.stiffness r0) (Region.damping r0)
                (Vec2.x (Region.position r0)) (Vec2.x (Region.velocity r0))
                fx Hrun) as Hx.
  pose proof (Haxis e1 (Region.stiffness r0) (Region.damping r0)
                (Vec2.y (Region.position r0)) (Vec2.y (Region.velocity r0))
                fy Hrun) as Hy.
  destruct (axis_step_spec _ _ _ _ _ fx), (axis_step_spec _ _ _ _ _ fy).
  cbn in *. split; assumption.
Qed.

Lemma is_knead_iff (pid : option string) :
  is_knead pid = true
  <-> pid = Some "kneadLeft"%string \/ pid = Some "kneadRight"%string.
Proof.
  unfold is_knead. destruct pid as [id|].
  - rewrite orb_true_iff, !String.eqb_eq. split.
    + intros [->| ->]; [left | right]; reflexivity.
    + intros [H|H]; inversion H; [left | right]; reflexivity.
  - split; [discriminate | intros [H|H]; discriminate].
Qed.

End UpdateFacts.

(** ** The force history and the delayed force *)

Section History.

Context {num : Type} {JSN : JSNumber num}.

Local Open Scope js_scope.

Implicit Types (e : PhysicsEngine.t num).

(** C3.  The history is created empty with capacity [historyLength = 8].
    [addRegion] gives the new region [delayFrames = 3 * index + coin],
    [index] being the number of regions before and [coin] the random 0
    or 1, and a step leaves [delayFrames] as it is.  On an engine whose
    history holds at most [historyLength >= 1] entries, [update] puts
    the sensitivity-scaled force with its pattern id at index 0, keeps
    the newest [historyLength] entries (so one is dropped from the far
    end exactly when there would be more), and the region at index [i]
    is stepped under the entry at index
    [min(delayFrames, length - 1)] of that new history, [length] being
    the number of entries it then holds. *)
Theorem force_history_fifo :
  (PhysicsEngine.historyLength (@new_PhysicsEngine num JSN) = 8%nat
   /\ PhysicsEngine.forceHistory (@new_PhysicsEngine num JSN) = [])
  /\ (forall e rect u1 u2 coin,
        exists region,
          PhysicsEngine.regions (addRegion e rect u1 u2 coin)
          = PhysicsEngine.regions e ++ [region]
          /\ Region.delayFrames region
             = (3 * List.length (PhysicsEngine.regions e)
                + (if coin then 1 else 0))%nat)
  /\ (forall e region fx fy,
        Region.delayFrames (region_step_spec e region fx fy)
        = Region.delayFrames region)
  /\ (forall e force patternId,
        (List.length (PhysicsEngine.forceHistory e)
         <= PhysicsEngine.historyLength e)%nat ->
        (1 <= PhysicsEngine.historyLength e)%nat ->
        let e' := fst (update e force patternId) in
        let h := PhysicsEngine.forceHistory e' in
        h = firstn (PhysicsEngine.historyLength e)
              (new_entry e force patternId :: PhysicsEngine.forceHistory e)
        /\ nth_error h 0 = Some (new_entry e force patternId)
        /\ List.length h
           = Nat.min (S (List.length (PhysicsEngine.forceHistory e)))
               (PhysicsEngine.historyLength e)
        /\ PhysicsEngine.historyLength e' = PhysicsEngine.historyLength e
        /\ (forall i region,
              nth_error (PhysicsEngine.regions e) i = Some region ->
              exists entry,
                nth_error h
                  (Nat.min (Region.delayFrames region) (List.length h - 1))
                = Some entry
                /\ nth_error (PhysicsEngine.regions e') i
                   = Some (region_step_spec e region
                             (applied_x_spec entry i) (ForceEntry.y entry)))).
Proof.
  split; [split; reflexivity|].
  split.
  { intros e rect u1 u2 coin. eexists. split; [reflexivity|].
    cbn. lia. }
  split.
  { intros e region fx fy. unfold region_step_spec.
    destruct (axis_step_spec _ _ _ _ _ fx), (axis_step_spec _ _ _ _ _ fy).
    reflexivity. }
  intros e force patternId Hlen Hcap e' h.
  assert (Hh : h = firstn (PhysicsEngine.historyLength e)
                     (new_entry e force patternId
                      :: PhysicsEngine.forceHistory e)).
  { unfold h, e'. rewrite update_forceHistory. now apply pushForce_firstn. }
  assert (Hl : List.length h
               = Nat.min (S (List.length (PhysicsEngine.forceHistory e)))
                   (PhysicsEngine.historyLength e)).
  { rewrite Hh, length_firstn. cbn [List.length]. lia. }
  split; [exact Hh|].
  split.
  { rewrite Hh. destruct (PhysicsEngine.historyLength e); [lia | reflexivity]. }
  split; [exact Hl|].
  split; [reflexivity|].
  intros i region Hi.
  pose proof (update_region_at e force patternId i) as Hat.
  cbn zeta in Hat. fold e' in Hat. fold h in Hat.
  rewrite Hi in Hat. cbn [option_map] in Hat.
  assert (Hlt : (Nat.min (Region.delayFrames region) (List.length h - 1)
                 < List.length h)%nat) by lia.
  destruct (nth_error h (Nat.min (Region.delayFrames region)
                           (List.length h - 1))) as [entry|] eqn:E.
  - exists entry. split; [reflexivity|].
    rewrite Hat. unfold delayed_entry.
    now rewrite (nth_error_nth _ _ _ E).
  - apply nth_error_None in E. lia.
Qed.

(** C5.  In [update], the region at index [i] reads one history entry
    (see [delayed_entry]).  When that entry carries the pattern id
    ["kneadLeft"] or ["kneadRight"], the region is stepped under the
    negated X component if [i] is odd and under the X component as it
    is if [i] is even; for any other pattern id, or none, it is stepped
    under the X component as it is.  The Y component is never changed. *)
Theorem knead_mirrors_odd_regions :
  forall e force patternId i region,
    nth_error (PhysicsEngine.regions e) i = Some region ->
    let e' := fst (update e force patternId) in
    let entry := delayed_entry (PhysicsEngine.forceHistory e') region in
    let knead :=
      ForceEntry.patternId entry = Some "kneadLeft"%string
      \/ ForceEntry.patternId entry = Some "kneadRight"%string in
    (knead -> Nat.odd i = true ->
     nth_error (PhysicsEngine.regions e') i
     = Some (region_step_spec e region
               (- ForceEntry.x entry) (ForceEntry.y entry)))
    /\ (knead -> Nat.even i = true ->
        nth_error (PhysicsEngine.regions e') i
        = Some (region_step_spec e region
                  (ForceEntry.x entry) (ForceEntry.y entry)))
    /\ (~ knead ->
        nth_error (PhysicsEngine.regions e') i
        = Some (region_step_spec e region
                  (ForceEntry.x entry) (ForceEntry.y entry))).
Proof.
  intros e force patternId i region Hi e' entry knead.
  pose proof (update_region_at e force patternId i) as Hat.
  cbn zeta in Hat. fold e' in Hat. rewrite Hi in Hat.
  cbn [option_map] in Hat. fold entry in Hat.
  unfold applied_x_spec in Hat.
  repeat split.
  - intros Hk Hodd. apply is_knead_iff in Hk.
    now rewrite Hat, Hk, Hodd.
  - intros Hk Heven. rewrite <- Nat.negb_odd in Heven.
    apply negb_true_iff in Heven.
    now rewrite Hat, Heven, andb_false_r.
  - intros Hk. rewrite Hat.
    destruct (is_knead (ForceEntry.patternId entry)) eqn:E.
    + apply is_knead_iff in E. contradiction.
    + reflexivity.
Qed.

End History.

(** ** Press points and pointer forces *)

Section Pointer.

Context {num : Type} {JSN : JSNumber num}.

Local Open Scope js_scope.

Implicit Types (e : PhysicsEngine.t num).

(** C10.  [startPress(id, x, y)] on an id that is in the map, whatever
    the state of its point (pressing or releasing, at any depth): the
    map then holds for [id] a fresh point at [(x, y)] with depth 0 and
    target depth 1; the old point, its depth included, is gone; the map
    has the same ids in the same order, and every other id keeps its
    point. *)
Theorem startPress_replaces_existing :
  forall e id x y (old : PressPoint.t num),
    JSMap.get id (PhysicsEngine.pressPoints e) = Some old ->
    let e' := startPress e id x y in
    JSMap.get id (PhysicsEngine.pressPoints e')
    = Some (PressPoint.mk x y (int 0) (int 1))
    /\ JSMap.keys (PhysicsEngine.pressPoints e')
       = JSMap.keys (PhysicsEngine.pressPoints e)
    /\ (forall id', id' <> id ->
          JSMap.get id' (PhysicsEngine.pressPoints e')
          = JSMap.get id' (PhysicsEngine.pressPoints e)).
Proof.
  intros e id x y old Hold e'. unfold e', startPress. cbn.
  split; [apply get_set_same|].
  split; [eapply keys_set_present; eassumption|].
  intros id' Hne. now apply get_set_other.
Qed.

(** C4, amended.  [applyForceAtPosition(force, posX, posY)] leaves the
    force history alone and treats each region by its influence at
    [(posX, posY)]: a region whose influence is above 0.01 is stepped
    under the sensitivity-scaled force times that influence, by the
    sequence [update] steps a region by; any other region is left
    exactly as it was. *)
Theorem applyForceAtPosition_steps_influenced_regions :
  forall e force posX posY,
    let e' := fst (applyForceAtPosition e force posX posY) in
    let forceX := or0 (Vec2.x force) * PhysicsEngine.sensitivity e in
    let forceY := or0 (Vec2.y force) * PhysicsEngine.sensitivity e in
    PhysicsEngine.forceHistory e' = PhysicsEngine.forceHistory e
    /\ PhysicsEngine.regions e'
       = List.map
           (fun region =>
              let influence := calculateRegionInfluence posX posY region in
              if influence >? lit 1 100 then
                region_step_spec e region
                  (forceX * influence) (forceY * influence)
              else region)
           (PhysicsEngine.regions e)
    /\ (forall h i region,
          update_region e h i region
          = region_step_spec e region
              (applied_x_spec (delayed_entry h region) i)
              (ForceEntry.y (delayed_entry h region))).
Proof.
  intros e force posX posY e' forceX forceY.
  split; [reflexivity|].
  split; [|intros; apply update_region_spec].
  unfold e', applyForceAtPosition. cbn [fst PhysicsEngine.regions PhysicsEngine.with_regions].
  change (PhysicsEngine.regions (updatePressState e))
    with (PhysicsEngine.regions e).
  apply map_ext. intros region.
  rewrite applyForceAtPosition_region_spec. reflexivity.
Qed.

End Pointer.

(** ** The position clamp, in exact arithmetic *)

Section Reals.

Local Open Scope R_scope.

Implicit Types (e : PhysicsEngine.t R) (region : Region.t R).

Lemma Rltb_true (a b : R) : a < b -> Rltb a b = true.
Proof. intros H. unfold Rltb. destruct (Rlt_dec a b); [reflexivity | contradiction]. Qed.

Lemma Rltb_false (a b : R) : b <= a -> Rltb a b = false.
Proof. intros H. unfold Rltb. destruct (Rlt_dec a b); [lra | reflexivity]. Qed.

Lemma Rclamp_bounds (v m : R) : 0 <= m -> - m <= clamp v (- m) m <= m.
Proof.
  intros Hm. unfold clamp. cbn.
  unfold Rmax, Rmin.
  repeat match goal with
    | |- context [Rle_dec ?a ?b] => destruct (Rle_dec a b)
    end; lra.
Qed.

(** The position an axis step yields is within the bound. *)
Lemma axis_step_position_bounded e k c p v f :
  0 <= PhysicsEngine.maxDisplacement e ->
  Rabs (fst (axis_step_spec e k c p v f)) <= PhysicsEngine.maxDisplacement e.
Proof.
  intros Hm. unfold axis_step_spec.
  match goal with |- context [if ?c then _ else _] => destruct c end;
    cbn [fst].
  - cbn. replace (0 / 1) with 0 by lra. rewrite Rabs_R0. exact Hm.
  - apply Rabs_le. now apply Rclamp_bounds.
Qed.

End Reals.

(** ** The influence field *)

Section InfluenceFacts.

Local Open Scope R_scope.

Lemma Rmin_Rmax_comm (lo hi v : R) :
  lo <= hi -> Rmin hi (Rmax lo v) = Rmax lo (Rmin hi v).
Proof.
  intros H.
  destruct (Rle_dec lo v) as [Hlo|Hlo], (Rle_dec hi v) as [Hhi|Hhi].
  - rewrite (Rmax_right lo v), (Rmin_left hi v), Rmax_right by lra. reflexivity.
  - rewrite (Rmax_right lo v), (Rmin_right hi v), Rmax_right by lra. reflexivity.
  - lra.
  - rewrite (Rmax_left lo v), (Rmin_right hi v), Rmin_right, Rmax_left by lra.
    reflexivity.
Qed.

Lemma calculateRegionInfluence_spec (px py : R) (region : Region.t R) :
  calculateRegionInfluence px py region = influence_spec px py region.
Proof.
  unfold calculateRegionInfluence, influence_spec, falloff_spec,
    vertical_bias_spec, clamp_spec, ellipse_distance_spec.
  cbn -[pow].
  set (d := sqrt _). set (d' := sqrt _).
  assert (Hd : d = d').
  { unfold d, d'. f_equal. replace (2 / 1) with 2 by lra. ring. }
  rewrite <- Hd. clear Hd d'.
  replace (15 / 10 - 6 / 10) with (9 / 10) by lra.
  replace (Rmax (5 / 10) (Rmin (15 / 10) (1 / 1 + (Region.y region + Region.height region / (2 / 1) - py) * (5 / 10))))
    with (Rmin (15 / 10) (Rmax (5 / 10) (1 + (Region.y region + Region.height region / 2 - py) * (5 / 10)))).
  2:{ replace (2 / 1) with 2 by lra. replace (1 / 1) with 1 by lra.
      apply Rmin_Rmax_comm. lra. }
  f_equal.
  unfold Rltb. destruct (Rlt_dec d (6 / 10)).
  - f_equal. ring.
  - replace (0 / 1) with 0 by lra. replace (1 / 1) with 1 by lra.
    f_equal; [f_equal; ring|]. f_equal. ring.
Qed.

End InfluenceFacts.

Section InfluenceTheorems.

Local Open Scope R_scope.

Lemma falloff_core (d : R) :
  d < 6 / 10 -> falloff_spec d = exp (- (5 / 10) * d ^ 2).
Proof.
  intros H. unfold falloff_spec.
  destruct (Rlt_dec d (6 / 10)); [reflexivity | contradiction].
Qed.

Lemma falloff_fade (d : R) :
  6 / 10 <= d -> d <= 15 / 10 ->
  falloff_spec d
  = exp (- (5 / 10) * (6 / 10) ^ 2) * (1 - ((d - 6 / 10) / (9 / 10)) ^ 3).
Proof.
  intros Hlo Hhi. unfold falloff_spec.
  destruct (Rlt_dec d (6 / 10)); [lra|].
  cbn zeta. rewrite Rmax_right; [reflexivity|].
  assert (Ht0 : 0 <= (d - 6 / 10) / (9 / 10)) by lra.
  assert (Ht1 : (d - 6 / 10) / (9 / 10) <= 1)
    by lra.
  set (t := (d - 6 / 10) / (9 / 10)) in *.
  assert (t ^ 3 <= 1) by (simpl; nra).
  lra.
Qed.

Lemma falloff_far (d : R) : 15 / 10 <= d -> falloff_spec d = 0.
Proof.
  intros H. unfold falloff_spec.
  destruct (Rlt_dec d (6 / 10)); [lra|].
  cbn zeta.
  assert (Ht1 : 1 <= (d - 6 / 10) / (9 / 10))
    by lra.
  set (t := (d - 6 / 10) / (9 / 10)) in *.
  assert (1 <= t ^ 3) by (simpl; nra).
  rewrite Rmax_left by lra. ring.
Qed.

Lemma falloff_range (d : R) : 0 <= d -> 0 <= falloff_spec d <= 1.
Proof.
  intros Hd.
  assert (Hexp : forall u, u <= 0 -> 0 < exp u <= 1).
  { intros u Hu. split; [apply exp_pos|].
    destruct (Req_dec u 0) as [->|Hne]; [rewrite exp_0; lra|].
    left. rewrite <- exp_0. apply exp_increasing. lra. }
  unfold falloff_spec. destruct (Rlt_dec d (6 / 10)).
  - destruct (Hexp (- (5 / 10) * d ^ 2)) as [H0 H1]; [simpl; nra | lra].
  - cbn zeta.
    destruct (Hexp (- (5 / 10) * (6 / 10) ^ 2)) as [H0 H1]; [lra|].
    assert (Ht0 : 0 <= (d - 6 / 10) / (9 / 10)) by lra.
    set (t := (d - 6 / 10) / (9 / 10)) in *.
    assert (0 <= t ^ 3) by (simpl; nra).
    assert (0 <= Rmax 0 (1 - t ^ 3) <= 1).
    { split; [apply Rmax_l | apply Rmax_lub; lra]. }
    nra.
Qed.

Lemma vertical_bias_range (py : R) (region : Region.t R) :
  5 / 10 <= vertical_bias_spec py region <= 15 / 10.
Proof.
  unfold vertical_bias_spec, clamp_spec. cbn zeta.
  set (b := 1 + _). split.
  - apply Rmin_glb; [lra | apply Rmax_l].
  - apply Rmin_l.
Qed.

(** C2.  In exact arithmetic, for a region of positive width and
    height (so that the radii are not zero and the normalized ellipse
    distance [d] is defined), [calculateRegionInfluence] is the
    two-piece falloff of [d], times the vertical bias
    [clamp(1 + (cy - py) * 0.5, 0.5, 1.5)]: [exp(-0.5 d^2)]
    for [d < 0.6], and [exp(-0.5 0.6^2) max(0, 1 - t^3)] with
    [t = (d - 0.6)/0.9] from [d = 0.6] on.  The falloff is continuous at
    [d = 0.6], and it is 0 from [d = 1.5] on, and so is the influence. *)
Theorem influence_two_piece_falloff :
  (forall px py region,
     0 < Region.width region -> 0 < Region.height region ->
     calculateRegionInfluence px py region
     = falloff_spec (ellipse_distance_spec px py region)
       * vertical_bias_spec py region)
  /\ (forall d, d < 6 / 10 -> falloff_spec d = exp (- (5 / 10) * d ^ 2))
  /\ (forall d, 6 / 10 <= d ->
        falloff_spec d
        = exp (- (5 / 10) * (6 / 10) ^ 2)
          * Rmax 0 (1 - ((d - 6 / 10) / (9 / 10)) ^ 3))
  /\ continuity_pt falloff_spec (6 / 10)
  /\ (forall d, 15 / 10 <= d -> falloff_spec d = 0)
  /\ (forall px py region,
        0 < Region.width region -> 0 < Region.height region ->
        15 / 10 <= ellipse_distance_spec px py region ->
        calculateRegionInfluence px py region = 0).
Proof.
  split; [intros px py region _ _; apply calculateRegionInfluence_spec|].
  split; [exact falloff_core|].
  split.
  { intros d Hd. unfold falloff_spec.
    destruct (Rlt_dec d (6 / 10)); [lra | reflexivity]. }
  split.
  { assert (C1 : continuity_pt (fun d => exp (- (5 / 10) * d ^ 2)) (6 / 10))
      by reg.
    assert (C2 : continuity_pt
                   (fun d => exp (- (5 / 10) * (6 / 10) ^ 2)
                             * (1 - ((d - 6 / 10) / (9 / 10)) ^ 3)) (6 / 10))
      by reg.
    intros eps Heps.
    destruct (C1 eps Heps) as [a1 [Ha1 H1]].
    destruct (C2 eps Heps) as [a2 [Ha2 H2]].
    exists (Rmin (Rmin a1 a2) (5 / 10)). split.
    { apply Rmin_glb_lt; [apply Rmin_glb_lt; assumption | lra]. }
    intros d [HD Hdist].
    assert (Hd1 : dist R_met d (6 / 10) < a1).
    { eapply Rlt_le_trans; [exact Hdist|].
      eapply Rle_trans; [apply Rmin_l | apply Rmin_l]. }
    assert (Hd2 : dist R_met d (6 / 10) < a2).
    { eapply Rlt_le_trans; [exact Hdist|].
      eapply Rle_trans; [apply Rmin_l | apply Rmin_r]. }
    assert (Hd3 : dist R_met d (6 / 10) < 5 / 10).
    { eapply Rlt_le_trans; [exact Hdist | apply Rmin_r]. }
    cbn in Hd3. unfold R_dist in Hd3. apply Rabs_def2 in Hd3.
    rewrite (falloff_fade (6 / 10)) by lra.
    destruct (Rlt_dec d (6 / 10)) as [Hlt|Hge].
    - rewrite falloff_core by assumption.
      specialize (H1 d (conj HD Hd1)). cbn beta in H1.
      replace (exp (- (5 / 10) * (6 / 10) ^ 2)
               * (1 - ((6 / 10 - 6 / 10) / (9 / 10)) ^ 3))
        with (exp (- (5 / 10) * (6 / 10) ^ 2)); [exact H1|].
      replace ((6 / 10 - 6 / 10) / (9 / 10)) with 0 by lra.
      simpl. ring.
    - rewrite falloff_fade by lra.
      exact (H2 d (conj HD Hd2)). }
  split; [exact falloff_far|].
  intros px py region _ _ Hd.
  rewrite calculateRegionInfluence_spec. unfold influence_spec.
  rewrite falloff_far by assumption. ring.
Qed.

(** C6, amended.  In exact arithmetic, for a region of positive width
    and height the influence of any point lies in [[0, 1.5]]: the falloff
    lies in [[0, 1]] and the vertical bias in [[0.5, 1.5]]. *)
Theorem influence_range :
  forall px py region,
    0 < Region.width region -> 0 < Region.height region ->
    0 <= calculateRegionInfluence px py region <= 15 / 10.
Proof.
  intros px py region _ _.
  rewrite calculateRegionInfluence_spec. unfold influence_spec.
  pose proof (falloff_range (ellipse_distance_spec px py region)
                (sqrt_pos _)) as Hf.
  pose proof (vertical_bias_range py region) as Hb.
  nra.
Qed.

End InfluenceTheorems.

(** ** Rest: [reset] followed by zero forces *)

Section Rest.

Local Open Scope R_scope.

Implicit Types (e : PhysicsEngine.t R) (region : Region.t R).

Lemma Forall_removelast {A} (P : A -> Prop) (l : list A) :
  Forall P l -> Forall P (removelast l).
Proof.
  induction 1 as [|a l Ha Hl IH]; cbn; [constructor|].
  destruct l; [constructor | constructor; assumption].
Qed.

Lemma or0_zero : or0 (0 : R) = 0.
Proof.
  unfold or0. cbn. rewrite !Rltb_false by lra. cbn. lra.
Qed.

Lemma axis_step_rest e k c :
  0 <= PhysicsEngine.maxDisplacement e ->
  axis_step_spec e k c 0 0 0 = (0, 0).
Proof.
  intros Hm. unfold axis_step_spec, clamp. cbn.
  replace (0 + (- k * 0 + - c * 0 + 0) / PhysicsEngine.mass e) with 0
    by (unfold Rdiv; ring).
  replace (0 + 0) with 0 by ring.
  rewrite (Rmin_right (PhysicsEngine.maxDisplacement e) 0) by assumption.
  rewrite Rmax_right by lra.
  replace (0 / 1) with 0 by lra.
  destruct (_ && _)%bool; reflexivity.
Qed.

Lemma region_step_rest e region fx fy :
  0 <= PhysicsEngine.maxDisplacement e ->
  at_rest region -> fx = 0 -> fy = 0 ->
  region_step_spec e region fx fy = region.
Proof.
  intros Hm [Hp Hv] -> ->. unfold region_step_spec.
  rewrite Hp, Hv. cbn [Vec2.x Vec2.y].
  rewrite axis_step_rest by assumption.
  destruct region; cbn in *. subst. reflexivity.
Qed.

Lemma delayed_entry_zero (h : list (ForceEntry.t R)) region :
  Forall zero_entry h -> zero_entry (delayed_entry h region).
Proof.
  intros Hh. unfold delayed_entry.
  destruct (nth_in_or_default
              (Nat.min (Region.delayFrames region) (List.length h - 1)) h
              (ForceEntry.mk (int 0) (int 0) None)) as [Hin|Heq].
  - rewrite Forall_forall in Hh. now apply Hh.
  - rewrite Heq. split; cbn; lra.
Qed.

Lemma applied_x_zero (entry : ForceEntry.t R) i :
  zero_entry entry -> applied_x_spec entry i = 0.
Proof.
  intros [Hx _]. unfold applied_x_spec. rewrite Hx.
  destruct (_ && _)%bool; cbn; lra.
Qed.

Lemma update_resting e patternId :
  0 <= PhysicsEngine.maxDisplacement e ->
  resting e ->
  let e' := fst (update e zero_force patternId) in
  resting e'
  /\ PhysicsEngine.regions e' = PhysicsEngine.regions e
  /\ PhysicsEngine.vertices e' = PhysicsEngine.vertices e
  /\ PhysicsEngine.maxDisplacement e' = PhysicsEngine.maxDisplacement e.
Proof.
  intros Hm (Hr & Hh & Hp) e'.
  assert (Hh' : Forall zero_entry (PhysicsEngine.forceHistory e')).
  { unfold e'. rewrite update_forceHistory. unfold pushForce.
    assert (Hl : Forall zero_entry
                   (new_entry e zero_force patternId
                    :: PhysicsEngine.forceHistory e)).
    { constructor; [|assumption].
      unfold new_entry, zero_force, zero_entry. cbn [Vec2.x Vec2.y ForceEntry.x ForceEntry.y].
      rewrite or0_zero. cbn. split; ring. }
    destruct (_ <? _)%nat; [now apply Forall_removelast | assumption]. }
  assert (Hregs : PhysicsEngine.regions e' = PhysicsEngine.regions e).
  { apply nth_error_ext. intros i. unfold e'.
    rewrite update_region_at. fold e'.
    destruct (nth_error (PhysicsEngine.regions e) i) as [region|] eqn:Hi;
      cbn [option_map]; [|reflexivity].
    f_equal. apply region_step_rest; [assumption| | |].
    - rewrite Forall_forall in Hr. apply Hr. eapply nth_error_In; eassumption.
    - apply applied_x_zero. now apply delayed_entry_zero.
    - now apply delayed_entry_zero. }
  split; [|split; [exact Hregs | split; reflexivity]].
  split; [now rewrite Hregs|].
  split; [exact Hh'|].
  unfold e', update, updatePressState. cbn. now rewrite Hp.
Qed.

Lemma run_resting e patternIds :
  0 <= PhysicsEngine.maxDisplacement e ->
  resting e ->
  let e' := run e (zero_steps patternIds) in
  resting e'
  /\ PhysicsEngine.regions e' = PhysicsEngine.regions e
  /\ PhysicsEngine.vertices e' = PhysicsEngine.vertices e
  /\ PhysicsEngine.maxDisplacement e' = PhysicsEngine.maxDisplacement e.
Proof.
  revert e. induction patternIds as [|pid pids IH]; intros e Hm Hrest.
  - cbn. repeat split; try reflexivity; apply Hrest.
  - cbn zeta.
    change (run e (zero_steps (pid :: pids)))
      with (run (fst (update e zero_force pid)) (zero_steps pids)).
    destruct (update_resting e pid Hm Hrest) as (H1 & H2 & H3 & H4).
    cbn zeta in H1, H2, H3, H4.
    rewrite <- H4 in Hm.
    destruct (IH _ Hm H1) as (I1 & I2 & I3 & I4). cbn zeta in I1, I2, I3, I4.
    split; [exact I1|].
    split; [now rewrite I2|].
    split; [now rewrite I3|].
    now rewrite I4.
Qed.

Lemma region_sum_at_rest (bx by_ : R) (rs : list (Region.t R)) :
  Forall at_rest rs ->
  forall w, exists w',
    fold_left
      (fun '(totalDx, totalDy, totalWeight) region =>
         let influence := calculateRegionInfluence bx by_ region in
         if ltb (lit 1 1000) influence then
           (add totalDx (mul (Vec2.x (Region.position region)) influence),
            add totalDy (mul (Vec2.y (Region.position region)) influence),
            add totalWeight influence)
         else (totalDx, totalDy, totalWeight))
      rs (0, 0, w)
    = (0, 0, w').
Proof.
  induction 1 as [|region rs [Hp _] _ IH]; intros w; cbn [fold_left].
  - now exists w.
  - cbn zeta. rewrite Hp. cbn [Vec2.x Vec2.y].
    destruct (ltb _ _).
    + cbn [add mul R_JSNumber].
      replace (0 + 0 * calculateRegionInfluence bx by_ region) with 0 by ring.
      apply IH.
    + apply IH.
Qed.

Lemma vertexDisplacement_at_rest e v :
  Forall at_rest (PhysicsEngine.regions e) ->
  PhysicsEngine.pressPoints e = [] ->
  Sample.dx (vertexDisplacement e v) = 0
  /\ Sample.dy (vertexDisplacement e v) = 0.
Proof.
  intros Hr Hp. unfold vertexDisplacement. rewrite Hp. cbn [fold_left].
  cbn zeta.
  replace (@int R _ 0) with 0 by (cbn; lra).
  destruct (region_sum_at_rest (Vertex.baseX v) (Vertex.baseY v) _ Hr 0)
    as [w' Hw].
  cbn zeta in Hw. rewrite Hw. cbn [Sample.dx Sample.dy].
  split; destruct (ltb _ _); reflexivity.
Qed.

Lemma displacements_ext e1 e2 :
  PhysicsEngine.regions e1 = PhysicsEngine.regions e2 ->
  PhysicsEngine.pressPoints e1 = PhysicsEngine.pressPoints e2 ->
  PhysicsEngine.vertices e1 = PhysicsEngine.vertices e2 ->
  calculateVertexDisplacements e1 = calculateVertexDisplacements e2.
Proof.
  intros Hr Hp Hv. unfold calculateVertexDisplacements. rewrite Hv.
  apply map_ext. intros v. unfold vertexDisplacement.
  now rewrite Hr, Hp.
Qed.

Lemma reset_resting e :
  PhysicsEngine.pressPoints e = [] -> resting (reset e).
Proof.
  intros Hp. unfold resting, reset. cbn.
  split; [|split; [constructor | exact Hp]].
  apply Forall_forall. intros region Hin.
  apply in_map_iff in Hin. destruct Hin as [r0 [<- _]].
  unfold at_rest. cbn. split; f_equal; lra.
Qed.

(** C7.  [reset()] empties the force history and puts every region at
    position and velocity (0, 0), keeping the regions as they are
    otherwise: as many, each with its ellipse and its constants.  In
    exact arithmetic, on an engine with [maxDisplacement >= 0] and no
    press point, after [reset()] and any number of [update] calls with
    force [{x: 0, y: 0}] (under any pattern ids) every region is still at
    position and velocity zero, and the array a further such call
    returns is the one of the freshly reset engine, in which every
    sample has [dx = 0] and [dy = 0]. *)
Theorem reset_then_zero_force_stays_at_rest :
  (forall e,
     PhysicsEngine.forceHistory (reset e) = []
     /\ Forall2
          (fun region region' =>
             Region.position region' = Vec2.mk 0 0
             /\ Region.velocity region' = Vec2.mk 0 0
             /\ Region.x region' = Region.x region
             /\ Region.y region' = Region.y region
             /\ Region.width region' = Region.width region
             /\ Region.height region' = Region.height region
             /\ Region.stiffness region' = Region.stiffness region
             /\ Region.damping region' = Region.damping region
             /\ Region.delayFrames region' = Region.delayFrames region
             /\ Region.phaseOffset region' = Region.phaseOffset region)
          (PhysicsEngine.regions e) (PhysicsEngine.regions (reset e)))
  /\ (forall e patternIds patternId,
        0 <= PhysicsEngine.maxDisplacement e ->
        PhysicsEngine.pressPoints e = [] ->
        let e' := run (reset e) (zero_steps patternIds) in
        Forall at_rest (PhysicsEngine.regions e')
        /\ PhysicsEngine.regions e' = PhysicsEngine.regions (reset e)
        /\ snd (update e' zero_force patternId) = getDisplacements (reset e)
        /\ Forall (fun s => Sample.dx s = 0 /\ Sample.dy s = 0)
             (snd (update e' zero_force patternId))).
Proof.
  split.
  { intros e. split; [reflexivity|].
    unfold reset. cbn. induction (PhysicsEngine.regions e) as [|r rs IH];
      cbn; constructor; [|exact IH].
    cbn. repeat split; try reflexivity; f_equal; lra. }
  intros e pids pid Hm Hp e'.
  assert (Hm0 : 0 <= PhysicsEngine.maxDisplacement (reset e)) by exact Hm.
  destruct (run_resting (reset e) pids Hm0 (reset_resting e Hp)) as (R1 & R2 & R3 & R4).
  cbn zeta in R1, R2, R3, R4. fold e' in R1, R2, R3, R4.
  assert (Hm' : 0 <= PhysicsEngine.maxDisplacement e') by (rewrite R4; exact Hm0).
  destruct (update_resting e' pid Hm' R1) as (U1 & U2 & U3 & U4).
  cbn zeta in U1, U2, U3, U4.
  split; [apply R1|]. split; [exact R2|].
  assert (Hsnd : snd (update e' zero_force pid)
                 = calculateVertexDisplacements (fst (update e' zero_force pid)))
    by reflexivity.
  split.
  - rewrite Hsnd. unfold getDisplacements. apply displacements_ext.
    + congruence.
    + destruct U1 as (_ & _ & U1). rewrite U1. symmetry.
      exact (proj2 (proj2 (reset_resting e Hp))).
    + congruence.
  - rewrite Hsnd. unfold calculateVertexDisplacements.
    apply Forall_forall. intros s Hin.
    apply in_map_iff in Hin. destruct Hin as [v [<- _]].
    apply vertexDisplacement_at_rest; apply U1.
Qed.

End Rest.

(** ** The press-point state machine *)

Section PressSteps.

Context {num : Type} {JSN : JSNumber num}.

Implicit Types (e : PhysicsEngine.t num) (m : JSMap.t (PressPoint.t num)).

Lemma updatePressState_points e :
  PhysicsEngine.pressPoints (updatePressState e)
  = fold_left (fun m' id => JSMap.delete id m')
      (List.map fst
         (filter (fun '(_, (_, del)) => del)
            (stepped_points e (PhysicsEngine.pressPoints e))))
      (List.map (fun '(id, (point, _)) => (id, point))
         (stepped_points e (PhysicsEngine.pressPoints e))).
Proof. reflexivity. Qed.

Lemma get_stepped e m id :
  JSMap.get id
    (List.map (fun '(id, (point, _)) => (id, point)) (stepped_points e m))
  = option_map (fun point => fst (updatePressPoint e point)) (JSMap.get id m).
Proof.
  induction m as [|[k p] m IH]; cbn -[updatePressPoint]; [reflexivity|].
  destruct (updatePressPoint e p) as [p' del] eqn:E.
  cbn -[updatePressPoint].
  destruct (Z.eqb id k); [|exact IH].
  cbn -[updatePressPoint]. now rewrite E.
Qed.

Lemma flagged_in_keys e m id :
  existsb (Z.eqb id)
    (List.map fst (filter (fun '(_, (_, del)) => del) (stepped_points e m)))
  = true ->
  In id (JSMap.keys m).
Proof.
  induction m as [|[k p] m IH]; cbn -[updatePressPoint]; [discriminate|].
  destruct (updatePressPoint e p) as [p' [|]]; cbn -[updatePressPoint].
  - destruct (Z.eqb id k) eqn:E; cbn -[updatePressPoint].
    + apply Z.eqb_eq in E. intros _. left. congruence.
    + intros H. right. now apply IH.
  - intros H. right. now apply IH.
Qed.

Lemma flagged_first e m id point :
  JSMap.get id m = Some point ->
  snd (updatePressPoint e point) = true ->
  existsb (Z.eqb id)
    (List.map fst (filter (fun '(_, (_, del)) => del) (stepped_points e m)))
  = true.
Proof.
  induction m as [|[k p] m IH]; cbn -[updatePressPoint]; [discriminate|].
  destruct (Z.eqb id k) eqn:E.
  - intros [= ->] Hdel.
    destruct (updatePressPoint e point) as [p' del]. cbn in Hdel. subst del.
    cbn -[updatePressPoint]. now rewrite E.
  - intros Hget Hdel.
    destruct (updatePressPoint e p) as [p' [|]]; cbn -[updatePressPoint].
    + rewrite E. cbn -[updatePressPoint]. now apply IH.
    + now apply IH.
Qed.

Lemma flagged_nodup e m id point :
  NoDup (JSMap.keys m) ->
  JSMap.get id m = Some point ->
  existsb (Z.eqb id)
    (List.map fst (filter (fun '(_, (_, del)) => del) (stepped_points e m)))
  = snd (updatePressPoint e point).
Proof.
  induction m as [|[k p] m IH]; cbn -[updatePressPoint]; [discriminate|].
  intros Hnd. inversion Hnd as [|? ? Hnotin Hnd']; subst.
  destruct (Z.eqb id k) eqn:E.
  - intros [= ->]. apply Z.eqb_eq in E; subst k.
    destruct (updatePressPoint e point) as [p' [|]] eqn:Eu; cbn -[updatePressPoint].
    + now rewrite Z.eqb_refl.
    + destruct (existsb _ _) eqn:Ex; [|reflexivity].
      apply flagged_in_keys in Ex. contradiction.
  - intros Hget.
    destruct (updatePressPoint e p) as [p' [|]]; cbn -[updatePressPoint].
    + rewrite E. cbn -[updatePressPoint]. now apply IH.
    + now apply IH.
Qed.

(** What one [updatePressState()] does to the point of an id, on a map
    with one entry per id. *)
Lemma updatePressState_get e id :
  NoDup (JSMap.keys (PhysicsEngine.pressPoints e)) ->
  JSMap.get id (PhysicsEngine.pressPoints (updatePressState e))
  = match JSMap.get id (PhysicsEngine.pressPoints e) with
    | Some point =>
        if snd (updatePressPoint e point) then None
        else Some (fst (updatePressPoint e point))
    | None => None
    end.
Proof.
  intros Hnd. rewrite updatePressState_points, get_delete_all, get_stepped.
  destruct (JSMap.get id (PhysicsEngine.pressPoints e)) as [point|] eqn:Hget.
  - now rewrite (flagged_nodup e _ id point Hnd Hget).
  - cbn -[updatePressPoint]. now destruct (existsb _ _).
Qed.

Lemma keys_delete m k :
  JSMap.keys (JSMap.delete k m)
  = filter (fun k' => negb (Z.eqb k k')) (JSMap.keys m).
Proof.
  unfold JSMap.keys.
  induction m as [|[k0 v0] m IH]; cbn [JSMap.delete List.map filter fst];
    [reflexivity|].
  destruct (Z.eqb k k0); cbn [List.map negb fst]; now rewrite IH.
Qed.

Lemma updatePressState_nodup e :
  NoDup (JSMap.keys (PhysicsEngine.pressPoints e)) ->
  NoDup (JSMap.keys (PhysicsEngine.pressPoints (updatePressState e))).
Proof.
  intros Hnd. rewrite updatePressState_points.
  set (ks := List.map fst _).
  assert (Hk : JSMap.keys
                 (List.map (fun '(id, (point, _)) => (id, point))
                    (stepped_points e (PhysicsEngine.pressPoints e)))
               = JSMap.keys (PhysicsEngine.pressPoints e)).
  { unfold JSMap.keys, stepped_points. rewrite !map_map.
    apply map_ext. intros [k p]. cbn -[updatePressPoint]. now destruct (updatePressPoint e p). }
  rewrite <- Hk in Hnd. clear Hk.
  revert Hnd. generalize (List.map (fun '(id, (point, _)) => (id, point))
                            (stepped_points e (PhysicsEngine.pressPoints e))).
  induction ks as [|k ks IH]; intros m Hnd; cbn -[updatePressPoint]; [exact Hnd|].
  apply IH. rewrite keys_delete. now apply NoDup_filter.
Qed.

End PressSteps.

Section PressLifecycle.

Local Open Scope R_scope.

Implicit Types (e : PhysicsEngine.t R) (point : PressPoint.t R).

Lemma updatePressPoint_pressing e point :
  0 < PressPoint.targetDepth point ->
  updatePressPoint e point
  = (PressPoint.mk (PressPoint.x point) (PressPoint.y point)
       (PressPoint.depth point
        + (PressPoint.targetDepth point - PressPoint.depth point)
          * PhysicsEngine.pressSpeed e)
       (PressPoint.targetDepth point),
     false).
Proof.
  intros Ht. unfold updatePressPoint. cbn.
  rewrite Rltb_true by lra. reflexivity.
Qed.

Lemma updatePressPoint_releasing e point :
  PressPoint.targetDepth point = 0 ->
  updatePressPoint e point
  = (PressPoint.mk (PressPoint.x point) (PressPoint.y point)
       (PressPoint.depth point
        + (PressPoint.targetDepth point - PressPoint.depth point)
          * PhysicsEngine.releaseSpeed e)
       (PressPoint.targetDepth point),
     Rltb
       (Rabs (PressPoint.depth point
              + (PressPoint.targetDepth point - PressPoint.depth point)
                * PhysicsEngine.releaseSpeed e))
       (1 / 1000)).
Proof.
  intros Ht. unfold updatePressPoint. cbn.
  rewrite Rltb_false by lra. reflexivity.
Qed.

Lemma times_invariants n e :
  NoDup (JSMap.keys (PhysicsEngine.pressPoints e)) ->
  NoDup (JSMap.keys (PhysicsEngine.pressPoints (updatePressState_times n e)))
  /\ PhysicsEngine.releaseSpeed (updatePressState_times n e)
     = PhysicsEngine.releaseSpeed e.
Proof.
  intros Hnd. induction n as [|n [IH1 IH2]]; cbn; [now split|].
  split; [now apply updatePressState_nodup | exact IH2].
Qed.

(** A releasing point, after [n] steps: gone, or at depth
    [depth * (1 - releaseSpeed)^n]. *)
Lemma releasing_after e id point n :
  NoDup (JSMap.keys (PhysicsEngine.pressPoints e)) ->
  JSMap.get id (PhysicsEngine.pressPoints e) = Some point ->
  PressPoint.targetDepth point = 0 ->
  JSMap.get id (PhysicsEngine.pressPoints (updatePressState_times n e)) = None
  \/ JSMap.get id (PhysicsEngine.pressPoints (updatePressState_times n e))
     = Some (PressPoint.mk (PressPoint.x point) (PressPoint.y point)
               (PressPoint.depth point * (1 - PhysicsEngine.releaseSpeed e) ^ n)
               0).
Proof.
  intros Hnd Hget Ht. induction n as [|n IH].
  - right. cbn. rewrite Hget. f_equal. destruct point; cbn in *. subst.
    f_equal. ring.
  - destruct (times_invariants n e Hnd) as [Hnd' Hrs].
    change (updatePressState_times (S n) e)
      with (updatePressState (updatePressState_times n e)).
    rewrite (updatePressState_get _ id Hnd').
    destruct IH as [IH|IH]; rewrite IH; [now left|].
    rewrite updatePressPoint_releasing by reflexivity.
    cbn [fst snd PressPoint.x PressPoint.y PressPoint.depth PressPoint.targetDepth].
    destruct (Rltb _ _); [now left|]. right.
    f_equal. f_equal. rewrite Hrs. cbn [pow]. ring.
Qed.

(** C9.  The engine is created with [pressSpeed = 0.15] and
    [releaseSpeed = 0.08].  On a map with one entry per id, one
    [updatePressState()] moves the depth of a point by
    [(targetDepth - depth) * rate]: for [targetDepth > 0] the rate is
    [pressSpeed] and the point stays; for [targetDepth = 0] the rate is
    [releaseSpeed], and the point is deleted in that very step if the
    new depth is below 0.001 in magnitude, and stays otherwise.
    [startPress(id, x, y)] followed at once by [endPress(id)] leaves a
    point that the first [updatePressState()] deletes; and with a
    release speed strictly between 0 and 2, any releasing point is
    deleted after finitely many steps. *)
Theorem press_depth_eases_to_target :
  (PhysicsEngine.pressSpeed (@new_PhysicsEngine R _) = 15 / 100
   /\ PhysicsEngine.releaseSpeed (@new_PhysicsEngine R _) = 8 / 100)
  /\ (forall e id point,
        NoDup (JSMap.keys (PhysicsEngine.pressPoints e)) ->
        JSMap.get id (PhysicsEngine.pressPoints e) = Some point ->
        let depth := PressPoint.depth point in
        let targetDepth := PressPoint.targetDepth point in
        let moved rate :=
          PressPoint.mk (PressPoint.x point) (PressPoint.y point)
            (depth + (targetDepth - depth) * rate) targetDepth in
        let after := JSMap.get id (PhysicsEngine.pressPoints (updatePressState e)) in
        (0 < targetDepth -> after = Some (moved (PhysicsEngine.pressSpeed e)))
        /\ (targetDepth = 0 ->
            Rabs (depth + (targetDepth - depth) * PhysicsEngine.releaseSpeed e)
            < 1 / 1000 ->
            after = None)
        /\ (targetDepth = 0 ->
            ~ Rabs (depth + (targetDepth - depth) * PhysicsEngine.releaseSpeed e)
              < 1 / 1000 ->
            after = Some (moved (PhysicsEngine.releaseSpeed e))))
  /\ (forall e id x y random,
        JSMap.get id
          (PhysicsEngine.pressPoints
             (updatePressState (endPress (startPress e id x y) id random)))
        = None)
  /\ (forall e id point,
        NoDup (JSMap.keys (PhysicsEngine.pressPoints e)) ->
        JSMap.get id (PhysicsEngine.pressPoints e) = Some point ->
        PressPoint.targetDepth point = 0 ->
        0 < PhysicsEngine.releaseSpeed e < 2 ->
        exists n,
          JSMap.get id (PhysicsEngine.pressPoints (updatePressState_times n e))
          = None).
Proof.
  split; [split; reflexivity|].
  split.
  { intros e id point Hnd Hget depth targetDepth moved after.
    unfold after. rewrite (updatePressState_get e id Hnd), Hget.
    repeat split.
    - intros Ht. now rewrite updatePressPoint_pressing.
    - intros Ht Hsmall. rewrite updatePressPoint_releasing by assumption.
      cbn [snd]. now rewrite Rltb_true.
    - intros Ht Hbig. rewrite updatePressPoint_releasing by assumption.
      cbn [snd fst].
      rewrite Rltb_false by (apply Rnot_lt_le; exact Hbig). reflexivity. }
  split.
  { intros e id x y random.
    rewrite updatePressState_points, get_delete_all.
    assert (Hget : JSMap.get id
                     (PhysicsEngine.pressPoints
                        (endPress (startPress e id x y) id random))
                   = Some (PressPoint.mk x y (int 0) (int 0))).
    { unfold endPress, startPress.
      cbn [PhysicsEngine.pressPoints PhysicsEngine.with_pressPoints
           PhysicsEngine.with_regions].
      rewrite get_set_same.
      cbn [PhysicsEngine.pressPoints PhysicsEngine.with_pressPoints
           PhysicsEngine.with_regions PressPoint.x PressPoint.y
           PressPoint.depth].
      now rewrite get_set_same. }
    rewrite (flagged_first _ _ id _ Hget); [reflexivity|].
    rewrite updatePressPoint_releasing by (cbn; lra).
    cbn. apply Rltb_true.
    replace (0 / 1 + (0 / 1 - 0 / 1) * _) with 0 by lra.
    rewrite Rabs_R0. lra. }
  intros e id point Hnd Hget Ht Hrs.
  set (q := 1 - PhysicsEngine.releaseSpeed e).
  assert (Hq : Rabs q < 1) by (unfold q; apply Rabs_def1; lra).
  set (bound := 1 / 1000 / (Rabs (PressPoint.depth point) + 1)).
  assert (Hd : 0 < Rabs (PressPoint.depth point) + 1)
    by (pose proof (Rabs_pos (PressPoint.depth point)); lra).
  assert (Hb : 0 < bound) by (unfold bound; apply Rdiv_lt_0_compat; lra).
  destruct (pow_lt_1_zero q Hq bound Hb) as [N HN].
  exists (S N).
  destruct (times_invariants N e Hnd) as [Hnd' Hrs'].
  change (updatePressState_times (S N) e)
    with (updatePressState (updatePressState_times N e)).
  rewrite (updatePressState_get _ id Hnd').
  destruct (releasing_after e id point N Hnd Hget Ht) as [HNone|HSome];
    [now rewrite HNone|].
  rewrite HSome. rewrite updatePressPoint_releasing by reflexivity.
  cbn [fst snd PressPoint.x PressPoint.y PressPoint.depth PressPoint.targetDepth].
  rewrite Rltb_true; [reflexivity|].
  rewrite Hrs'. fold q.
  replace (PressPoint.depth point * q ^ N
           + (0 - PressPoint.depth point * q ^ N) * PhysicsEngine.releaseSpeed e)
    with (PressPoint.depth point * q ^ S N) by (unfold q; cbn [pow]; ring).
  rewrite Rabs_mult.
  specialize (HN (S N) (Nat.le_succ_diag_r N)).
  assert (Hlt : Rabs (PressPoint.depth point) * Rabs (q ^ S N)
                <= Rabs (PressPoint.depth point) * bound).
  { apply Rmult_le_compat_l; [apply Rabs_pos | lra]. }
  assert (Hbd : Rabs (PressPoint.depth point) * bound < 1 / 1000).
  { unfold bound.
    replace (Rabs (PressPoint.depth point)
             * (1 / 1000 / (Rabs (PressPoint.depth point) + 1)))
      with (1 / 1000 * (Rabs (PressPoint.depth point)
                        / (Rabs (PressPoint.depth point) + 1)))
      by (field; lra).
    assert (Rabs (PressPoint.depth point)
            / (Rabs (PressPoint.depth point) + 1) < 1).
    { apply Rmult_lt_reg_r with (Rabs (PressPoint.depth point) + 1); [lra|].
      unfold Rdiv. rewrite Rmult_assoc, Rinv_l by lra. lra. }
    pose proof (Rabs_pos (PressPoint.depth point)).
    nra. }
  lra.
Qed.

End PressLifecycle.

(** ** The position clamp, in binary64 *)

Section Binary64Clamp.

Ltac to_spec_float :=
  unfold PrimFloat.is_nan, PrimFloat.is_zero in *;
  repeat rewrite ?eqb_spec, ?ltb_spec, ?leb_spec, ?opp_spec, ?add_spec in *;
  change (Prim2SF PrimFloat.zero) with (S754_zero false) in *;
  change (Prim2SF PrimFloat.nan) with S754_nan in *.

Ltac by_comparisons :=
  cbn in *; try discriminate; try reflexivity;
  repeat match goal with s : bool |- _ => destruct s end;
  cbn in *; try discriminate; try reflexivity;
  rewrite ?Z.compare_refl, ?Pos.compare_cont_refl in *;
  cbn in *; try discriminate; try reflexivity;
  repeat match goal with
    | |- context [Z.compare ?a ?b] => destruct (Z.compare a b)
    | |- context [Pos.compare_cont ?c ?a ?b] => destruct (Pos.compare_cont c a b)
    end;
  cbn in *; try discriminate; try reflexivity.

(** [clamp(v, -m, m)] for a bound [m >= 0]: NaN (when [v] is), or
    between [-m] and [m]. *)
Lemma clamp64_bounds (m v : float) :
  PrimFloat.leb PrimFloat.zero m = true ->
  nan_or_within m (clamp v (PrimFloat.opp m) m) = true.
Proof.
  intros Hpos. unfold nan_or_within, clamp.
  cbn [Math_max Math_min binary64_JSNumber].
  unfold Binary64.max, Binary64.min.
  repeat match goal with
    | |- context [if ?b then _ else _] => destruct b eqn:?
    end.
  all: try reflexivity.
  all: to_spec_float.
  all: destruct (Prim2SF m) as [sm|sm| |sm mm em]; try discriminate.
  all: destruct (Prim2SF v) as [sv|sv| |sv mv ev]; try discriminate.
  all: by_comparisons.
Qed.

Lemma zero64_bounds (m : float) :
  PrimFloat.leb PrimFloat.zero m = true ->
  nan_or_within m (int 0) = true.
Proof.
  intros Hpos. unfold nan_or_within.
  change (@int float _ 0) with PrimFloat.zero.
  to_spec_float.
  destruct (Prim2SF m) as [sm|sm| |sm mm em]; by_comparisons.
Qed.

Lemma axis_step_position_bounded64 (e : PhysicsEngine.t float) k c p v f :
  PrimFloat.leb PrimFloat.zero (PhysicsEngine.maxDisplacement e) = true ->
  nan_or_within (PhysicsEngine.maxDisplacement e)
    (fst (axis_step_spec e k c p v f))
  = true.
Proof.
  intros Hm. unfold axis_step_spec.
  match goal with |- context [if ?c then _ else _] => destruct c end;
    cbn [fst].
  - now apply zero64_bounds.
  - now apply clamp64_bounds.
Qed.

(** C1, amended.  With [maxDisplacement >= 0], whatever the state of
    the engine and whatever forces and pattern ids a sequence of [update]
    calls is given, after each call both components of the position of
    every region are within [[-maxDisplacement, maxDisplacement]]: in
    exact arithmetic always, and in binary64 unless the component is NaN.
    (Nothing of the kind is said of the velocity, which the step does
    not clamp.) *)
Theorem position_clamped_after_every_step :
  (forall (e : PhysicsEngine.t R) steps force patternId,
     (0 <= PhysicsEngine.maxDisplacement e)%R ->
     Forall
       (fun region =>
          (Rabs (Vec2.x (Region.position region))
           <= PhysicsEngine.maxDisplacement e)%R
          /\ (Rabs (Vec2.y (Region.position region))
              <= PhysicsEngine.maxDisplacement e)%R)
       (PhysicsEngine.regions (fst (update (run e steps) force patternId))))
  /\ (forall (e : PhysicsEngine.t float) steps force patternId,
        PrimFloat.leb PrimFloat.zero (PhysicsEngine.maxDisplacement e) = true ->
        Forall
          (fun region =>
             nan_or_within (PhysicsEngine.maxDisplacement e)
               (Vec2.x (Region.position region)) = true
             /\ nan_or_within (PhysicsEngine.maxDisplacement e)
                  (Vec2.y (Region.position region)) = true)
          (PhysicsEngine.regions (fst (update (run e steps) force patternId)))).
Proof.
  split.
  - intros e steps force patternId Hm.
    apply (update_position_invariant
             (fun m p => (Rabs p <= m)%R) e steps force patternId).
    intros e' k c p v f He'. rewrite <- He' in *.
    now apply axis_step_position_bounded.
  - intros e steps force patternId Hm.
    apply (update_position_invariant
             (fun m p => nan_or_within m p = true) e steps force patternId).
    intros e' k c p v f He'. rewrite <- He' in *.
    now apply axis_step_position_bounded64.
Qed.

End Binary64Clamp.

(** ** The code on concrete inputs *)

Section Evaluations.

(** C1, counterexample.  One region, [update({x: 100, y: 0})] with the
    default sensitivity 4: the velocity of the region is 400 on the X
    axis, above [maxDisplacement = 25]. *)
Lemma velocity_exceeds_maxDisplacement :
  List.map (fun region => Vec2.x (Region.velocity region))
    (PhysicsEngine.regions (fst On64.pushed))
  = [On64.n 400 1]
  /\ PhysicsEngine.maxDisplacement (fst On64.pushed) = On64.n 25 1
  /\ ltb (PhysicsEngine.maxDisplacement (fst On64.pushed)) (On64.n 400 1) = true.
Proof. vm_compute. repeat split. Qed.

(** In binary64 the position can be NaN: [update({x: 1e308, y: 0})]
    overflows to an infinite velocity (the position is clamped to 25),
    and in the next call the damping force [-damping * Infinity] meets
    that velocity: [Infinity - Infinity] is NaN, and so is the position. *)
Lemma position_nan_after_overflow :
  List.map
    (fun region =>
       (PrimFloat.is_nan (Vec2.x (Region.position region)),
        PrimFloat.is_nan (Vec2.x (Region.velocity region))))
    (PhysicsEngine.regions (fst On64.overflowed))
  = [(true, true)].
Proof. vm_compute. reflexivity. Qed.

(** In binary64 too, with the default parameters: after [reset()] the
    arrays of three zero-force calls are the array of the reset engine,
    121 samples with [dx = dy = 0]. *)
Lemma reset_and_rest_binary64 :
  On64.reset_and_rest
  = repeat (getDisplacements (reset (fst On64.pushed))) 3
  /\ List.map (fun s => (Sample.dx s, Sample.dy s))
       (getDisplacements (reset (fst On64.pushed)))
     = repeat (On64.n 0 1, On64.n 0 1) 121.
Proof. vm_compute. split; reflexivity. Qed.

(** C4, counterexample.  The region is at position 25 with velocity 400
    on the X axis; the pointer is where the influence of the region is 0.
    [applyForceAtPosition] leaves the region exactly as it was, whereas
    the step of the specification, spring and damping applied, would
    have brought its velocity down. *)
Lemma far_region_is_not_stepped :
  PhysicsEngine.regions (fst On64.pointer_far)
  = PhysicsEngine.regions (fst On64.pushed)
  /\ List.map
       (fun region =>
          (Vec2.x (Region.position region), Vec2.x (Region.velocity region),
           calculateRegionInfluence (On64.n 95 100) (On64.n 95 100) region))
       (PhysicsEngine.regions (fst On64.pushed))
     = [(On64.n 25 1, On64.n 400 1, On64.n 0 1)]
  /\ List.map
       (fun region =>
          ltb
            (Vec2.x (Region.velocity
               (region_step_spec (fst On64.pushed) region
                  (On64.n 0 1) (On64.n 0 1))))
            (Vec2.x (Region.velocity region)))
       (PhysicsEngine.regions (fst On64.pushed))
     = [true].
Proof. vm_compute. repeat split. Qed.

(** C8.  The renderer skips a triangle whose determinant is below 0.001
    in magnitude.  The influence computation has no such guard: for the
    region of width 0, at the vertex (1, 0.5) on its axis, [rx] is
    [0/0 = NaN] and so is the influence; [NaN > 0.001] is false, which
    keeps the region out of the weighted sum, but in the press loop
    [Math.max(0, NaN)] is NaN and [NaN < 0.01] is false as well, so the
    press is applied with a NaN factor: the sample of that vertex has
    [dy = NaN]. *)
Theorem zero_width_region_yields_nan :
  (forall sx0 sy0 sx1 sy1 sx2 sy2 dx0 dy0 dx1 dy1 dx2 dy2 : float,
     let denom :=
       sub (mul (sub sx0 sx2) (sub sy1 sy2)) (mul (sub sx1 sx2) (sub sy0 sy2)) in
     if ltb (Math_abs denom) (lit 1 1000) then
       drawTexturedTriangle sx0 sy0 sx1 sy1 sx2 sy2 dx0 dy0 dx1 dy1 dx2 dy2
       = None
     else
       drawTexturedTriangle sx0 sy0 sx1 sy1 sx2 sy2 dx0 dy0 dx1 dy1 dx2 dy2
       <> None)
  /\ List.map
       (fun region =>
          PrimFloat.is_nan
            (calculateRegionInfluence (On64.n 1 1) (On64.n 5 10) region))
       (PhysicsEngine.regions (fst On64.zero_width_pressed))
     = [true]
  /\ option_map
       (fun s =>
          (Sample.x s, Sample.y s, Sample.dx s, PrimFloat.is_nan (Sample.dy s)))
       (nth_error (snd On64.zero_width_pressed) 65)
     = Some (On64.n 1 1, On64.n 5 10, On64.n 0 1, true).
Proof.
  split.
  { intros. unfold drawTexturedTriangle. fold denom.
    destruct (ltb (Math_abs denom) (lit 1 1000)); [reflexivity | discriminate]. }
  vm_compute. split; reflexivity.
Qed.

End Evaluations.

(** ** The code in exact arithmetic, on a concrete input *)

Section ExactEvaluations.

Local Open Scope R_scope.

(** C6, counterexample.  The region covers the whole image; the point
    (0.5, 0.4) is just above its centre, at ellipse distance 0.2.  The
    core gives [exp(-0.02) >= 0.98], the vertical bias is 1.05, and the
    influence, their product, is above 1. *)
Lemma influence_above_one :
  1 < calculateRegionInfluence (5 / 10) (4 / 10) OnR.whole_image.
Proof.
  rewrite calculateRegionInfluence_spec.
  unfold influence_spec, ellipse_distance_spec, vertical_bias_spec, clamp_spec,
    OnR.whole_image.
  cbn [Region.x Region.y Region.width Region.height].
  replace (((5 / 10 - (0 + 1 / 2)) / (1 / 2)) ^ 2
           + ((4 / 10 - (0 + 1 / 2)) / (1 / 2)) ^ 2)
    with ((2 / 10) * (2 / 10)) by field.
  rewrite sqrt_square by lra.
  rewrite falloff_core by lra.
  replace (1 + (0 + 1 / 2 - 4 / 10) * (5 / 10)) with (105 / 100) by lra.
  rewrite Rmax_right by lra. rewrite Rmin_right by lra.
  pose proof (exp_ineq1_le (- (5 / 10) * (2 / 10) ^ 2)) as He.
  replace (1 + - (5 / 10) * (2 / 10) ^ 2) with (98 / 100) in He by field.
  nra.
Qed.

End ExactEvaluations.

(** ** The theorems at concrete inputs *)

Section Witnesses.

Local Open Scope R_scope.

Lemma position_clamped_witness :
  0 <= PhysicsEngine.maxDisplacement OnR.one_region
  /\ Forall
       (fun region =>
          Rabs (Vec2.x (Region.position region))
          <= PhysicsEngine.maxDisplacement OnR.one_region
          /\ Rabs (Vec2.y (Region.position region))
             <= PhysicsEngine.maxDisplacement OnR.one_region)
       (PhysicsEngine.regions
          (fst (update (run OnR.one_region [(Vec2.mk 100 0, None)])
                  (Vec2.mk (-100) 50) (Some "kneadLeft"%string))))
  /\ PrimFloat.leb PrimFloat.zero (PhysicsEngine.maxDisplacement On64.one_region)
     = true
  /\ Forall
       (fun region =>
          nan_or_within (PhysicsEngine.maxDisplacement On64.one_region)
            (Vec2.x (Region.position region)) = true
          /\ nan_or_within (PhysicsEngine.maxDisplacement On64.one_region)
               (Vec2.y (Region.position region)) = true)
       (PhysicsEngine.regions (fst On64.overflowed)).
Proof.
  assert (H : 0 <= PhysicsEngine.maxDisplacement OnR.one_region)
    by (cbn; lra).
  assert (H64 : PrimFloat.leb PrimFloat.zero
                  (PhysicsEngine.maxDisplacement On64.one_region) = true)
    by reflexivity.
  split; [exact H|].
  split.
  { exact (proj1 position_clamped_after_every_step OnR.one_region
             [(Vec2.mk 100 0, None)] (Vec2.mk (-100) 50)
             (Some "kneadLeft"%string) H). }
  split; [exact H64|].
  exact (proj2 position_clamped_after_every_step On64.one_region
           [(Vec2.mk On64.huge (On64.n 0 1), None)]
           (Vec2.mk (On64.n 0 1) (On64.n 0 1)) None H64).
Defined.

Lemma influence_falloff_witness :
  0 < Region.width OnR.whole_image
  /\ 0 < Region.height OnR.whole_image
  /\ calculateRegionInfluence (5 / 10) (4 / 10) OnR.whole_image
     = falloff_spec (ellipse_distance_spec (5 / 10) (4 / 10) OnR.whole_image)
       * vertical_bias_spec (4 / 10) OnR.whole_image.
Proof.
  assert (Hw : 0 < Region.width OnR.whole_image) by (cbn; lra).
  assert (Hh : 0 < Region.height OnR.whole_image) by (cbn; lra).
  split; [exact Hw|]. split; [exact Hh|].
  exact (proj1 influence_two_piece_falloff
           (5 / 10) (4 / 10) OnR.whole_image Hw Hh).
Defined.

Lemma influence_range_witness :
  0 < Region.width OnR.whole_image
  /\ 0 < Region.height OnR.whole_image
  /\ 0 <= calculateRegionInfluence (5 / 10) (4 / 10) OnR.whole_image <= 15 / 10.
Proof.
  assert (Hw : 0 < Region.width OnR.whole_image) by (cbn; lra).
  assert (Hh : 0 < Region.height OnR.whole_image) by (cbn; lra).
  split; [exact Hw|]. split; [exact Hh|].
  exact (influence_range (5 / 10) (4 / 10) OnR.whole_image Hw Hh).
Defined.

Lemma reset_then_zero_force_witness :
  0 <= PhysicsEngine.maxDisplacement OnR.one_region
  /\ PhysicsEngine.pressPoints OnR.one_region = []
  /\ Forall (fun s => Sample.dx s = 0 /\ Sample.dy s = 0)
       (snd (update
               (run (reset OnR.one_region)
                  (zero_steps [None; Some "kneadLeft"%string; None]))
               zero_force None)).
Proof.
  assert (Hm : 0 <= PhysicsEngine.maxDisplacement OnR.one_region)
    by (cbn; lra).
  assert (Hp : PhysicsEngine.pressPoints OnR.one_region = [])
    by reflexivity.
  split; [exact Hm|]. split; [exact Hp|].
  exact (proj2 (proj2 (proj2
           (proj2 reset_then_zero_force_stays_at_rest OnR.one_region
              [None; Some "kneadLeft"%string; None] None Hm Hp)))).
Defined.

Lemma press_depth_witness :
  NoDup (JSMap.keys (PhysicsEngine.pressPoints OnR.pressing))
  /\ JSMap.get 0 (PhysicsEngine.pressPoints OnR.pressing)
     = Some (PressPoint.mk (5 / 10) (5 / 10) (int 0) (int 1))
  /\ 0 < PressPoint.targetDepth (PressPoint.mk (5 / 10) (5 / 10) (int 0) (int 1))
  /\ JSMap.get 0 (PhysicsEngine.pressPoints (updatePressState OnR.pressing))
     = Some (PressPoint.mk (5 / 10) (5 / 10)
               (int 0 + (int 1 - int 0) * PhysicsEngine.pressSpeed OnR.pressing)
               (int 1)).
Proof.
  assert (Hnd : NoDup (JSMap.keys (PhysicsEngine.pressPoints OnR.pressing)))
    by (repeat constructor; intros []).
  assert (Hget : JSMap.get 0 (PhysicsEngine.pressPoints OnR.pressing)
                 = Some (PressPoint.mk (5 / 10) (5 / 10) (int 0) (int 1)))
    by reflexivity.
  assert (Ht : 0 < PressPoint.targetDepth
                     (PressPoint.mk (5 / 10) (5 / 10) (int 0) (int 1)))
    by (cbn; lra).
  split; [exact Hnd|]. split; [exact Hget|]. split; [exact Ht|].
  exact (proj1 (proj1 (proj2 press_depth_eases_to_target)
                  OnR.pressing 0%Z _ Hnd Hget) Ht).
Defined.

Lemma force_history_witness :
  (List.length (PhysicsEngine.forceHistory On64.one_region)
   <= PhysicsEngine.historyLength On64.one_region)%nat
  /\ (1 <= PhysicsEngine.historyLength On64.one_region)%nat
  /\ nth_error (PhysicsEngine.forceHistory (fst On64.pushed)) 0
     = Some (new_entry On64.one_region
               (Vec2.mk (On64.n 100 1) (On64.n 0 1)) None).
Proof.
  assert (H1 : (List.length (PhysicsEngine.forceHistory On64.one_region)
                <= PhysicsEngine.historyLength On64.one_region)%nat)
    by (cbn; lia).
  assert (H2 : (1 <= PhysicsEngine.historyLength On64.one_region)%nat)
    by (cbn; lia).
  split; [exact H1|]. split; [exact H2|].
  exact (proj1 (proj2
           (proj2 (proj2 (proj2 (force_history_fifo (num := float))))
              On64.one_region (Vec2.mk (On64.n 100 1) (On64.n 0 1)) None
              H1 H2))).
Defined.

Lemma knead_mirrors_witness :
  exists region,
    nth_error (PhysicsEngine.regions On64.two_regions) 1 = Some region
    /\ let e' :=
         fst (update On64.two_regions (Vec2.mk (On64.n 1 1) (On64.n 0 1))
                (Some "kneadLeft"%string)) in
       let entry := delayed_entry (PhysicsEngine.forceHistory e') region in
       ForceEntry.patternId entry = Some "kneadLeft"%string
       /\ Nat.odd 1 = true
       /\ nth_error (PhysicsEngine.regions e') 1
          = Some (region_step_spec On64.two_regions region
                    (neg (ForceEntry.x entry)) (ForceEntry.y entry)).
Proof.
  destruct (nth_error (PhysicsEngine.regions On64.two_regions) 1)
    as [region|] eqn:Hi; [|discriminate].
  exists region. split; [reflexivity|].
  assert (Hk : ForceEntry.patternId
                 (delayed_entry
                    (PhysicsEngine.forceHistory
                       (fst (update On64.two_regions
                               (Vec2.mk (On64.n 1 1) (On64.n 0 1))
                               (Some "kneadLeft"%string))))
                    region)
               = Some "kneadLeft"%string).
  { vm_compute in Hi. injection Hi as <-. reflexivity. }
  split; [exact Hk|]. split; [reflexivity|].
  exact (proj1 (knead_mirrors_odd_regions (num := float) On64.two_regions
                  (Vec2.mk (On64.n 1 1) (On64.n 0 1))
                  (Some "kneadLeft"%string) 1%nat region Hi)
           (or_introl Hk) eq_refl).
Defined.

Lemma startPress_replaces_witness :
  JSMap.get 0 (PhysicsEngine.pressPoints OnR.pressing)
  = Some (PressPoint.mk (5 / 10) (5 / 10) (int 0) (int 1))
  /\ JSMap.get 0
       (PhysicsEngine.pressPoints (startPress OnR.pressing 0 (1 / 10) (9 / 10)))
     = Some (PressPoint.mk (1 / 10) (9 / 10) (int 0) (int 1)).
Proof.
  assert (H : JSMap.get 0 (PhysicsEngine.pressPoints OnR.pressing)
              = Some (PressPoint.mk (5 / 10) (5 / 10) (int 0) (int 1)))
    by reflexivity.
  split; [exact H|].
  exact (proj1 (startPress_replaces_existing (num := R) OnR.pressing 0%Z
                  (1 / 10) (9 / 10) _ H)).
Defined.

End Witnesses.

(** * More of the code *)

(** ** The vertex grid and the array of samples *)

Section Grid.

Context {num : Type} {JSN : JSNumber num}.

Local Open Scope js_scope.

Implicit Types (e : PhysicsEngine.t num).

Lemma flat_map_rows {A B} (f : A -> list B) (n : nat) (l : list A) :
  (forall a, List.length (f a) = n) ->
  List.length (flat_map f l) = (List.length l * n)%nat
  /\ (forall i j a,
        nth_error l i = Some a -> (j < n)%nat ->
        nth_error (flat_map f l) (i * n + j) = nth_error (f a) j).
Proof.
  intros Hn. induction l as [|a0 l [IHlen IHnth]]; cbn [flat_map].
  - split; [reflexivity|]. intros i j a Hi. destruct i; discriminate.
  - split.
    + rewrite length_app, IHlen, Hn. reflexivity.
    + intros i j a Hi Hj. destruct i as [|i]; cbn in Hi.
      * injection Hi as ->. cbn [Nat.mul Nat.add].
        apply nth_error_app1. now rewrite Hn.
      * rewrite nth_error_app2 by (rewrite Hn; cbn; lia).
        rewrite Hn.
        replace (S i * n + j - n)%nat with (i * n + j)%nat by (cbn; lia).
        now apply IHnth.
Qed.

(** The vertex that [initVertices] builds in column [x] of row [y]. *)
Lemma initVertices_row e (y : nat) :
  List.length
    (List.map
       (fun x =>
          Vertex.mk
            (int (Z.of_nat x) / int (Z.of_nat (PhysicsEngine.gridSizeX e)))
            (int (Z.of_nat y) / int (Z.of_nat (PhysicsEngine.gridSizeY e)))
            (int 0) (int 0))
       (seq 0 (S (PhysicsEngine.gridSizeX e))))
  = S (PhysicsEngine.gridSizeX e).
Proof. now rewrite length_map, length_seq. Qed.

(** X1.  [initVertices()] builds [(gridSizeX + 1) * (gridSizeY + 1)] vertices,
    row by row: the vertex of column [x] in row [y] is at index
    [y * (gridSizeX + 1) + x], has base [(x / gridSizeX, y / gridSizeY)]
    and no displacement.  Nothing else of the engine changes. *)
Theorem initVertices_row_major :
  forall e,
    let X := PhysicsEngine.gridSizeX e in
    let Y := PhysicsEngine.gridSizeY e in
    List.length (PhysicsEngine.vertices (initVertices e))
    = ((X + 1) * (Y + 1))%nat
    /\ (forall x y,
          (x <= X)%nat -> (y <= Y)%nat ->
          nth_error (PhysicsEngine.vertices (initVertices e)) (y * (X + 1) + x)
          = Some (Vertex.mk
                    (int (Z.of_nat x) / int (Z.of_nat X))
                    (int (Z.of_nat y) / int (Z.of_nat Y))
                    (int 0) (int 0)))
    /\ PhysicsEngine.regions (initVertices e) = PhysicsEngine.regions e
    /\ PhysicsEngine.pressPoints (initVertices e) = PhysicsEngine.pressPoints e
    /\ PhysicsEngine.forceHistory (initVertices e) = PhysicsEngine.forceHistory e.
Proof.
  intros e X Y.
  unfold initVertices.
  cbn [PhysicsEngine.vertices PhysicsEngine.with_vertices PhysicsEngine.regions
       PhysicsEngine.pressPoints PhysicsEngine.forceHistory].
  destruct (flat_map_rows
              (fun y =>
                 List.map
                   (fun x =>
                      Vertex.mk
                        (int (Z.of_nat x) / int (Z.of_nat (PhysicsEngine.gridSizeX e)))
                        (int (Z.of_nat y) / int (Z.of_nat (PhysicsEngine.gridSizeY e)))
                        (int 0) (int 0))
                   (seq 0 (S (PhysicsEngine.gridSizeX e))))
              (S (PhysicsEngine.gridSizeX e))
              (seq 0 (S (PhysicsEngine.gridSizeY e)))
              (initVertices_row e)) as [Hlen Hnth].
  split.
  { rewrite Hlen, length_seq. fold X Y. lia. }
  split; [|repeat split].
  intros x y Hx Hy.
  replace (X + 1)%nat with (S (PhysicsEngine.gridSizeX e)) by (unfold X; lia).
  rewrite (Hnth y x y).
  - rewrite nth_error_map, nth_error_seq.
    destruct (Nat.ltb_spec x (S (PhysicsEngine.gridSizeX e))) as [_|Hge];
      [reflexivity | unfold X in Hx; lia].
  - rewrite nth_error_seq.
    destruct (Nat.ltb_spec y (S (PhysicsEngine.gridSizeY e))) as [_|Hge];
      [reflexivity | unfold Y in Hy; lia].
  - unfold X in Hx. lia.
Qed.

Lemma vertexDisplacement_base e (v : Vertex.t num) :
  Sample.x (vertexDisplacement e v) = Vertex.baseX v
  /\ Sample.y (vertexDisplacement e v) = Vertex.baseY v.
Proof.
  unfold vertexDisplacement.
  destruct (fold_left _ (PhysicsEngine.regions e) _) as [[dx0 dy0] w].
  destruct (fold_left _ (PhysicsEngine.pressPoints e) _) as [dx1 dy1].
  split; reflexivity.
Qed.

Lemma samples_follow_vertices e :
  List.map (fun s => (Sample.x s, Sample.y s)) (calculateVertexDisplacements e)
  = List.map (fun v => (Vertex.baseX v, Vertex.baseY v)) (PhysicsEngine.vertices e).
Proof.
  unfold calculateVertexDisplacements. rewrite map_map.
  apply map_ext. intros v.
  destruct (vertexDisplacement_base e v) as [-> ->]. reflexivity.
Qed.

(** X2.  The arrays [update], [applyForceAtPosition] and [getDisplacements]
    return hold one sample for each vertex, in the order of the
    vertices, with the base coordinates of the vertex as [x] and [y];
    and the two calls leave the vertices and the grid sizes as they
    were. *)
Theorem samples_one_per_vertex :
  forall e force patternId posX posY,
    let base v := (Vertex.baseX v, Vertex.baseY v) in
    let xy (s : Sample.t num) := (Sample.x s, Sample.y s) in
    List.map xy (getDisplacements e) = List.map base (PhysicsEngine.vertices e)
    /\ List.map xy (snd (update e force patternId))
       = List.map base (PhysicsEngine.vertices e)
    /\ List.map xy (snd (applyForceAtPosition e force posX posY))
       = List.map base (PhysicsEngine.vertices e)
    /\ PhysicsEngine.vertices (fst (update e force patternId))
       = PhysicsEngine.vertices e
    /\ PhysicsEngine.vertices (fst (applyForceAtPosition e force posX posY))
       = PhysicsEngine.vertices e
    /\ List.length (snd (update e force patternId))
       = List.length (PhysicsEngine.vertices e).
Proof.
  intros e force patternId posX posY base xy.
  assert (Hu : List.map xy (snd (update e force patternId))
               = List.map base (PhysicsEngine.vertices e)).
  { change (snd (update e force patternId))
      with (calculateVertexDisplacements (fst (update e force patternId))).
    unfold xy. rewrite samples_follow_vertices. reflexivity. }
  split; [apply samples_follow_vertices|].
  split; [exact Hu|].
  split.
  { change (snd (applyForceAtPosition e force posX posY))
      with (calculateVertexDisplacements
              (fst (applyForceAtPosition e force posX posY))).
    unfold xy. rewrite samples_follow_vertices. reflexivity. }
  split; [reflexivity|]. split; [reflexivity|].
  rewrite <- (length_map xy), Hu. apply length_map.
Qed.

End Grid.

(** ** The list of regions *)

Section RegionList.

Context {num : Type} {JSN : JSNumber num}.

Local Open Scope js_scope.

Implicit Types (e : PhysicsEngine.t num).

(** X3.  [removeRegion(index)] with an index outside [0 .. length - 1] does
    nothing.  Otherwise it takes out the region at [index]: one region
    fewer, the regions before it stay at their indices and those after
    it move down by one, each as it was ([delayFrames] and [phaseOffset],
    set from the index at creation, included); the force history, unlike
    with [clearRegions], is kept. *)
Theorem removeRegion_splices :
  forall e (index : Z),
    let n := List.length (PhysicsEngine.regions e) in
    let e' := removeRegion e index in
    ((index < 0 \/ Z.of_nat n <= index)%Z -> e' = e)
    /\ ((0 <= index < Z.of_nat n)%Z ->
        List.length (PhysicsEngine.regions e') = (n - 1)%nat
        /\ (forall i, (i < Z.to_nat index)%nat ->
              nth_error (PhysicsEngine.regions e') i
              = nth_error (PhysicsEngine.regions e) i)
        /\ (forall i, (Z.to_nat index <= i)%nat ->
              nth_error (PhysicsEngine.regions e') i
              = nth_error (PhysicsEngine.regions e) (S i))
        /\ PhysicsEngine.forceHistory e' = PhysicsEngine.forceHistory e
        /\ PhysicsEngine.forceHistory (clearRegions e) = []
        /\ PhysicsEngine.regions (clearRegions e) = []).
Proof.
  intros e index n e'. unfold e', removeRegion. fold n.
  split.
  - intros Hout.
    destruct (Z.leb_spec 0 index), (Z.ltb_spec index (Z.of_nat n));
      cbn [andb]; try reflexivity; lia.
  - intros Hin.
    destruct (Z.leb_spec 0 index); [|lia].
    destruct (Z.ltb_spec index (Z.of_nat n)); [|lia].
    cbn [andb PhysicsEngine.regions PhysicsEngine.with_regions
         PhysicsEngine.forceHistory].
    set (k := Z.to_nat index).
    assert (Hk : (k < n)%nat) by (unfold k; lia).
    assert (Hf : List.length (firstn k (PhysicsEngine.regions e)) = k)
      by (rewrite length_firstn; fold n; lia).
    split.
    { rewrite length_app, Hf, length_skipn. fold n. lia. }
    split.
    { intros i Hi. rewrite nth_error_app1 by lia.
      rewrite nth_error_firstn.
      destruct (Nat.ltb_spec i k); [reflexivity | lia]. }
    split.
    { intros i Hi. rewrite nth_error_app2 by lia.
      rewrite Hf, nth_error_skipn. f_equal. lia. }
    repeat split.
Qed.

Lemma addRegion_regions e rect u1 u2 coin :
  PhysicsEngine.regions (addRegion e rect u1 u2 coin)
  = PhysicsEngine.regions e
    ++ [created_region e (List.length (PhysicsEngine.regions e)) rect u1 u2 coin].
Proof. reflexivity. Qed.

(** Regions added one after the other, from an engine [e0]. *)
Lemma fold_addRegion (rects : list (Rect.t num * (num * num * bool))) :
  forall e0,
    let e' :=
      fold_left (fun e1 '(r, (u1, u2, coin)) => addRegion e1 r u1 u2 coin)
        rects e0 in
    let n0 := List.length (PhysicsEngine.regions e0) in
    List.length (PhysicsEngine.regions e') = (n0 + List.length rects)%nat
    /\ (forall i, (i < n0)%nat ->
          nth_error (PhysicsEngine.regions e') i
          = nth_error (PhysicsEngine.regions e0) i)
    /\ (forall i rect u1 u2 coin,
          nth_error rects i = Some (rect, (u1, u2, coin)) ->
          nth_error (PhysicsEngine.regions e') (n0 + i)
          = Some (created_region e0 (n0 + i) rect u1 u2 coin))
    /\ PhysicsEngine.forceHistory e' = PhysicsEngine.forceHistory e0
    /\ PhysicsEngine.pressPoints e' = PhysicsEngine.pressPoints e0.
Proof.
  induction rects as [|[r [[u1 u2] coin]] rects IH]; intros e0; cbn zeta.
  - cbn [fold_left List.length]. split; [lia|]. split; [reflexivity|].
    split; [|split; reflexivity].
    intros i rect a b c Hi. destruct i; discriminate.
  - cbn [fold_left].
    destruct (IH (addRegion e0 r u1 u2 coin)) as (L & Hold & Hnew & Hh & Hp).
    cbn zeta in L, Hold, Hnew, Hh, Hp.
    rewrite addRegion_regions, length_app in L, Hold, Hnew.
    cbn [List.length] in L, Hold, Hnew.
    set (n0 := List.length (PhysicsEngine.regions e0)) in *.
    split; [cbn [List.length]; lia|].
    split.
    { intros i Hi. rewrite Hold by lia. now apply nth_error_app1. }
    split; [|split; assumption].
    intros i rect a b c Hi. destruct i as [|i]; cbn in Hi.
    + injection Hi as -> -> -> ->.
      rewrite Nat.add_0_r, Hold by lia.
      rewrite nth_error_app2 by (fold n0; lia). fold n0.
      rewrite Nat.sub_diag. reflexivity.
    + replace (n0 + S i)%nat with (n0 + 1 + i)%nat by lia.
      rewrite (Hnew i rect a b c Hi). reflexivity.
Qed.

(** X4.  [setRegions(regions)] replaces the regions and empties the force
    history.  The engine then has as many regions as boxes were given,
    in their order; the one at index [i] has the box given at [i], is at
    rest, has its stiffness and damping within the variation of its two
    draws, and [delayFrames = 3 i + coin], whatever regions the engine
    had before.  Press points are kept. *)
Theorem setRegions_rebuilds :
  forall e (rects : list (Rect.t num * (num * num * bool))),
    let e' := setRegions e rects in
    List.length (PhysicsEngine.regions e') = List.length rects
    /\ PhysicsEngine.forceHistory e' = []
    /\ PhysicsEngine.pressPoints e' = PhysicsEngine.pressPoints e
    /\ (forall i rect u1 u2 coin,
          nth_error rects i = Some (rect, (u1, u2, coin)) ->
          nth_error (PhysicsEngine.regions e') i
          = Some (created_region e i rect u1 u2 coin)
          /\ Region.delayFrames (created_region e i rect u1 u2 coin)
             = (3 * i + (if coin then 1 else 0))%nat).
Proof.
  intros e rects e'. unfold e', setRegions.
  destruct (fold_addRegion rects (clearRegions e)) as (L & _ & Hnew & Hh & Hp).
  cbn zeta in L, Hnew, Hh, Hp. cbn [clearRegions PhysicsEngine.regions
    PhysicsEngine.with_regions PhysicsEngine.with_forceHistory List.length
    Nat.add] in L, Hnew.
  split; [exact L|]. split; [exact Hh|]. split; [exact Hp|].
  intros i rect u1 u2 coin Hi.
  split; [|cbn; lia].
  rewrite (Hnew i rect u1 u2 coin Hi). reflexivity.
Qed.

End RegionList.

(** ** What the calls leave alone *)

Section Frames.

Context {num : Type} {JSN : JSNumber num}.

Local Open Scope js_scope.

Implicit Types (e : PhysicsEngine.t num).

Lemma same_but_motion_moved (r : Region.t num) p v :
  same_but_motion r (Region.moved r p v).
Proof. repeat split. Qed.

Lemma same_but_velocity_moved (r : Region.t num) v :
  same_but_velocity r (Region.moved r (Region.position r) v).
Proof. repeat split. Qed.

Lemma same_but_velocity_refl (r : Region.t num) : same_but_velocity r r.
Proof. repeat split. Qed.

Lemma region_step_spec_same e (r : Region.t num) fx fy :
  same_but_motion r (region_step_spec e r fx fy).
Proof.
  unfold region_step_spec.
  destruct (axis_step_spec _ _ _ _ _ fx), (axis_step_spec _ _ _ _ _ fy).
  apply same_but_motion_moved.
Qed.

Lemma update_regions_same e h rs :
  forall i, Forall2 same_but_motion rs (update_regions e h i rs).
Proof.
  induction rs as [|r rs IH]; intros i; cbn [update_regions]; constructor.
  - rewrite update_region_spec. apply region_step_spec_same.
  - apply IH.
Qed.

(** X5.  [update] and [applyForceAtPosition] never add, drop or reorder
    regions, and of a region they change nothing but its position and
    its velocity: the ellipse, the stiffness, the damping, the delay and
    the phase offset stay.  Neither call changes a parameter of the
    engine; [applyForceAtPosition] also leaves the force history alone. *)
Theorem steps_keep_regions_and_parameters :
  forall e force patternId posX posY,
    let e1 := fst (update e force patternId) in
    let e2 := fst (applyForceAtPosition e force posX posY) in
    Forall2 same_but_motion (PhysicsEngine.regions e) (PhysicsEngine.regions e1)
    /\ Forall2 same_but_motion (PhysicsEngine.regions e) (PhysicsEngine.regions e2)
    /\ getPhysicsParams e1 = getPhysicsParams e
    /\ getPhysicsParams e2 = getPhysicsParams e
    /\ (PhysicsEngine.mass e1, PhysicsEngine.maxDisplacement e1,
        PhysicsEngine.historyLength e1, PhysicsEngine.pressSpeed e1,
        PhysicsEngine.releaseSpeed e1)
       = (PhysicsEngine.mass e, PhysicsEngine.maxDisplacement e,
          PhysicsEngine.historyLength e, PhysicsEngine.pressSpeed e,
          PhysicsEngine.releaseSpeed e)
    /\ (PhysicsEngine.mass e2, PhysicsEngine.maxDisplacement e2,
        PhysicsEngine.historyLength e2, PhysicsEngine.pressSpeed e2,
        PhysicsEngine.releaseSpeed e2)
       = (PhysicsEngine.mass e, PhysicsEngine.maxDisplacement e,
          PhysicsEngine.historyLength e, PhysicsEngine.pressSpeed e,
          PhysicsEngine.releaseSpeed e)
    /\ PhysicsEngine.forceHistory e2 = PhysicsEngine.forceHistory e
    /\ PhysicsEngine.pressPoints e1 = PhysicsEngine.pressPoints e2.
Proof.
  intros e force patternId posX posY e1 e2.
  split.
  { unfold e1, update.
    cbn [fst PhysicsEngine.regions PhysicsEngine.with_regions
         PhysicsEngine.with_forceHistory].
    change (PhysicsEngine.regions (updatePressState e))
      with (PhysicsEngine.regions e).
    apply update_regions_same. }
  split.
  { unfold e2, applyForceAtPosition.
    cbn [fst PhysicsEngine.regions PhysicsEngine.with_regions].
    change (PhysicsEngine.regions (updatePressState e))
      with (PhysicsEngine.regions e).
    induction (PhysicsEngine.regions e) as [|r rs IH]; cbn [List.map];
      constructor; [|exact IH].
    rewrite applyForceAtPosition_region_spec.
    destruct (ltb _ _); [apply region_step_spec_same | repeat split]. }
  repeat split.
Qed.

(** X6.  [updatePressPosition(id, x, y)] does nothing when no point has the
    id.  Otherwise it moves the point of [id] to [(x, y)], keeping its
    depth and its target depth; the ids, their order and every other
    point stay, and so does the rest of the engine. *)
Theorem updatePressPosition_moves_known_point :
  forall e id x y,
    let e' := updatePressPosition e id x y in
    (JSMap.get id (PhysicsEngine.pressPoints e) = None -> e' = e)
    /\ (forall point,
          JSMap.get id (PhysicsEngine.pressPoints e) = Some point ->
          JSMap.get id (PhysicsEngine.pressPoints e')
          = Some (PressPoint.mk x y (PressPoint.depth point)
                    (PressPoint.targetDepth point))
          /\ JSMap.keys (PhysicsEngine.pressPoints e')
             = JSMap.keys (PhysicsEngine.pressPoints e)
          /\ (forall id', id' <> id ->
                JSMap.get id' (PhysicsEngine.pressPoints e')
                = JSMap.get id' (PhysicsEngine.pressPoints e))
          /\ PhysicsEngine.regions e' = PhysicsEngine.regions e
          /\ PhysicsEngine.forceHistory e' = PhysicsEngine.forceHistory e).
Proof.
  intros e id x y e'. unfold e', updatePressPosition.
  split.
  - intros Hnone. now rewrite Hnone.
  - intros point Hget. rewrite Hget.
    cbn [PhysicsEngine.pressPoints PhysicsEngine.with_pressPoints
         PhysicsEngine.regions PhysicsEngine.forceHistory].
    split; [apply get_set_same|].
    split; [eapply keys_set_present; eassumption|].
    split; [intros id' Hne; now apply get_set_other|].
    split; reflexivity.
Qed.

Lemma retune_regions_same e random rs :
  forall k, Forall2 same_but_tuning rs (retune_regions e random k rs).
Proof.
  induction rs as [|r rs IH]; intros k; cbn [retune_regions]; constructor.
  - repeat split.
  - apply IH.
Qed.

(** X7.  [setPhysicsParams(params)] then [getPhysicsParams()] gives, field by
    field, the value of [params] where it has one and the former value
    where it has none; [resetToDefaults()] then [getPhysicsParams()]
    gives the defaults 0.08, 0.92, 4, 0.3 and 0.05.  Both calls keep the
    regions in number and order and change nothing of a region but its
    stiffness and damping: a region in motion keeps its position and
    velocity.  They leave the mass, [maxDisplacement], the force history
    and the press points alone. *)
Theorem setPhysicsParams_round_trip :
  forall e (params : PhysicsParams.t num) (random : nat -> num),
    let e1 := setPhysicsParams e params random in
    let e2 := resetToDefaults e random in
    let pick (given : option num) (current : num) :=
      Some match given with Some v => v | None => current end in
    getPhysicsParams e1
    = PhysicsParams.mk
        (pick (PhysicsParams.baseStiffness params) (PhysicsEngine.baseStiffness e))
        (pick (PhysicsParams.baseDamping params) (PhysicsEngine.baseDamping e))
        (pick (PhysicsParams.sensitivity params) (PhysicsEngine.sensitivity e))
        (pick (PhysicsParams.posThreshold params) (PhysicsEngine.posThreshold e))
        (pick (PhysicsParams.velThreshold params) (PhysicsEngine.velThreshold e))
    /\ getPhysicsParams e2
       = PhysicsParams.mk (Some (lit 8 100)) (Some (lit 92 100)) (Some (int 4))
           (Some (lit 3 10)) (Some (lit 5 100))
    /\ Forall2 same_but_tuning (PhysicsEngine.regions e) (PhysicsEngine.regions e1)
    /\ Forall2 same_but_tuning (PhysicsEngine.regions e) (PhysicsEngine.regions e2)
    /\ (PhysicsEngine.mass e1, PhysicsEngine.maxDisplacement e1,
        PhysicsEngine.forceHistory e1, PhysicsEngine.pressPoints e1)
       = (PhysicsEngine.mass e, PhysicsEngine.maxDisplacement e,
          PhysicsEngine.forceHistory e, PhysicsEngine.pressPoints e)
    /\ (PhysicsEngine.mass e2, PhysicsEngine.maxDisplacement e2,
        PhysicsEngine.forceHistory e2, PhysicsEngine.pressPoints e2)
       = (PhysicsEngine.mass e, PhysicsEngine.maxDisplacement e,
          PhysicsEngine.forceHistory e, PhysicsEngine.pressPoints e).
Proof.
  intros e params random e1 e2 pick.
  split; [reflexivity|]. split; [reflexivity|].
  split; [apply retune_regions_same|].
  split; [apply retune_regions_same|].
  split; reflexivity.
Qed.

Context {JST : JSTrig num}.

Lemma endPress_regions_same (point : PressPoint.t num) magnitude random rs :
  forall k,
    Forall2 same_but_velocity rs
      (endPress_regions point magnitude random k rs).
Proof.
  induction rs as [|r rs IH]; intros k; cbn [endPress_regions]; [constructor|].
  cbn zeta. destruct (ltb _ _); constructor;
    try apply IH; try apply same_but_velocity_moved;
    apply same_but_velocity_refl.
Qed.

Lemma applyImpulse_regions_same ix iy random rs :
  forall k,
    Forall2 same_but_velocity rs (applyImpulse_regions ix iy random k rs).
Proof.
  induction rs as [|r rs IH]; intros k; cbn [applyImpulse_regions];
    constructor; [apply same_but_velocity_moved | apply IH].
Qed.

(** X8.  [endPress(id)] does nothing when no point has the id.  Otherwise the
    point of [id] keeps its position and its depth and gets target depth
    0; the ids, their order and every other point stay.  Like
    [applyImpulse], it keeps the regions in number and order and changes
    nothing of a region but its velocity: positions are not touched.
    Both calls leave the force history alone. *)
Theorem endPress_and_applyImpulse_touch_velocities_only :
  forall e id (random : nat -> num) (impulse : Vec2.t num),
    let e1 := endPress e id random in
    let e2 := applyImpulse e impulse random in
    (JSMap.get id (PhysicsEngine.pressPoints e) = None -> e1 = e)
    /\ (forall point,
          JSMap.get id (PhysicsEngine.pressPoints e) = Some point ->
          JSMap.get id (PhysicsEngine.pressPoints e1)
          = Some (PressPoint.mk (PressPoint.x point) (PressPoint.y point)
                    (PressPoint.depth point) (int 0))
          /\ JSMap.keys (PhysicsEngine.pressPoints e1)
             = JSMap.keys (PhysicsEngine.pressPoints e)
          /\ (forall id', id' <> id ->
                JSMap.get id' (PhysicsEngine.pressPoints e1)
                = JSMap.get id' (PhysicsEngine.pressPoints e)))
    /\ Forall2 same_but_velocity (PhysicsEngine.regions e) (PhysicsEngine.regions e1)
    /\ Forall2 same_but_velocity (PhysicsEngine.regions e) (PhysicsEngine.regions e2)
    /\ PhysicsEngine.forceHistory e1 = PhysicsEngine.forceHistory e
    /\ PhysicsEngine.forceHistory e2 = PhysicsEngine.forceHistory e
    /\ PhysicsEngine.pressPoints e2 = PhysicsEngine.pressPoints e.
Proof.
  intros e id random impulse e1 e2. unfold e1, e2, endPress.
  destruct (JSMap.get id (PhysicsEngine.pressPoints e)) as [point|] eqn:Hget.
  - cbn [PhysicsEngine.pressPoints PhysicsEngine.with_pressPoints
         PhysicsEngine.with_regions PhysicsEngine.regions
         PhysicsEngine.forceHistory].
    split; [discriminate|].
    split.
    { intros p [= <-].
      split; [apply get_set_same|].
      split; [eapply keys_set_present; eassumption|].
      intros id' Hne. now apply get_set_other. }
    split; [apply endPress_regions_same|].
    split; [apply applyImpulse_regions_same|].
    repeat split.
  - split; [reflexivity|].
    split; [discriminate|].
    split.
    { induction (PhysicsEngine.regions e); constructor;
        [apply same_but_velocity_refl | assumption]. }
    split; [apply applyImpulse_regions_same|].
    repeat split.
Qed.

End Frames.

(** ** Kicks and tuning, in exact arithmetic *)

Section Kicks.

Local Open Scope R_scope.

Implicit Types (e : PhysicsEngine.t R) (region : Region.t R).

Lemma or0_R (v : R) : or0 v = v.
Proof.
  unfold or0. cbn. unfold Rltb.
  destruct (Rlt_dec v (0 / 1)), (Rlt_dec (0 / 1) v); cbn;
    try reflexivity; lra.
Qed.

Lemma endPress_regions_kick (point : PressPoint.t R) (M : R) random rs :
  0 <= M ->
  forall k,
    Forall2
      (fun r r' =>
         Rabs (Vec2.x (Region.velocity r') - Vec2.x (Region.velocity r))
         <= 5 / 10 * M * release_reach point r
         /\ - (13 / 10) * M * release_reach point r
            <= Vec2.y (Region.velocity r') - Vec2.y (Region.velocity r)
            <= - (3 / 10) * M * release_reach point r)
      rs (endPress_regions point M random k rs).
Proof.
  intros HM. induction rs as [|r rs IH]; intros k; cbn [endPress_regions];
    [constructor|].
  cbn zeta.
  assert (Hreach :
            Math_max (int 0)
              (sub (int 1)
                 (mul
                    (Math_sqrt
                       (add
                          (mul (sub (PressPoint.x point)
                                  (add (Region.x r) (div (Region.width r) (int 2))))
                             (sub (PressPoint.x point)
                                (add (Region.x r) (div (Region.width r) (int 2)))))
                          (mul (sub (PressPoint.y point)
                                  (add (Region.y r) (div (Region.height r) (int 2))))
                             (sub (PressPoint.y point)
                                (add (Region.y r) (div (Region.height r) (int 2)))))))
                    (int 2)))
            = release_reach point r).
  { unfold release_reach. cbn.
    replace (0 / 1) with 0 by lra. replace (2 / 1) with 2 by lra.
    replace (1 / 1) with 1 by lra. f_equal. ring. }
  rewrite Hreach.
  assert (H0 : 0 <= release_reach point r) by apply Rmax_l.
  set (q := release_reach point r) in *.
  destruct (ltb (int 0) q) eqn:Hlt; constructor; try apply IH; fold q.
  - cbn.
    match goal with |- context [cos ?a] => pose proof (COS_bound a) as Hc;
      pose proof (SIN_bound a) as Hs; set (c := cos a) in *; set (s := sin a) in * end.
    assert (Hp : 0 <= M * q) by (apply Rmult_le_pos; assumption).
    replace (Vec2.x (Region.velocity r) + c * M * q * (5 / 10)
             - Vec2.x (Region.velocity r))
      with (c * (M * q) * (5 / 10)) by ring.
    replace (Vec2.y (Region.velocity r) + s * M * q * (5 / 10)
             - M * q * (8 / 10) - Vec2.y (Region.velocity r))
      with ((M * q) * (s * (5 / 10) - 8 / 10)) by ring.
    replace (5 / 10 * M * q) with (5 / 10 * (M * q)) by ring.
    replace (- (13 / 10) * M * q) with (- (13 / 10) * (M * q)) by ring.
    replace (- (3 / 10) * M * q) with (- (3 / 10) * (M * q)) by ring.
    set (p := M * q) in *.
    split.
    + apply Rabs_le. split; nra.
    + split; nra.
  - assert (Hq : q = 0).
    { cbn in Hlt. unfold Rltb in Hlt.
      destruct (Rlt_dec (0 / 1) q); [discriminate | lra]. }
    rewrite Hq. rewrite !Rminus_diag, Rabs_R0. lra.
Qed.

(** X9.  In exact arithmetic, [endPress(id)] on a point of depth [>= 0] kicks
    each region by an amount set by [reach = max(0, 1 - 2 dist)], [dist]
    being the distance of the press point from the centre of the region,
    and by [M = 8 depth]: the X velocity moves by at most
    [0.5 M reach], and the Y velocity by between [-1.3 M reach] and
    [-0.3 M reach], so it never increases.  A region whose centre is 0.5
    or more from the point keeps its velocity, and a press of depth 0
    kicks no region. *)
Theorem endPress_kick_is_bounded_and_upward :
  forall e id point (random : nat -> R),
    JSMap.get id (PhysicsEngine.pressPoints e) = Some point ->
    0 <= PressPoint.depth point ->
    let M := 8 * PressPoint.depth point in
    Forall2
      (fun r r' =>
         let reach := release_reach point r in
         0 <= reach <= 1
         /\ Rabs (Vec2.x (Region.velocity r') - Vec2.x (Region.velocity r))
            <= 5 / 10 * M * reach
         /\ - (13 / 10) * M * reach
            <= Vec2.y (Region.velocity r') - Vec2.y (Region.velocity r)
            <= - (3 / 10) * M * reach
         /\ Vec2.y (Region.velocity r') <= Vec2.y (Region.velocity r))
      (PhysicsEngine.regions e) (PhysicsEngine.regions (endPress e id random)).
Proof.
  intros e id point random Hget Hd M.
  unfold endPress. rewrite Hget.
  cbn [PhysicsEngine.regions PhysicsEngine.with_regions
       PhysicsEngine.with_pressPoints].
  assert (HM : 0 <= M) by (unfold M; lra).
  replace (mul (PressPoint.depth point) (int 8)) with M
    by (unfold M; cbn; lra).
  pose proof (endPress_regions_kick point M random (PhysicsEngine.regions e)
                HM 0%nat) as Hk.
  induction Hk as [|r r' rs rs' [Hx Hy] _ IH]; constructor; [|exact IH].
  cbn zeta.
  assert (Hr : 0 <= release_reach point r <= 1).
  { split; [apply Rmax_l|]. unfold release_reach. cbn zeta.
    apply Rmax_lub; [lra|].
    match goal with |- context [sqrt ?a] => pose proof (sqrt_pos a) end.
    lra. }
  split; [exact Hr|]. split; [exact Hx|]. split; [exact Hy|].
  nra.
Qed.

Lemma Rabs_le_0 (d : R) : Rabs d <= 0 -> d = 0.
Proof. unfold Rabs. destruct (Rcase_abs d); lra. Qed.

Lemma rotated_bound (a b c s : R) :
  -1 <= c <= 1 -> -1 <= s <= 1 ->
  Rabs (a * c - b * s * (3 / 10)) <= Rabs a + 3 / 10 * Rabs b
  /\ Rabs (b * c + a * s * (3 / 10)) <= Rabs b + 3 / 10 * Rabs a.
Proof.
  intros Hc Hs.
  assert (Hac : Rabs (a * c) <= Rabs a).
  { rewrite Rabs_mult. pose proof (Rabs_pos a).
    assert (Rabs c <= 1) by (apply Rabs_le; lra). nra. }
  assert (Hbc : Rabs (b * c) <= Rabs b).
  { rewrite Rabs_mult. pose proof (Rabs_pos b).
    assert (Rabs c <= 1) by (apply Rabs_le; lra). nra. }
  assert (Has : Rabs (a * s) <= Rabs a).
  { rewrite Rabs_mult. pose proof (Rabs_pos a).
    assert (Rabs s <= 1) by (apply Rabs_le; lra). nra. }
  assert (Hbs : Rabs (b * s) <= Rabs b).
  { rewrite Rabs_mult. pose proof (Rabs_pos b).
    assert (Rabs s <= 1) by (apply Rabs_le; lra). nra. }
  split.
  - replace (a * c - b * s * (3 / 10)) with (a * c + - (3 / 10) * (b * s))
      by ring.
    eapply Rle_trans; [apply Rabs_triang|].
    rewrite (Rabs_mult (- (3 / 10))), Rabs_Ropp, (Rabs_right (3 / 10)) by lra.
    lra.
  - replace (b * c + a * s * (3 / 10)) with (b * c + 3 / 10 * (a * s)) by ring.
    eapply Rle_trans; [apply Rabs_triang|].
    rewrite (Rabs_mult (3 / 10)), (Rabs_right (3 / 10)) by lra.
    lra.
Qed.

Lemma applyImpulse_regions_bound (ix iy : R) (random : nat -> R) rs :
  (forall k, 0 <= random k <= 1) ->
  forall k,
    Forall2
      (fun r r' =>
         Rabs (Vec2.x (Region.velocity r') - Vec2.x (Region.velocity r))
         <= 13 / 10 * (Rabs ix + 3 / 10 * Rabs iy)
         /\ Rabs (Vec2.y (Region.velocity r') - Vec2.y (Region.velocity r))
            <= 13 / 10 * (Rabs iy + 3 / 10 * Rabs ix))
      rs (applyImpulse_regions ix iy random k rs).
Proof.
  intros Hrand. induction rs as [|r rs IH]; intros k;
    cbn [applyImpulse_regions]; constructor; [|apply IH].
  cbn.
  match goal with |- context [cos ?a] =>
    destruct (rotated_bound ix iy (cos a) (sin a) (COS_bound a) (SIN_bound a))
      as [Hx Hy];
    set (c := cos a) in *; set (s := sin a) in *
  end.
  pose proof (Hrand (S k)) as Hm.
  set (m := 7 / 10 + random (S k) * (6 / 10)).
  assert (Hm' : 0 <= m <= 13 / 10) by (unfold m; lra).
  pose proof (Rabs_pos ix). pose proof (Rabs_pos iy).
  split.
  - replace (Vec2.x (Region.velocity r) + (ix * c - iy * s * (3 / 10)) * m
             - Vec2.x (Region.velocity r))
      with ((ix * c - iy * s * (3 / 10)) * m) by ring.
    rewrite Rabs_mult, (Rabs_right m) by lra.
    pose proof (Rabs_pos (ix * c - iy * s * (3 / 10))). nra.
  - replace (Vec2.y (Region.velocity r) + (iy * c + ix * s * (3 / 10)) * m
             - Vec2.y (Region.velocity r))
      with ((iy * c + ix * s * (3 / 10)) * m) by ring.
    rewrite Rabs_mult, (Rabs_right m) by lra.
    pose proof (Rabs_pos (iy * c + ix * s * (3 / 10))). nra.
Qed.

(** X10.  In exact arithmetic, with every draw of [Math.random()] in
    [[0, 1]], [applyImpulse(impulse)] moves the velocity of each region
    by at most [1.3 (|ix| + 0.3 |iy|)] on the X axis and
    [1.3 (|iy| + 0.3 |ix|)] on the Y axis, where
    [(ix, iy) = impulse * sensitivity * 5]; a zero impulse leaves every
    velocity as it is. *)
Theorem applyImpulse_kick_is_bounded :
  forall e (impulse : Vec2.t R) (random : nat -> R),
    (forall k, 0 <= random k <= 1) ->
    let ix := Vec2.x impulse * PhysicsEngine.sensitivity e * 5 in
    let iy := Vec2.y impulse * PhysicsEngine.sensitivity e * 5 in
    Forall2
      (fun r r' =>
         Rabs (Vec2.x (Region.velocity r') - Vec2.x (Region.velocity r))
         <= 13 / 10 * (Rabs ix + 3 / 10 * Rabs iy)
         /\ Rabs (Vec2.y (Region.velocity r') - Vec2.y (Region.velocity r))
            <= 13 / 10 * (Rabs iy + 3 / 10 * Rabs ix)
         /\ (Vec2.x impulse = 0 -> Vec2.y impulse = 0 ->
             Region.velocity r' = Region.velocity r))
      (PhysicsEngine.regions e)
      (PhysicsEngine.regions (applyImpulse e impulse random)).
Proof.
  intros e impulse random Hrand ix iy.
  unfold applyImpulse.
  cbn [PhysicsEngine.regions PhysicsEngine.with_regions].
  rewrite !or0_R.
  replace (mul (mul (Vec2.x impulse) (PhysicsEngine.sensitivity e)) (int 5))
    with ix by (unfold ix; cbn; lra).
  replace (mul (mul (Vec2.y impulse) (PhysicsEngine.sensitivity e)) (int 5))
    with iy by (unfold iy; cbn; lra).
  pose proof (applyImpulse_regions_bound ix iy random
                (PhysicsEngine.regions e) Hrand 0%nat) as Hb.
  induction Hb as [|r r' rs rs' [Hx Hy] _ IH]; constructor; [|exact IH].
  split; [exact Hx|]. split; [exact Hy|].
  intros Zx Zy.
  assert (Hix : ix = 0) by (unfold ix; rewrite Zx; ring).
  assert (Hiy : iy = 0) by (unfold iy; rewrite Zy; ring).
  rewrite Hix, Hiy, Rabs_R0 in Hx, Hy.
  assert (Ex : Vec2.x (Region.velocity r') = Vec2.x (Region.velocity r)).
  { apply Rminus_diag_uniq. apply Rabs_le_0. lra. }
  assert (Ey : Vec2.y (Region.velocity r') = Vec2.y (Region.velocity r)).
  { apply Rminus_diag_uniq. apply Rabs_le_0. lra. }
  destruct (Region.velocity r'), (Region.velocity r). cbn in *. now subst.
Qed.

End Kicks.

Section Tuning.

Local Open Scope R_scope.

Implicit Types (e : PhysicsEngine.t R).

Lemma retune_regions_range e (random : nat -> R) rs :
  0 <= PhysicsEngine.baseStiffness e ->
  0 <= PhysicsEngine.baseDamping e ->
  (forall k, 0 <= random k <= 1) ->
  forall k,
    Forall
      (fun r =>
         7 / 10 * PhysicsEngine.baseStiffness e <= Region.stiffness r
         <= 13 / 10 * PhysicsEngine.baseStiffness e
         /\ 95 / 100 * PhysicsEngine.baseDamping e <= Region.damping r
            <= 105 / 100 * PhysicsEngine.baseDamping e)
      (retune_regions e random k rs).
Proof.
  intros Hs Hd Hrand. induction rs as [|r rs IH]; intros k;
    cbn [retune_regions]; constructor; [|apply IH].
  cbn. pose proof (Hrand k). pose proof (Hrand (S k)). split; nra.
Qed.

(** X11.  In exact arithmetic, with the draws of [Math.random()] in [[0, 1]]
    and non-negative base values: the region [addRegion] creates, and
    every region after [setPhysicsParams] or [resetToDefaults], has its
    stiffness within 0.7 to 1.3 times the base stiffness and its damping
    within 0.95 to 1.05 times the base damping.  After
    [resetToDefaults()] that is a stiffness in [[0.056, 0.104]] and a
    damping in [[0.874, 0.966]], below 1. *)
Theorem tuning_stays_within_variation :
  forall e (random : nat -> R),
    (forall k, 0 <= random k <= 1) ->
    (forall i rect u1 u2 coin,
       0 <= PhysicsEngine.baseStiffness e ->
       0 <= PhysicsEngine.baseDamping e ->
       0 <= u1 <= 1 -> 0 <= u2 <= 1 ->
       let r := created_region e i rect u1 u2 coin in
       7 / 10 * PhysicsEngine.baseStiffness e <= Region.stiffness r
       <= 13 / 10 * PhysicsEngine.baseStiffness e
       /\ 95 / 100 * PhysicsEngine.baseDamping e <= Region.damping r
          <= 105 / 100 * PhysicsEngine.baseDamping e)
    /\ (forall params,
          let e' := setPhysicsParams e params random in
          0 <= PhysicsEngine.baseStiffness e' ->
          0 <= PhysicsEngine.baseDamping e' ->
          Forall
            (fun r =>
               7 / 10 * PhysicsEngine.baseStiffness e' <= Region.stiffness r
               <= 13 / 10 * PhysicsEngine.baseStiffness e'
               /\ 95 / 100 * PhysicsEngine.baseDamping e' <= Region.damping r
                  <= 105 / 100 * PhysicsEngine.baseDamping e')
            (PhysicsEngine.regions e'))
    /\ Forall
         (fun r =>
            56 / 1000 <= Region.stiffness r <= 104 / 1000
            /\ 874 / 1000 <= Region.damping r <= 966 / 1000)
         (PhysicsEngine.regions (resetToDefaults e random)).
Proof.
  intros e random Hrand.
  split.
  { intros i rect u1 u2 coin Hs Hd Hu1 Hu2 r. unfold r. cbn. split; nra. }
  split.
  { intros params e' Hs Hd. unfold e', setPhysicsParams in *.
    cbn [PhysicsEngine.regions PhysicsEngine.with_regions
         PhysicsEngine.baseStiffness PhysicsEngine.baseDamping] in *.
    match goal with
    | |- Forall _ (retune_regions ?e1 _ _ _) =>
        exact (retune_regions_range e1 random _ Hs Hd Hrand 0%nat)
    end. }
  unfold resetToDefaults.
  cbn [PhysicsEngine.regions PhysicsEngine.with_regions].
  match goal with
  | |- Forall _ (retune_regions ?e1 _ _ ?rs) =>
      assert (Hs : 0 <= PhysicsEngine.baseStiffness e1) by (cbn; lra);
      assert (Hd : 0 <= PhysicsEngine.baseDamping e1) by (cbn; lra);
      pose proof (retune_regions_range e1 random rs Hs Hd Hrand 0%nat) as Hr
  end.
  eapply Forall_impl; [|exact Hr].
  intros r. cbn. lra.
Qed.

End Tuning.

Section GridSizes.

Local Open Scope R_scope.

Implicit Types (e : PhysicsEngine.t R).

Lemma initVertices_length {num : Type} {JSN : JSNumber num}
    (e : PhysicsEngine.t num) :
  List.length (PhysicsEngine.vertices (initVertices e))
  = ((PhysicsEngine.gridSizeX e + 1) * (PhysicsEngine.gridSizeY e + 1))%nat.
Proof.
  unfold initVertices. cbn [PhysicsEngine.vertices PhysicsEngine.with_vertices].
  destruct (flat_map_rows _ _ (seq 0 (S (PhysicsEngine.gridSizeY e)))
              (initVertices_row e)) as [-> _].
  rewrite length_seq. lia.
Qed.

Lemma Rround_near (v : R) : - (1 / 2) < IZR (Rround v) - v <= 1 / 2.
Proof.
  unfold Rround. destruct (base_Int_part (v + 1 / 2)). lra.
Qed.

Lemma Rround_ge (n : Z) (v : R) : IZR n <= v -> (n <= Rround v)%Z.
Proof.
  intros Hn. pose proof (Rround_near v) as [Hlo _].
  assert (H : (n - 1 < Rround v)%Z).
  { apply lt_IZR. rewrite minus_IZR. lra. }
  lia.
Qed.

Lemma INR_to_nat (z : Z) : (0 <= z)%Z -> INR (Z.to_nat z) = IZR z.
Proof. intros Hz. now rewrite INR_IZR_INZ, Z2Nat.id. Qed.

Lemma round_at_least (d : nat) (v : R) :
  INR d <= v ->
  (d <= Z.to_nat (Rround v))%nat
  /\ - (1 / 2) < INR (Z.to_nat (Rround v)) - v <= 1 / 2.
Proof.
  intros Hd. rewrite INR_IZR_INZ in Hd.
  pose proof (Rround_ge (Z.of_nat d) v Hd) as Hge.
  split; [lia|].
  rewrite INR_to_nat by lia. apply Rround_near.
Qed.

Lemma nat_within_half (x d : nat) :
  - (1 / 2) < INR x - INR d <= 1 / 2 -> x = d.
Proof.
  intros [Hlo Hhi].
  assert (x < d + 1)%nat by (apply INR_lt; rewrite plus_INR; cbn; lra).
  assert (d < x + 1)%nat by (apply INR_lt; rewrite plus_INR; cbn; lra).
  lia.
Qed.

(** [calculateGridSize()] in exact arithmetic. *)
Lemma calculateGridSize_exact e :
  calculateGridSize e
  = if Rle_dec 1 (PhysicsEngine.aspectRatio e) then
      with_grid e (PhysicsEngine.gridDensity e)
        (Z.to_nat
           (Rround (INR (PhysicsEngine.gridDensity e)
                    * PhysicsEngine.aspectRatio e)))
        (PhysicsEngine.gridDensity e) (PhysicsEngine.aspectRatio e)
    else
      with_grid e (PhysicsEngine.gridDensity e) (PhysicsEngine.gridDensity e)
        (Z.to_nat
           (Rround (INR (PhysicsEngine.gridDensity e)
                    / PhysicsEngine.aspectRatio e)))
        (PhysicsEngine.aspectRatio e).
Proof.
  unfold calculateGridSize. cbn. unfold Rgeb.
  replace (IZR (Z.of_nat (PhysicsEngine.gridDensity e)) / 1)
    with (INR (PhysicsEngine.gridDensity e))
    by (rewrite <- INR_IZR_INZ; lra).
  destruct (Rle_dec (1 / 1) (PhysicsEngine.aspectRatio e)),
    (Rle_dec 1 (PhysicsEngine.aspectRatio e)); try reflexivity; lra.
Qed.

Lemma calculateGridSize_sizes e :
  0 < PhysicsEngine.aspectRatio e ->
  let e' := calculateGridSize e in
  let d := PhysicsEngine.gridDensity e in
  let a := PhysicsEngine.aspectRatio e in
  PhysicsEngine.gridDensity e' = d
  /\ PhysicsEngine.aspectRatio e' = a
  /\ Nat.min (PhysicsEngine.gridSizeX e') (PhysicsEngine.gridSizeY e') = d
  /\ (1 <= a ->
      PhysicsEngine.gridSizeY e' = d
      /\ - (1 / 2) < INR (PhysicsEngine.gridSizeX e') - INR d * a <= 1 / 2)
  /\ (a < 1 ->
      PhysicsEngine.gridSizeX e' = d
      /\ - (1 / 2) < INR (PhysicsEngine.gridSizeY e') - INR d / a <= 1 / 2)
  /\ PhysicsEngine.regions e' = PhysicsEngine.regions e
  /\ PhysicsEngine.pressPoints e' = PhysicsEngine.pressPoints e
  /\ PhysicsEngine.forceHistory e' = PhysicsEngine.forceHistory e.
Proof.
  intros Ha e' d a. subst e' d a. rewrite calculateGridSize_exact.
  pose proof (pos_INR (PhysicsEngine.gridDensity e)) as Hd.
  destruct (Rle_dec 1 (PhysicsEngine.aspectRatio e)) as [Hge|Hlt]; cbn.
  - assert (Hv : INR (PhysicsEngine.gridDensity e)
                 <= INR (PhysicsEngine.gridDensity e)
                    * PhysicsEngine.aspectRatio e) by nra.
    destruct (round_at_least _ _ Hv) as [Hle Hnear].
    repeat split; try tauto; try lra; try lia.
  - assert (Hlt' : PhysicsEngine.aspectRatio e < 1) by lra.
    assert (Hv : INR (PhysicsEngine.gridDensity e)
                 <= INR (PhysicsEngine.gridDensity e)
                    / PhysicsEngine.aspectRatio e).
    { apply Rmult_le_reg_r with (PhysicsEngine.aspectRatio e); [exact Ha|].
      unfold Rdiv. rewrite Rmult_assoc, Rinv_l by lra. nra. }
    destruct (round_at_least _ _ Hv) as [Hle Hnear].
    repeat split; try tauto; try lra; try lia.
Qed.

(** X13.  For an engine with a positive aspect ratio, [setGridDensity(density)]
    sets the density to [density] clamped into [[5, 40]] (so a value in
    that range is taken as it is), keeps it as the cell count of the
    shorter side, rebuilds [(gridSizeX + 1) * (gridSizeY + 1)] vertices,
    at least 36 of them, and keeps the aspect ratio, the regions, the
    press points and the force history. *)
Theorem setGridDensity_clamps_and_rebuilds :
  forall e density,
    0 < PhysicsEngine.aspectRatio e ->
    let e' := setGridDensity e density in
    let d := PhysicsEngine.gridDensity e' in
    let X := PhysicsEngine.gridSizeX e' in
    let Y := PhysicsEngine.gridSizeY e' in
    (5 <= d <= 40)%nat
    /\ ((5 <= density <= 40)%Z -> Z.of_nat d = density)
    /\ ((density < 5)%Z -> d = 5%nat)
    /\ ((40 < density)%Z -> d = 40%nat)
    /\ Nat.min X Y = d
    /\ List.length (PhysicsEngine.vertices e') = ((X + 1) * (Y + 1))%nat
    /\ (36 <= List.length (PhysicsEngine.vertices e'))%nat
    /\ PhysicsEngine.aspectRatio e' = PhysicsEngine.aspectRatio e
    /\ PhysicsEngine.regions e' = PhysicsEngine.regions e
    /\ PhysicsEngine.pressPoints e' = PhysicsEngine.pressPoints e
    /\ PhysicsEngine.forceHistory e' = PhysicsEngine.forceHistory e.
Proof.
  intros e density Ha e' d X Y.
  set (e1 := with_grid e (Z.to_nat (Z.max 5 (Z.min 40 density)))
               (PhysicsEngine.gridSizeX e) (PhysicsEngine.gridSizeY e)
               (PhysicsEngine.aspectRatio e)).
  destruct (calculateGridSize_sizes e1 Ha)
    as (Hd & Har & Hmin & _ & _ & Hr & Hp & Hf).
  change (PhysicsEngine.gridDensity (calculateGridSize e1)) with d in *.
  change (PhysicsEngine.gridSizeX (calculateGridSize e1)) with X in *.
  change (PhysicsEngine.gridSizeY (calculateGridSize e1)) with Y in *.
  change (PhysicsEngine.gridDensity e1)
    with (Z.to_nat (Z.max 5 (Z.min 40 density))) in *.
  pose proof (initVertices_length (calculateGridSize e1)) as Hlen.
  change (PhysicsEngine.vertices (initVertices (calculateGridSize e1)))
    with (PhysicsEngine.vertices e') in Hlen.
  change (PhysicsEngine.gridSizeX (calculateGridSize e1)) with X in Hlen.
  change (PhysicsEngine.gridSizeY (calculateGridSize e1)) with Y in Hlen.
  assert (Hrange : (5 <= d <= 40)%nat) by lia.
  split; [exact Hrange|].
  split; [intros H; lia|]. split; [intros H; lia|]. split; [intros H; lia|].
  split; [rewrite Hd; exact Hmin|]. split; [exact Hlen|].
  split; [rewrite Hlen; nia|].
  split; [exact Har|]. split; [exact Hr|]. split; [exact Hp|exact Hf].
Qed.

End GridSizes.

Section RoundedGrid.

Local Open Scope R_scope.

Variables (fl : R -> R) (eps : R).

Hypothesis rounding : standard_model fl eps.

Implicit Types (e : PhysicsEngine.t R).

Lemma fl_nat (n : nat) : (n <= 1000)%nat -> fl (INR n) = INR n.
Proof.
  intros Hn. destruct rounding as (_ & _ & Hint & _).
  rewrite INR_IZR_INZ. apply Hint. lia.
Qed.

Lemma fl_near (x : R) :
  / 10 ^ 15 <= x <= 10 ^ 15 -> x * (1 - eps) <= fl x <= x * (1 + eps).
Proof.
  intros Hx. destruct rounding as (_ & _ & _ & Herr).
  specialize (Herr x Hx). unfold Rabs in Herr.
  destruct (Rcase_abs (fl x - x)); lra.
Qed.

Lemma thousandth : / 1000 = 1 / 1000.
Proof. lra. Qed.

Lemma tiny : / 10 ^ 15 <= / 10 ^ 9 /\ / 10 ^ 9 <= 1 /\ 0 < / 10 ^ 9.
Proof.
  assert (H9 : 0 < 10 ^ 9) by (apply pow_lt; lra).
  assert (H15 : (10 : R) ^ 15 = 10 ^ 9 * 10 ^ 6) by (rewrite <- pow_add; reflexivity).
  assert (H6 : 1 <= 10 ^ 6) by (apply pow_R1_Rle; lra).
  assert (Hi : 0 < / 10 ^ 9) by now apply Rinv_0_lt_compat.
  split; [|split; [|exact Hi]].
  - rewrite H15. rewrite Rinv_mult.
    assert (0 < / 10 ^ 6 <= 1).
    { split; [apply Rinv_0_lt_compat; lra|].
      rewrite <- Rinv_1. apply Rinv_le_contravar; lra. }
    nra.
  - rewrite <- Rinv_1. apply Rinv_le_contravar; [lra|].
    apply pow_R1_Rle. lra.
Qed.

(** Two roundings in a row stay within three relative errors. *)
Lemma two_roundings (m u v : R) :
  0 <= m ->
  m * (1 - eps) <= u <= m * (1 + 3 / 2 * eps) ->
  u * (1 - eps) <= v <= u * (1 + eps) ->
  m - 3 * eps * m <= v <= m + 3 * eps * m.
Proof.
  intros Hm [Hul Huh] [Hvl Hvh].
  destruct rounding as (Heps & _). rewrite thousandth in Heps.
  assert (Hme : 0 <= m * eps) by (apply Rmult_le_pos; lra).
  assert (Hsq : 0 <= m * eps * eps <= m * eps * (1 / 1000)).
  { split; [apply Rmult_le_pos; lra|].
    apply Rmult_le_compat_l; lra. }
  assert (H1 : m * (1 - eps) * (1 - eps) <= u * (1 - eps))
    by (apply Rmult_le_compat_r; lra).
  assert (H2 : u * (1 + eps) <= m * (1 + 3 / 2 * eps) * (1 + eps))
    by (apply Rmult_le_compat_r; lra).
  split; lra.
Qed.

(** [calculateGridSize()] with rounded results. *)
Lemma calculateGridSize_rounded e :
  (PhysicsEngine.gridDensity e <= 1000)%nat ->
  @calculateGridSize R (Rounded_JSNumber fl) R_JSRound e
  = if Rle_dec 1 (PhysicsEngine.aspectRatio e) then
      with_grid e (PhysicsEngine.gridDensity e)
        (Z.to_nat
           (Rround (fl (INR (PhysicsEngine.gridDensity e)
                        * PhysicsEngine.aspectRatio e))))
        (PhysicsEngine.gridDensity e) (PhysicsEngine.aspectRatio e)
    else
      with_grid e (PhysicsEngine.gridDensity e) (PhysicsEngine.gridDensity e)
        (Z.to_nat
           (Rround (fl (INR (PhysicsEngine.gridDensity e)
                        / PhysicsEngine.aspectRatio e))))
        (PhysicsEngine.aspectRatio e).
Proof.
  intros Hd. unfold calculateGridSize. cbn. unfold Rgeb.
  replace (IZR (Z.of_nat (PhysicsEngine.gridDensity e)) / 1)
    with (INR (PhysicsEngine.gridDensity e))
    by (rewrite <- INR_IZR_INZ; lra).
  replace (1 / 1) with (INR 1) by (cbn; lra).
  rewrite !fl_nat by lia. cbn [INR].
  destruct (Rle_dec 1 (PhysicsEngine.aspectRatio e)); reflexivity.
Qed.

(** The longer side of a landscape image: the density times the
    ratio [r >= 1] of the sides, rounded three times. *)
Lemma longer_side_wide (d : nat) (r : R) :
  (1 <= d <= 1000)%nat -> 1 <= r <= 10 ^ 9 ->
  let X := Z.to_nat (Rround (fl (INR d * fl r))) in
  1 <= fl r
  /\ (d <= X)%nat
  /\ Rabs (INR X - INR d * r) <= 1 / 2 + 3 * eps * (INR d * r)
  /\ (r = 1 -> X = d).
Proof.
  intros Hd Hr X.
  destruct rounding as (Heps & Hmono & _ & _).
  rewrite thousandth in Heps.
  destruct tiny as (T1 & T2 & T3).
  assert (H9 : (10 : R) ^ 9 = 1000000000) by (simpl; lra).
  assert (H15 : (10 : R) ^ 15 = 1000000000000000) by (simpl; lra).
  assert (HD : 1 <= INR d <= 1000).
  { split.
    - replace 1 with (INR 1) by reflexivity. apply le_INR. lia.
    - replace 1000 with (INR 1000) by (rewrite INR_IZR_INZ; reflexivity).
      apply le_INR. lia. }
  assert (Ha : r * (1 - eps) <= fl r <= r * (1 + eps))
    by (apply fl_near; lra).
  assert (Ha1 : 1 <= fl r).
  { replace 1 with (fl (INR 1)) by (rewrite fl_nat by lia; reflexivity).
    apply Hmono. cbn. lra. }
  set (a := fl r) in *.
  assert (Hp : INR d * a * (1 - eps) <= fl (INR d * a)
               <= INR d * a * (1 + eps)).
  { apply fl_near. split; nra. }
  assert (Hpd : INR d <= fl (INR d * a)).
  { apply Rle_trans with (fl (INR d)); [rewrite fl_nat by lia; lra|].
    apply Hmono. nra. }
  destruct (round_at_least d (fl (INR d * a)) Hpd) as [HX Hnear].
  fold X in HX, Hnear.
  assert (Hm : 0 <= INR d * r) by (apply Rmult_le_pos; lra).
  assert (Hu : INR d * r * (1 - eps) <= INR d * a
               <= INR d * r * (1 + 3 / 2 * eps)).
  { assert (INR d * (r * (1 - eps)) <= INR d * a <= INR d * (r * (1 + eps)))
      by (split; apply Rmult_le_compat_l; lra).
    assert (0 <= INR d * r * eps) by (apply Rmult_le_pos; lra).
    lra. }
  pose proof (two_roundings _ _ _ Hm Hu Hp) as Hv.
  split; [exact Ha1|]. split; [exact HX|]. split.
  - apply Rabs_le. lra.
  - intros ->. assert (Hone : a = 1).
    { unfold a. replace 1 with (INR 1) by reflexivity.
      rewrite fl_nat by lia. reflexivity. }
    unfold X. fold a. rewrite Hone, Rmult_1_r, fl_nat by lia.
    apply nat_within_half. rewrite INR_to_nat.
    + apply Rround_near.
    + apply (Rround_ge 0). apply pos_INR.
Qed.

(** The longer side of a portrait image: the density divided by the
    rounded ratio [r < 1] of the sides. *)
Lemma longer_side_tall (d : nat) (r : R) :
  (1 <= d <= 1000)%nat -> / 10 ^ 9 <= r < 1 ->
  fl r <= 1
  /\ (fl r < 1 ->
      let Y := Z.to_nat (Rround (fl (INR d / fl r))) in
      (d <= Y)%nat
      /\ Rabs (INR Y - INR d * / r) <= 1 / 2 + 3 * eps * (INR d * / r))
  /\ (1 <= fl r ->
      Z.to_nat (Rround (fl (INR d * fl r))) = d
      /\ Rabs (INR d - INR d * / r) <= 1 / 2 + 3 * eps * (INR d * / r)).
Proof.
  intros Hd Hr.
  destruct rounding as (Heps & Hmono & _ & _).
  rewrite thousandth in Heps.
  destruct tiny as (T1 & T2 & T3).
  assert (H9 : / (10 : R) ^ 9 = 1 / 1000000000) by (simpl; lra).
  assert (H15 : (10 : R) ^ 15 = 1000000000000000) by (simpl; lra).
  assert (HD : 1 <= INR d <= 1000).
  { split.
    - replace 1 with (INR 1) by reflexivity. apply le_INR. lia.
    - replace 1000 with (INR 1000) by (rewrite INR_IZR_INZ; reflexivity).
      apply le_INR. lia. }
  assert (Hr0 : 0 < r) by lra.
  assert (Ha : r * (1 - eps) <= fl r <= r * (1 + eps)).
  { apply fl_near. split; [lra|]. rewrite H15. lra. }
  assert (Ha1 : fl r <= 1).
  { replace 1 with (fl (INR 1)) by (rewrite fl_nat by lia; reflexivity).
    apply Hmono. cbn. lra. }
  set (a := fl r) in *.
  assert (Ha0 : 0 < a) by nra.
  assert (Hir : r * / r = 1) by (apply Rinv_r; lra).
  assert (Hia : a * / a = 1) by (apply Rinv_r; lra).
  assert (Hirp : 1 < / r).
  { rewrite <- Rinv_1. apply Rinv_lt_contravar; lra. }
  assert (Hiap : 1 <= / a).
  { rewrite <- Rinv_1. apply Rinv_le_contravar; lra. }
  assert (Hirb : / r <= 1000000000).
  { apply Rmult_le_reg_l with r; [exact Hr0|]. rewrite Hir. nra. }
  split; [exact Ha1|]. split.
  - intros Hlt Y.
    set (q := INR d / a).
    assert (Hq : q = INR d * / a) by reflexivity.
    (* / a is within the relative error of / r *)
    assert (Hia_lo : / r * (1 - eps) <= / a).
    { apply Rmult_le_reg_l with (a * r); [nra|].
      replace (a * r * (/ r * (1 - eps))) with (a * (r * / r) * (1 - eps))
        by ring.
      replace (a * r * / a) with (r * (a * / a)) by ring.
      rewrite Hir, Hia. nra. }
    assert (Hia_hi : / a * (1 - eps) <= / r).
    { apply Rmult_le_reg_l with (a * r); [nra|].
      replace (a * r * (/ a * (1 - eps))) with (r * (a * / a) * (1 - eps))
        by ring.
      replace (a * r * / r) with (a * (r * / r)) by ring.
      rewrite Hir, Hia. nra. }
    assert (Hia_b : / a <= 1001001002).
    { assert (/ a * eps <= / a * (1 / 1000))
        by (apply Rmult_le_compat_l; lra).
      lra. }
    assert (Hfq : q * (1 - eps) <= fl q <= q * (1 + eps)).
    { apply fl_near. rewrite Hq, H15. split; [|nra].
      apply Rle_trans with 1; [lra | nra]. }
    assert (Hqd : INR d <= fl q).
    { apply Rle_trans with (fl (INR d)); [rewrite fl_nat by lia; lra|].
      apply Hmono. rewrite Hq. nra. }
    destruct (round_at_least d (fl q) Hqd) as [HY Hnear].
    change (Z.to_nat (Rround (fl q))) with Y in HY, Hnear.
    split; [exact HY|].
    assert (Hprod : 0 <= INR d * / r) by (apply Rmult_le_pos; lra).
    assert (Hia_up : / a <= / r * (1 + 3 / 2 * eps)).
    { assert (H1 : / a * (1 - eps) * (1 + 3 / 2 * eps)
                   <= / r * (1 + 3 / 2 * eps))
        by (apply Rmult_le_compat_r; lra).
      assert (H2 : 0 <= / a * eps) by (apply Rmult_le_pos; lra).
      assert (H3 : / a * eps * eps <= / a * eps * (1 / 1000))
        by (apply Rmult_le_compat_l; lra).
      lra. }
    assert (Hu : INR d * / r * (1 - eps) <= INR d * / a
                 <= INR d * / r * (1 + 3 / 2 * eps)).
    { assert (INR d * (/ r * (1 - eps)) <= INR d * / a
              <= INR d * (/ r * (1 + 3 / 2 * eps)))
        by (split; apply Rmult_le_compat_l; lra).
      lra. }
    pose proof (two_roundings (INR d * / r) (INR d * / a) (fl q) Hprod Hu Hfq)
      as Hv.
    apply Rabs_le. lra.
  - intros Hge. assert (Hone : a = 1) by lra.
    split.
    + rewrite Hone, Rmult_1_r, fl_nat by lia.
      apply nat_within_half. rewrite INR_to_nat.
      * apply Rround_near.
      * apply (Rround_ge 0). apply pos_INR.
    + assert (Hir1 : / r <= 1 + 2 * eps).
      { apply Rmult_le_reg_l with r; [exact Hr0|]. rewrite Hir.
        assert (0 <= r * eps) by (apply Rmult_le_pos; lra).
        assert (r * eps * eps <= r * eps * (1 / 1000))
          by (apply Rmult_le_compat_l; lra).
        rewrite Hone in Ha. lra. }
      assert (H1 : INR d * 1 <= INR d * / r <= INR d * (1 + 2 * eps))
        by (split; apply Rmult_le_compat_l; lra).
      assert (H2 : eps * (INR d * 1) <= eps * (INR d * / r))
        by (apply Rmult_le_compat_l; lra).
      apply Rabs_le. lra.
Qed.

Lemma sides_ratio (width height : R) :
  0 < width -> 0 < height ->
  (height <= width <-> 1 <= width / height)
  /\ width / height * / (width / height) = 1
  /\ / (width / height) = height / width.
Proof.
  intros Hw Hh.
  assert (Hi : 0 < / height) by now apply Rinv_0_lt_compat.
  assert (Hhh : height * / height = 1) by (apply Rinv_r; lra).
  split; [|split].
  - unfold Rdiv. split; intros H; nra.
  - apply Rinv_r. unfold Rdiv. nra.
  - field. lra.
Qed.

Lemma setImageAspectRatio_rounded e (width height : R) :
  (1 <= PhysicsEngine.gridDensity e <= 1000)%nat ->
  1 <= width <= 10 ^ 9 -> 1 <= height <= 10 ^ 9 ->
  let e' :=
    @setImageAspectRatio R (Rounded_JSNumber fl) R_JSRound e width height in
  let d := PhysicsEngine.gridDensity e in
  let X := PhysicsEngine.gridSizeX e' in
  let Y := PhysicsEngine.gridSizeY e' in
  PhysicsEngine.gridDensity e' = d
  /\ PhysicsEngine.aspectRatio e' = fl (width / height)
  /\ Nat.min X Y = d
  /\ (height <= width ->
      Y = d
      /\ Rabs (INR X - INR d * (width / height))
         <= 1 / 2 + 3 * eps * (INR d * (width / height)))
  /\ (width < height ->
      X = d
      /\ Rabs (INR Y - INR d * (height / width))
         <= 1 / 2 + 3 * eps * (INR d * (height / width)))
  /\ (width = height -> X = d /\ Y = d)
  /\ List.length (PhysicsEngine.vertices e') = ((X + 1) * (Y + 1))%nat
  /\ PhysicsEngine.regions e' = PhysicsEngine.regions e
  /\ PhysicsEngine.pressPoints e' = PhysicsEngine.pressPoints e
  /\ PhysicsEngine.forceHistory e' = PhysicsEngine.forceHistory e.
Proof.
  intros Hd Hw Hh e' d X Y.
  set (e1 := @with_grid R e (PhysicsEngine.gridDensity e)
               (PhysicsEngine.gridSizeX e) (PhysicsEngine.gridSizeY e)
               (fl (width / height))).
  assert (He' : e' = @initVertices R (Rounded_JSNumber fl)
                       (@calculateGridSize R (Rounded_JSNumber fl) R_JSRound e1))
    by reflexivity.
  pose proof (@initVertices_length R (Rounded_JSNumber fl)
                (@calculateGridSize R (Rounded_JSNumber fl) R_JSRound e1))
    as Hlen.
  rewrite <- He' in Hlen.
  assert (HX : X = PhysicsEngine.gridSizeX
                     (@calculateGridSize R (Rounded_JSNumber fl) R_JSRound e1))
    by reflexivity.
  assert (HY : Y = PhysicsEngine.gridSizeY
                     (@calculateGridSize R (Rounded_JSNumber fl) R_JSRound e1))
    by reflexivity.
  rewrite <- HX, <- HY in Hlen. clearbody X Y.
  assert (Hfr : PhysicsEngine.regions e' = PhysicsEngine.regions e
                /\ PhysicsEngine.pressPoints e' = PhysicsEngine.pressPoints e
                /\ PhysicsEngine.forceHistory e' = PhysicsEngine.forceHistory e
                /\ PhysicsEngine.gridDensity e' = d
                /\ PhysicsEngine.aspectRatio e' = fl (width / height)).
  { rewrite He', (calculateGridSize_rounded e1) by (cbn; lia).
    destruct (Rle_dec 1 (PhysicsEngine.aspectRatio e1)); repeat split. }
  destruct Hfr as (Hr & Hp & Hf & Hden & Hasp).
  rewrite (calculateGridSize_rounded e1) in HX, HY by (cbn; lia).
  change (PhysicsEngine.aspectRatio e1) with (fl (width / height)) in HX, HY.
  change (PhysicsEngine.gridDensity e1) with d in HX, HY.
  destruct tiny as (T1 & T2 & T3).
  assert (H9 : (10 : R) ^ 9 = 1000000000) by (simpl; lra).
  assert (Hw0 : 0 < width) by lra. assert (Hh0 : 0 < height) by lra.
  destruct (sides_ratio width height Hw0 Hh0) as (Hone & Hrr & Hinv).
  set (r := width / height) in *.
  assert (Hih : 0 < / height <= 1).
  { split; [now apply Rinv_0_lt_compat|].
    rewrite <- Rinv_1. apply Rinv_le_contravar; lra. }
  assert (Hr9 : / 10 ^ 9 <= r <= 10 ^ 9).
  { unfold r, Rdiv. rewrite H9. split.
    - apply Rmult_le_reg_r with height; [lra|].
      rewrite Rmult_assoc, Rinv_l by lra.
      assert (/ 1000000000 * height <= 1); [|lra].
      apply Rmult_le_reg_l with 1000000000; [lra|].
      rewrite <- Rmult_assoc, Rinv_r by lra. lra.
    - nra. }
  assert (Hcases :
            (height <= width ->
             Y = d
             /\ (d <= X)%nat
             /\ Rabs (INR X - INR d * r) <= 1 / 2 + 3 * eps * (INR d * r)
             /\ (r = 1 -> X = d))
            /\ (width < height ->
                X = d /\ (d <= Y)%nat
                /\ Rabs (INR Y - INR d * (height / width))
                   <= 1 / 2 + 3 * eps * (INR d * (height / width)))).
  { split.
    - intros Hwide. apply Hone in Hwide.
      destruct (longer_side_wide d r Hd (conj Hwide (proj2 Hr9)))
        as (Ha1 & HdX & Hb & Hsq).
      destruct (Rle_dec 1 (fl r)); [|contradiction].
      cbn in HX, HY. rewrite HX, HY.
      split; [reflexivity|]. split; [exact HdX|]. split; assumption.
    - intros Htall.
      assert (Hlt : r < 1).
      { apply Rnot_le_lt. intros H1. apply Hone in H1. lra. }
      destruct (longer_side_tall d r Hd (conj (proj1 Hr9) Hlt))
        as (Ha1 & Hbelow & Hat).
      rewrite <- Hinv.
      destruct (Rle_dec 1 (fl r)) as [Hge|Hnge]; cbn in HX, HY.
      + destruct (Hat Hge) as [Hxd Hb].
        rewrite HX, HY. split; [exact Hxd|]. split; [lia|]. exact Hb.
      + destruct (Hbelow (Rnot_le_lt _ _ Hnge)) as [HdY Hb].
        rewrite HX, HY. split; [reflexivity|]. split; assumption. }
  destruct Hcases as [Hwide Htall].
  split; [exact Hden|]. split; [exact Hasp|].
  split.
  { destruct (Rle_dec height width) as [H|H].
    - destruct (Hwide H) as (-> & HdX & _). lia.
    - destruct (Htall (Rnot_le_lt _ _ H)) as (-> & HdY & _). lia. }
  split.
  { intros H. destruct (Hwide H) as (Hy & _ & Hb & _). split; assumption. }
  split.
  { intros H. destruct (Htall H) as (Hx & _ & Hb). split; assumption. }
  split.
  { intros H. destruct Hwide as (Hy & _ & _ & Hsq); [lra|].
    split; [|exact Hy]. apply Hsq. unfold r. subst width. field. lra. }
  split; [exact Hlen|].
  split; [exact Hr|]. split; [exact Hp | exact Hf].
Qed.

End RoundedGrid.

Section ScaledSides.

Local Open Scope R_scope.

Lemma portraitR_sizes :
  PhysicsEngine.gridSizeX OnGrid.portraitR = 10%nat
  /\ PhysicsEngine.gridSizeY OnGrid.portraitR = 15%nat.
Proof.
  set (e1 := @with_grid R new_PhysicsEngine 10 10 10 (400 / 580)).
  assert (Ha : 0 < PhysicsEngine.aspectRatio e1) by (cbn; lra).
  destruct (calculateGridSize_sizes e1 Ha) as (_ & _ & _ & _ & Htall & _).
  destruct Htall as [HX HY]; [cbn; lra|].
  change (PhysicsEngine.gridSizeX (calculateGridSize e1))
    with (PhysicsEngine.gridSizeX OnGrid.portraitR) in HX.
  change (PhysicsEngine.gridSizeY (calculateGridSize e1))
    with (PhysicsEngine.gridSizeY OnGrid.portraitR) in HY.
  split; [exact HX|].
  change (PhysicsEngine.gridDensity e1) with 10%nat in HY.
  change (PhysicsEngine.aspectRatio e1) with (400 / 580) in HY.
  rewrite (INR_IZR_INZ 10) in HY. change (Z.of_nat 10) with 10%Z in HY.
  replace (10 / (400 / 580)) with (29 / 2) in HY by field.
  assert (14 < PhysicsEngine.gridSizeY OnGrid.portraitR)%nat
    by (apply INR_lt; rewrite (INR_IZR_INZ 14);
        change (Z.of_nat 14) with 14%Z; lra).
  assert (PhysicsEngine.gridSizeY OnGrid.portraitR < 16)%nat
    by (apply INR_lt; rewrite (INR_IZR_INZ 16);
        change (Z.of_nat 16) with 16%Z; lra).
  lia.
Qed.

(** X12.  [setImageAspectRatio(width, height)] in rounded arithmetic:
    every arithmetic result is rounded by [fl], a monotone rounding
    that is exact on the integers up to 2^53 and has relative error at
    most [eps <= 1/1000] (binary64 rounds to nearest with relative
    error 2^-53).  For sides between 1 and 10^9 and a density between
    1 and 1000 the call keeps the density as the cell count of the
    shorter side and gives the longer side the density scaled by the
    ratio of the sides, to within half a cell plus three relative
    errors; a square image gets a square grid.  It rebuilds
    [(gridSizeX + 1) * (gridSizeY + 1)] vertices and keeps the regions,
    the press points and the force history.  The half cell is attained:
    a 400 by 580 image at density 10 has the scaled side 14.5, which
    binary64 arithmetic rounds to 14 cells (165 vertices) and exact
    arithmetic to 15. *)
Theorem setImageAspectRatio_scales_longer_side :
  (forall (fl : R -> R) (eps : R),
      standard_model fl eps ->
      forall (e : PhysicsEngine.t R) (width height : R),
        (1 <= PhysicsEngine.gridDensity e <= 1000)%nat ->
        1 <= width <= 10 ^ 9 -> 1 <= height <= 10 ^ 9 ->
        let e' :=
          @setImageAspectRatio R (Rounded_JSNumber fl) R_JSRound
            e width height in
        let d := PhysicsEngine.gridDensity e in
        let X := PhysicsEngine.gridSizeX e' in
        let Y := PhysicsEngine.gridSizeY e' in
        PhysicsEngine.gridDensity e' = d
        /\ PhysicsEngine.aspectRatio e' = fl (width / height)
        /\ Nat.min X Y = d
        /\ (height <= width ->
            Y = d
            /\ Rabs (INR X - INR d * (width / height))
               <= 1 / 2 + 3 * eps * (INR d * (width / height)))
        /\ (width < height ->
            X = d
            /\ Rabs (INR Y - INR d * (height / width))
               <= 1 / 2 + 3 * eps * (INR d * (height / width)))
        /\ (width = height -> X = d /\ Y = d)
        /\ List.length (PhysicsEngine.vertices e') = ((X + 1) * (Y + 1))%nat
        /\ PhysicsEngine.regions e' = PhysicsEngine.regions e
        /\ PhysicsEngine.pressPoints e' = PhysicsEngine.pressPoints e
        /\ PhysicsEngine.forceHistory e' = PhysicsEngine.forceHistory e)
  /\ (PhysicsEngine.gridDensity OnGrid.portrait64,
      PhysicsEngine.gridSizeX OnGrid.portrait64,
      PhysicsEngine.gridSizeY OnGrid.portrait64,
      List.length (PhysicsEngine.vertices OnGrid.portrait64))
     = (10, 10, 14, 165)%nat
  /\ (PhysicsEngine.gridSizeX OnGrid.portraitR,
      PhysicsEngine.gridSizeY OnGrid.portraitR)
     = (10, 15)%nat.
Proof.
  split; [|split].
  - intros fl eps Hfl e width height Hd Hw Hh.
    apply (setImageAspectRatio_rounded fl eps Hfl e width height Hd Hw Hh).
  - vm_compute. reflexivity.
  - destruct portraitR_sizes as [-> ->]. reflexivity.
Qed.

End ScaledSides.


(** *** What every sequence of calls keeps *)

Section Reachable.

Context {num : Type} {JSN : JSNumber num} {JST : JSTrig num}.

Local Open Scope js_scope.

Implicit Types (e : PhysicsEngine.t num) (c : @Call num).

Lemma calls_invariant (I : PhysicsEngine.t num -> Prop) :
  (forall e c, I e -> I (call e c)) ->
  forall cs e, I e -> I (calls e cs).
Proof.
  intros Hstep. induction cs as [|c cs IH]; intros e He; [exact He|].
  cbn [calls fold_left]. apply IH, Hstep, He.
Qed.

Lemma keys_set_nodup {V} (m : JSMap.t V) k v :
  NoDup (JSMap.keys m) -> NoDup (JSMap.keys (JSMap.set k v m)).
Proof.
  destruct (JSMap.get k m) as [old|] eqn:Hget.
  - now rewrite (keys_set_present m k v old Hget).
  - intros Hnd. revert Hget Hnd. unfold JSMap.keys.
    induction m as [|[k0 v0] m IH]; cbn; intros Hget Hnd.
    + constructor; [intros []|constructor].
    + destruct (Z.eqb k k0) eqn:E; [discriminate|]. cbn.
      inversion Hnd as [|? ? Hnotin Hnd']; subst.
      constructor; [|now apply IH].
      intros Hin. apply Hnotin. clear - Hin E.
      induction m as [|[k1 v1] m IHm]; cbn in *.
      * destruct Hin as [Hin|[]]. apply Z.eqb_neq in E. congruence.
      * destruct (Z.eqb k k1); cbn in Hin; [exact Hin|].
        destruct Hin as [Hin|Hin]; [now left | right; now apply IHm].
Qed.

Lemma undisplaced_rows (fx fy : nat -> num) (xs ys : list nat) :
  List.map
    (fun v => Vertex.mk (Vertex.baseX v) (Vertex.baseY v) (int 0) (int 0))
    (flat_map
       (fun y => List.map (fun x => Vertex.mk (fx x) (fy y) (int 0) (int 0)) xs)
       ys)
  = flat_map
      (fun y => List.map (fun x => Vertex.mk (fx x) (fy y) (int 0) (int 0)) xs)
      ys.
Proof.
  induction ys as [|y ys IH]; cbn [flat_map List.map]; [reflexivity|].
  rewrite map_app, IH, map_map. reflexivity.
Qed.

Lemma vertices_of_new_are_still :
  List.map
    (fun v => Vertex.mk (Vertex.baseX v) (Vertex.baseY v) (int 0) (int 0))
    (PhysicsEngine.vertices (@new_PhysicsEngine num JSN))
  = PhysicsEngine.vertices (@new_PhysicsEngine num JSN).
Proof.
  exact (undisplaced_rows
           (fun x => int (Z.of_nat x) / int (Z.of_nat 10))
           (fun y => int (Z.of_nat y) / int (Z.of_nat 10))
           (seq 0 11) (seq 0 11)).
Qed.

Lemma updatePressState_target e id point :
  NoDup (JSMap.keys (PhysicsEngine.pressPoints e)) ->
  JSMap.get id (PhysicsEngine.pressPoints (updatePressState e)) = Some point ->
  exists old,
    JSMap.get id (PhysicsEngine.pressPoints e) = Some old
    /\ point = fst (updatePressPoint e old)
    /\ snd (updatePressPoint e old) = false
    /\ PressPoint.targetDepth point = PressPoint.targetDepth old.
Proof.
  intros Hnd. rewrite (updatePressState_get e id Hnd).
  destruct (JSMap.get id (PhysicsEngine.pressPoints e)) as [old|];
    [|discriminate].
  destruct (snd (updatePressPoint e old)) eqn:Hdel; [discriminate|].
  intros [= <-]. exists old. repeat split; try assumption.
  unfold updatePressPoint. destruct (ltb _ _); reflexivity.
Qed.

Lemma fold_addRegion_frame (rects : list (Rect.t num * (num * num * bool))) :
  forall e0,
    let e' :=
      fold_left (fun e1 '(r, (u1, u2, coin)) => addRegion e1 r u1 u2 coin)
        rects e0 in
    PhysicsEngine.mass e' = PhysicsEngine.mass e0
    /\ PhysicsEngine.maxDisplacement e' = PhysicsEngine.maxDisplacement e0
    /\ PhysicsEngine.historyLength e' = PhysicsEngine.historyLength e0
    /\ PhysicsEngine.pressSpeed e' = PhysicsEngine.pressSpeed e0
    /\ PhysicsEngine.releaseSpeed e' = PhysicsEngine.releaseSpeed e0
    /\ PhysicsEngine.vertices e' = PhysicsEngine.vertices e0
    /\ PhysicsEngine.forceHistory e' = PhysicsEngine.forceHistory e0
    /\ PhysicsEngine.pressPoints e' = PhysicsEngine.pressPoints e0.
Proof.
  induction rects as [|[r [[u1 u2] coin]] rects IH]; intros e0; cbn zeta.
  - repeat split.
  - cbn [fold_left]. exact (IH (addRegion e0 r u1 u2 coin)).
Qed.

Lemma well_formed_pressPoints e e' :
  well_formed e ->
  PhysicsEngine.mass e' = PhysicsEngine.mass e ->
  PhysicsEngine.maxDisplacement e' = PhysicsEngine.maxDisplacement e ->
  PhysicsEngine.historyLength e' = PhysicsEngine.historyLength e ->
  PhysicsEngine.pressSpeed e' = PhysicsEngine.pressSpeed e ->
  PhysicsEngine.releaseSpeed e' = PhysicsEngine.releaseSpeed e ->
  PhysicsEngine.vertices e' = PhysicsEngine.vertices e ->
  (List.length (PhysicsEngine.forceHistory e') <= 8)%nat ->
  NoDup (JSMap.keys (PhysicsEngine.pressPoints e')) ->
  (forall id point,
     JSMap.get id (PhysicsEngine.pressPoints e') = Some point ->
     PressPoint.targetDepth point = int 1
     \/ PressPoint.targetDepth point = int 0) ->
  well_formed e'.
Proof.
  intros (Hm & Hd & Hl & Hp & Hr & Hv & _) Em Ed El Ep Er Ev Hh Hn Ht.
  unfold well_formed. rewrite Em, Ed, El, Ep, Er, Ev. repeat split; assumption.
Qed.

Lemma well_formed_frame e e' :
  well_formed e ->
  PhysicsEngine.mass e' = PhysicsEngine.mass e ->
  PhysicsEngine.maxDisplacement e' = PhysicsEngine.maxDisplacement e ->
  PhysicsEngine.historyLength e' = PhysicsEngine.historyLength e ->
  PhysicsEngine.pressSpeed e' = PhysicsEngine.pressSpeed e ->
  PhysicsEngine.releaseSpeed e' = PhysicsEngine.releaseSpeed e ->
  PhysicsEngine.vertices e' = PhysicsEngine.vertices e ->
  (List.length (PhysicsEngine.forceHistory e') <= 8)%nat ->
  PhysicsEngine.pressPoints e' = PhysicsEngine.pressPoints e ->
  well_formed e'.
Proof.
  intros He Em Ed El Ep Er Ev Hh Epp.
  apply (well_formed_pressPoints e e' He Em Ed El Ep Er Ev Hh);
    rewrite Epp; apply He.
Qed.

Lemma updatePressState_well_formed e :
  well_formed e -> well_formed (updatePressState e).
Proof.
  intros He.
  apply (well_formed_pressPoints e); try reflexivity; try apply He.
  - apply updatePressState_nodup, He.
  - intros id point Hget.
    destruct (updatePressState_target e id point) as (old & Hold & _ & _ & Ht);
      [apply He | exact Hget |].
    rewrite Ht. destruct He as (_ & _ & _ & _ & _ & _ & _ & _ & Htar).
    exact (Htar id old Hold).
Qed.

Lemma pushForce_length e entry :
  (List.length (PhysicsEngine.forceHistory e) <= PhysicsEngine.historyLength e)%nat ->
  (List.length (pushForce e entry) <= PhysicsEngine.historyLength e)%nat.
Proof.
  intros Hlen. rewrite (pushForce_firstn e entry Hlen).
  rewrite length_firstn. lia.
Qed.

Lemma set_target (m : JSMap.t (PressPoint.t num)) k v :
  (PressPoint.targetDepth v = int 1 \/ PressPoint.targetDepth v = int 0) ->
  (forall id point,
     JSMap.get id m = Some point ->
     PressPoint.targetDepth point = int 1
     \/ PressPoint.targetDepth point = int 0) ->
  forall id point,
    JSMap.get id (JSMap.set k v m) = Some point ->
    PressPoint.targetDepth point = int 1
    \/ PressPoint.targetDepth point = int 0.
Proof.
  intros Hv Hm id point.
  destruct (Z.eq_dec id k) as [->|Hne].
  - rewrite get_set_same. intros [= <-]. exact Hv.
  - rewrite (get_set_other m k id v Hne). apply Hm.
Qed.

Lemma call_well_formed e c : well_formed e -> well_formed (call e c).
Proof.
  intros He.
  pose proof He as (Hm & Hd & Hl & Hp & Hr & Hv & Hh & Hn & Ht).
  destruct c; cbn [call].
  - apply (well_formed_frame e); try reflexivity; assumption.
  - unfold setRegions.
    destruct (fold_addRegion_frame regions (clearRegions e))
      as (Em & Ed & El & Ep & Er & Ev & Eh & Epp).
    apply (well_formed_frame e); try assumption.
    rewrite Eh. cbn. lia.
  - apply (well_formed_frame e); try reflexivity; try assumption. cbn. lia.
  - unfold removeRegion. destruct (_ && _)%bool; [|exact He].
    apply (well_formed_frame e); try reflexivity; assumption.
  - pose proof (updatePressState_well_formed e He) as He1.
    apply (well_formed_pressPoints (updatePressState e)); try reflexivity;
      try apply He1.
    rewrite update_forceHistory.
    pose proof (pushForce_length (updatePressState e)
                  (new_entry e force patternId)) as Hpush.
    change (PhysicsEngine.historyLength (updatePressState e))
      with (PhysicsEngine.historyLength e) in Hpush.
    change (PhysicsEngine.forceHistory (updatePressState e))
      with (PhysicsEngine.forceHistory e) in Hpush.
    rewrite Hl in Hpush. apply Hpush. exact Hh.
  - apply (well_formed_pressPoints e); try reflexivity; try assumption.
    + apply keys_set_nodup, Hn.
    + apply set_target; [left; reflexivity | exact Ht].
  - unfold updatePressPosition.
    destruct (JSMap.get id (PhysicsEngine.pressPoints e)) as [point|] eqn:Hget;
      [|exact He].
    apply (well_formed_pressPoints e); try reflexivity; try assumption.
    + apply keys_set_nodup, Hn.
    + apply set_target; [exact (Ht id point Hget) | exact Ht].
  - unfold endPress.
    destruct (JSMap.get id (PhysicsEngine.pressPoints e)) as [point|] eqn:Hget;
      [|exact He].
    apply (well_formed_pressPoints e); try reflexivity; try assumption.
    + apply keys_set_nodup, Hn.
    + apply set_target; [right; reflexivity | exact Ht].
  - apply updatePressState_well_formed, He.
  - pose proof (updatePressState_well_formed e He) as He1.
    apply (well_formed_pressPoints (updatePressState e)); try reflexivity;
      try apply He1.
  - apply (well_formed_frame e); try reflexivity; assumption.
  - apply (well_formed_frame e); try reflexivity; try assumption.
    + cbn [reset PhysicsEngine.vertices PhysicsEngine.with_vertices
           PhysicsEngine.with_forceHistory PhysicsEngine.with_regions].
      rewrite Hv. apply vertices_of_new_are_still.
    + cbn. lia.
  - apply (well_formed_frame e); try reflexivity; assumption.
  - apply (well_formed_frame e); try reflexivity; assumption.
Qed.

Lemma new_well_formed : well_formed (@new_PhysicsEngine num JSN).
Proof.
  unfold well_formed.
  split; [reflexivity|]. split; [reflexivity|]. split; [reflexivity|].
  split; [reflexivity|]. split; [reflexivity|]. split; [reflexivity|].
  split; [cbn; lia|]. split; [constructor|].
  intros k point Hget. discriminate Hget.
Qed.

(** X14.  On an engine made by [new PhysicsEngine()], after any sequence of
    calls of [addRegion], [setRegions], [clearRegions], [removeRegion],
    [update], [startPress], [updatePressPosition], [endPress],
    [updatePressState], [applyForceAtPosition], [applyImpulse], [reset],
    [setPhysicsParams] and [resetToDefaults], with any arguments and any
    draws of [Math.random()]: the force history holds at most 8 entries;
    no two press points share an id; every press point has target depth
    1 or 0; the vertices are the 121 of the constructor, whose [dx] and
    [dy] no call writes a value other than 0 to; and the mass,
    [maxDisplacement], [historyLength], [pressSpeed] and [releaseSpeed]
    are those of the constructor. *)
Theorem calls_keep_engine_well_formed :
  forall cs : list (@Call num),
    let e := calls new_PhysicsEngine cs in
    (List.length (PhysicsEngine.forceHistory e) <= 8)%nat
    /\ NoDup (JSMap.keys (PhysicsEngine.pressPoints e))
    /\ (forall id point,
          JSMap.get id (PhysicsEngine.pressPoints e) = Some point ->
          PressPoint.targetDepth point = int 1
          \/ PressPoint.targetDepth point = int 0)
    /\ PhysicsEngine.vertices e = PhysicsEngine.vertices new_PhysicsEngine
    /\ List.length (PhysicsEngine.vertices e) = 121%nat
    /\ Forall (fun v => Vertex.dx v = int 0 /\ Vertex.dy v = int 0)
         (PhysicsEngine.vertices e)
    /\ PhysicsEngine.mass e = int 1
    /\ PhysicsEngine.maxDisplacement e = int 25
    /\ PhysicsEngine.historyLength e = 8%nat
    /\ PhysicsEngine.pressSpeed e = lit 15 100
    /\ PhysicsEngine.releaseSpeed e = lit 8 100.
Proof.
  intros cs e.
  destruct (calls_invariant well_formed call_well_formed cs
              new_PhysicsEngine new_well_formed)
    as (Hm & Hd & Hl & Hp & Hr & Hv & Hh & Hn & Ht).
  fold e in Hm, Hd, Hl, Hp, Hr, Hv, Hh, Hn, Ht.
  repeat split; try assumption.
  - rewrite Hv. reflexivity.
  - rewrite Hv. unfold new_PhysicsEngine, initVertices.
    cbn [PhysicsEngine.vertices PhysicsEngine.with_vertices].
    apply Forall_flat_map, Forall_forall. intros y _.
    apply Forall_map, Forall_forall. intros x _. split; reflexivity.
Qed.

End Reachable.

Section ReachablePositions.

Context {num : Type} {JSN : JSNumber num} {JST : JSTrig num}.

Local Open Scope js_scope.

Implicit Types (e : PhysicsEngine.t num) (c : @Call num) (P : num -> Prop).

Lemma Forall_firstn_skipn {A} (Q : A -> Prop) (n m : nat) (l : list A) :
  Forall Q l -> Forall Q (firstn n l ++ skipn m l).
Proof.
  intros H. apply Forall_app. split.
  - rewrite <- (firstn_skipn n l) in H. apply Forall_app in H. apply H.
  - rewrite <- (firstn_skipn m l) in H. apply Forall_app in H. apply H.
Qed.

Lemma positions_same_position P (rs rs' : list (Region.t num)) :
  Forall2 (fun r r' => Region.position r' = Region.position r) rs rs' ->
  Forall
    (fun r => P (Vec2.x (Region.position r)) /\ P (Vec2.y (Region.position r)))
    rs ->
  Forall
    (fun r => P (Vec2.x (Region.position r)) /\ P (Vec2.y (Region.position r)))
    rs'.
Proof.
  induction 1 as [|r r' rs rs' Hr _ IH]; intros Hall; [constructor|].
  inversion Hall as [|? ? Hhead Htail]; subst.
  constructor; [now rewrite Hr | now apply IH].
Qed.

Lemma same_but_velocity_position (rs rs' : list (Region.t num)) :
  Forall2 same_but_velocity rs rs' ->
  Forall2 (fun r r' => Region.position r' = Region.position r) rs rs'.
Proof.
  induction 1 as [|r r' rs rs' Hr _ IH]; constructor; [apply Hr | exact IH].
Qed.

Lemma same_but_tuning_position (rs rs' : list (Region.t num)) :
  Forall2 same_but_tuning rs rs' ->
  Forall2 (fun r r' => Region.position r' = Region.position r) rs rs'.
Proof.
  induction 1 as [|r r' rs rs' Hr _ IH]; constructor; [apply Hr | exact IH].
Qed.

Lemma region_step_positions P e (r : Region.t num) fx fy :
  (forall k q p v f, P (fst (axis_step_spec e k q p v f))) ->
  P (Vec2.x (Region.position (region_step_spec e r fx fy)))
  /\ P (Vec2.y (Region.position (region_step_spec e r fx fy))).
Proof.
  intros Haxis. unfold region_step_spec.
  pose proof (Haxis (Region.stiffness r) (Region.damping r)
                (Vec2.x (Region.position r)) (Vec2.x (Region.velocity r)) fx)
    as Hx.
  pose proof (Haxis (Region.stiffness r) (Region.damping r)
                (Vec2.y (Region.position r)) (Vec2.y (Region.velocity r)) fy)
    as Hy.
  destruct (axis_step_spec _ _ _ _ _ fx), (axis_step_spec _ _ _ _ _ fy).
  split; assumption.
Qed.

Lemma update_regions_positions P e h rs :
  (forall k q p v f, P (fst (axis_step_spec e k q p v f))) ->
  forall i,
    Forall
      (fun r => P (Vec2.x (Region.position r)) /\ P (Vec2.y (Region.position r)))
      (update_regions e h i rs).
Proof.
  intros Haxis. induction rs as [|r rs IH]; intros i; cbn [update_regions];
    constructor; [|apply IH].
  rewrite update_region_spec. now apply region_step_positions.
Qed.

Lemma fold_addRegion_positions P
    (rects : list (Rect.t num * (num * num * bool))) :
  P (int 0) ->
  forall e0,
    positions P e0 ->
    positions P
      (fold_left (fun e1 '(r, (u1, u2, coin)) => addRegion e1 r u1 u2 coin)
         rects e0).
Proof.
  intros H0. induction rects as [|[r [[u1 u2] coin]] rects IH]; intros e0 He0;
    [exact He0|].
  cbn [fold_left]. apply IH. unfold positions.
  rewrite addRegion_regions. apply Forall_app. split; [exact He0|].
  constructor; [|constructor]. split; exact H0.
Qed.

Lemma call_positions P e c :
  P (int 0) ->
  (forall e' k q p v f,
     PhysicsEngine.maxDisplacement e' = int 25 ->
     P (fst (axis_step_spec e' k q p v f))) ->
  well_formed e /\ positions P e ->
  well_formed (call e c) /\ positions P (call e c).
Proof.
  intros H0 Haxis [He Hpos].
  split; [now apply call_well_formed|].
  assert (Hd : PhysicsEngine.maxDisplacement e = int 25) by apply He.
  unfold positions in *.
  destruct c; cbn [call].
  - rewrite addRegion_regions. apply Forall_app. split; [exact Hpos|].
    constructor; [|constructor]. split; exact H0.
  - apply (fold_addRegion_positions P regions H0 (clearRegions e)).
    constructor.
  - constructor.
  - unfold removeRegion. destruct (_ && _)%bool; [|exact Hpos].
    cbn [PhysicsEngine.regions PhysicsEngine.with_regions].
    now apply Forall_firstn_skipn.
  - unfold update.
    cbn [fst PhysicsEngine.regions PhysicsEngine.with_regions].
    apply update_regions_positions. intros k q p v f.
    apply Haxis. exact Hd.
  - exact Hpos.
  - unfold updatePressPosition.
    destruct (JSMap.get id (PhysicsEngine.pressPoints e)); exact Hpos.
  - unfold endPress.
    destruct (JSMap.get id (PhysicsEngine.pressPoints e)) as [point|];
      [|exact Hpos].
    cbn [PhysicsEngine.regions PhysicsEngine.with_regions
         PhysicsEngine.with_pressPoints].
    eapply positions_same_position; [|exact Hpos].
    apply same_but_velocity_position, endPress_regions_same.
  - exact Hpos.
  - unfold applyForceAtPosition.
    cbn [fst PhysicsEngine.regions PhysicsEngine.with_regions].
    apply Forall_map.
    change (PhysicsEngine.regions (updatePressState e))
      with (PhysicsEngine.regions e).
    eapply Forall_impl; [|exact Hpos].
    intros r Hr. rewrite applyForceAtPosition_region_spec.
    destruct (ltb _ _); [|exact Hr].
    apply region_step_positions. intros k q p v f. apply Haxis. exact Hd.
  - unfold applyImpulse.
    cbn [PhysicsEngine.regions PhysicsEngine.with_regions].
    eapply positions_same_position; [|exact Hpos].
    apply same_but_velocity_position, applyImpulse_regions_same.
  - unfold reset.
    cbn [PhysicsEngine.regions PhysicsEngine.with_regions
         PhysicsEngine.with_vertices PhysicsEngine.with_forceHistory].
    apply Forall_map, Forall_forall. intros r _. split; exact H0.
  - unfold setPhysicsParams.
    cbn [PhysicsEngine.regions PhysicsEngine.with_regions].
    eapply positions_same_position; [|exact Hpos].
    apply same_but_tuning_position, retune_regions_same.
  - unfold resetToDefaults.
    cbn [PhysicsEngine.regions PhysicsEngine.with_regions].
    eapply positions_same_position; [|exact Hpos].
    apply same_but_tuning_position, retune_regions_same.
Qed.

Lemma calls_positions P (cs : list (@Call num)) :
  P (int 0) ->
  (forall e' k q p v f,
     PhysicsEngine.maxDisplacement e' = int 25 ->
     P (fst (axis_step_spec e' k q p v f))) ->
  positions P (calls new_PhysicsEngine cs).
Proof.
  intros H0 Haxis.
  apply (calls_invariant (fun e => well_formed e /\ positions P e)
           (fun e c => call_positions P e c H0 Haxis) cs new_PhysicsEngine).
  split; [apply new_well_formed | constructor].
Qed.

End ReachablePositions.

Section ReachableBounds.

(** X15.  On an engine made by [new PhysicsEngine()], after any sequence of
    the calls of [Call] ([addRegion] to [resetToDefaults], as listed
    there), with any arguments and any draws, both components of the
    position of every region are within [[-25, 25]]: in exact
    arithmetic always, and in binary64 (for any implementation of the
    trigonometric functions) unless the component is NaN.  The calls
    that step a region clamp its position; the others leave it or set
    it to 0. *)
Theorem calls_keep_positions_within_displacement :
  (forall cs : list (@Call R),
     Forall
       (fun region =>
          (Rabs (Vec2.x (Region.position region)) <= 25)%R
          /\ (Rabs (Vec2.y (Region.position region)) <= 25)%R)
       (PhysicsEngine.regions (calls new_PhysicsEngine cs)))
  /\ (forall (trig : JSTrig float) (cs : list (@Call float)),
        Forall
          (fun region =>
             nan_or_within (int 25) (Vec2.x (Region.position region)) = true
             /\ nan_or_within (int 25) (Vec2.y (Region.position region)) = true)
          (PhysicsEngine.regions (calls new_PhysicsEngine cs))).
Proof.
  split.
  - intros cs.
    apply (calls_positions (fun p => (Rabs p <= 25)%R) cs).
    + cbn. replace (0 / 1)%R with 0%R by lra. rewrite Rabs_R0. lra.
    + intros e' k q p v f Hd.
      pose proof (axis_step_position_bounded e' k q p v f) as H.
      rewrite Hd in H. cbn in H.
      replace (25 / 1)%R with 25%R in H by lra. apply H. lra.
  - intros trig cs.
    apply (calls_positions (fun p => nan_or_within (int 25) p = true) cs).
    + apply zero64_bounds. vm_compute. reflexivity.
    + intros e' k q p v f Hd.
      pose proof (axis_step_position_bounded64 e' k q p v f) as H.
      rewrite Hd in H. apply H. vm_compute. reflexivity.
Qed.

End ReachableBounds.

Section ReachableDepths.

Local Open Scope R_scope.

Implicit Types (e : PhysicsEngine.t R).

Lemma in_get {V} (m : JSMap.t V) k v :
  NoDup (JSMap.keys m) -> In (k, v) m -> JSMap.get k m = Some v.
Proof.
  unfold JSMap.keys.
  induction m as [|[k0 v0] m IH]; cbn; intros Hnd Hin; [contradiction|].
  inversion Hnd as [|? ? Hnotin Hnd']; subst.
  destruct Hin as [[= -> ->]|Hin].
  - now rewrite Z.eqb_refl.
  - destruct (Z.eqb k k0) eqn:E; [|now apply IH].
    apply Z.eqb_eq in E; subst k0. exfalso. apply Hnotin.
    change k with (fst (k, v)). now apply in_map.
Qed.

Lemma updatePressPoint_depth e (old : PressPoint.t R) :
  PhysicsEngine.pressSpeed e = lit 15 100 ->
  PhysicsEngine.releaseSpeed e = lit 8 100 ->
  PressPoint.targetDepth old = int 1 \/ PressPoint.targetDepth old = int 0 ->
  0 <= PressPoint.depth old <= 1 ->
  0 <= PressPoint.depth (fst (updatePressPoint e old)) <= 1.
Proof.
  intros Hp Hr Ht Hd. unfold updatePressPoint. rewrite Hp, Hr.
  destruct Ht as [-> | ->]; cbn; unfold Rltb;
    repeat match goal with
      | |- context [Rlt_dec ?a ?b] => destruct (Rlt_dec a b)
      end; cbn; lra.
Qed.

Lemma set_depth (D : R -> Prop) (m : JSMap.t (PressPoint.t R)) k v :
  D (PressPoint.depth v) ->
  (forall id point, JSMap.get id m = Some point -> D (PressPoint.depth point)) ->
  forall id point,
    JSMap.get id (JSMap.set k v m) = Some point -> D (PressPoint.depth point).
Proof.
  intros Hv Hm id point.
  destruct (Z.eq_dec id k) as [->|Hne].
  - rewrite get_set_same. intros [= <-]. exact Hv.
  - rewrite (get_set_other m k id v Hne). apply Hm.
Qed.

Lemma updatePressState_depths e :
  well_formed e ->
  depths (fun d => 0 <= d <= 1) e ->
  depths (fun d => 0 <= d <= 1) (updatePressState e).
Proof.
  intros He Hdep id point Hget.
  destruct (updatePressState_target e id point) as (old & Hold & -> & _ & _);
    [apply He | exact Hget |].
  destruct He as (_ & _ & _ & Hp & Hr & _ & _ & _ & Ht).
  apply updatePressPoint_depth;
    [exact Hp | exact Hr | exact (Ht id old Hold) | exact (Hdep id old Hold)].
Qed.

Lemma call_depths e (c : @Call R) :
  well_formed e /\ depths (fun d => 0 <= d <= 1) e ->
  well_formed (call e c) /\ depths (fun d => 0 <= d <= 1) (call e c).
Proof.
  intros [He Hdep].
  split; [now apply call_well_formed|].
  destruct c; cbn [call]; try exact Hdep.
  - unfold setRegions.
    destruct (fold_addRegion_frame regions (clearRegions e))
      as (_ & _ & _ & _ & _ & _ & _ & Epp).
    unfold depths. rewrite Epp. exact Hdep.
  - unfold removeRegion. destruct (_ && _)%bool; exact Hdep.
  - exact (updatePressState_depths e He Hdep).
  - unfold startPress, depths.
    cbn [PhysicsEngine.pressPoints PhysicsEngine.with_pressPoints].
    apply (set_depth (fun d => 0 <= d <= 1)); [cbn; lra | exact Hdep].
  - unfold updatePressPosition.
    destruct (JSMap.get id (PhysicsEngine.pressPoints e)) as [point|] eqn:Hget;
      [|exact Hdep].
    unfold depths.
    cbn [PhysicsEngine.pressPoints PhysicsEngine.with_pressPoints].
    apply (set_depth (fun d => 0 <= d <= 1)); [exact (Hdep id point Hget) | exact Hdep].
  - unfold endPress.
    destruct (JSMap.get id (PhysicsEngine.pressPoints e)) as [point|] eqn:Hget;
      [|exact Hdep].
    unfold depths.
    cbn [PhysicsEngine.pressPoints PhysicsEngine.with_pressPoints
         PhysicsEngine.with_regions].
    apply (set_depth (fun d => 0 <= d <= 1)); [exact (Hdep id point Hget) | exact Hdep].
  - exact (updatePressState_depths e He Hdep).
  - exact (updatePressState_depths e He Hdep).
Qed.

(** X16.  In exact arithmetic, on an engine made by [new PhysicsEngine()],
    after any sequence of the calls of [Call], with any arguments and
    any draws, the depth of every press point is in [[0, 1]]: a press
    starts at depth 0 and each frame moves the depth a fixed fraction of
    the way to its target, which is 1 or 0.  So the release magnitude
    [depth * 8] that [endPress] computes is in [[0, 8]]. *)
Theorem calls_keep_press_depth_in_unit_interval :
  forall cs : list (@Call R),
    Forall
      (fun point =>
         0 <= PressPoint.depth point <= 1
         /\ 0 <= PressPoint.depth point * 8 <= 8)
      (List.map snd (PhysicsEngine.pressPoints (calls new_PhysicsEngine cs))).
Proof.
  intros cs.
  destruct (calls_invariant
              (fun e => well_formed e /\ depths (fun d => 0 <= d <= 1) e)
              call_depths cs new_PhysicsEngine) as [Hwf Hdep].
  { split; [apply new_well_formed|]. intros id point Hget. discriminate Hget. }
  apply Forall_map, Forall_forall. intros [id point] Hin. cbn [snd].
  assert (Hget : JSMap.get id
                   (PhysicsEngine.pressPoints (calls new_PhysicsEngine cs))
                 = Some point).
  { apply in_get; [apply Hwf | exact Hin]. }
  pose proof (Hdep id point Hget) as Hd. cbn beta in Hd. lra.
Qed.

End ReachableDepths.

(** *** The renderer's coordinates, in exact arithmetic *)

Section RendererCoordinates.

Local Open Scope R_scope.

Lemma or1_positive (v : R) : 0 < v -> Renderer.or1 v = v.
Proof.
  intros Hv. unfold Renderer.or1. cbn. unfold Rltb.
  destruct (Rlt_dec v (0 / 1)); [reflexivity|].
  destruct (Rlt_dec (0 / 1) v); [reflexivity | lra].
Qed.

Lemma unit_clamp (v : R) :
  0 <= Rmax (0 / 1) (Rmin (1 / 1) v) <= 1
  /\ (0 <= v <= 1 -> Rmax (0 / 1) (Rmin (1 / 1) v) = v)
  /\ (v <= 0 -> Rmax (0 / 1) (Rmin (1 / 1) v) = 0)
  /\ (1 <= v -> Rmax (0 / 1) (Rmin (1 / 1) v) = 1).
Proof.
  unfold Rmax, Rmin.
  destruct (Rle_dec (1 / 1) v);
    [destruct (Rle_dec (0 / 1) (1 / 1)) | destruct (Rle_dec (0 / 1) v)];
    repeat split; intros; lra.
Qed.

Lemma div_pos_range (a w : R) :
  0 < w -> (0 <= a / w <-> 0 <= a) /\ (a / w <= 1 <-> a <= w).
Proof.
  intros Hw.
  assert (Hi : 0 < / w) by now apply Rinv_0_lt_compat.
  assert (Ha : a = a / w * w) by (field; lra).
  unfold Rdiv in *. repeat split; intros H; nra.
Qed.

(** X17.  In exact arithmetic, for a canvas, a pixel ratio and an image of
    positive sizes, [calculateImageRect()] letterboxes the image: the
    rectangle keeps the aspect ratio of the image, is centred in the
    canvas (in CSS pixels, the canvas size divided by the pixel ratio),
    lies inside it, and spans its full width or its full height. *)
Theorem calculateImageRect_letterboxes :
  forall canvas_width canvas_height devicePixelRatio image_width image_height,
    0 < canvas_width -> 0 < canvas_height -> 0 < devicePixelRatio ->
    0 < image_width -> 0 < image_height ->
    let r :=
      Renderer.calculateImageRect canvas_width canvas_height devicePixelRatio
        image_width image_height in
    let W := canvas_width / devicePixelRatio in
    let H := canvas_height / devicePixelRatio in
    Rect.width r * image_height = Rect.height r * image_width
    /\ Rect.x r + Rect.width r + Rect.x r = W
    /\ Rect.y r + Rect.height r + Rect.y r = H
    /\ 0 <= Rect.x r /\ 0 <= Rect.y r
    /\ 0 < Rect.width r <= W /\ 0 < Rect.height r <= H
    /\ (Rect.width r = W \/ Rect.height r = H).
Proof.
  intros cw ch dpr iw ih Hcw Hch Hdpr Hiw Hih r W H.
  unfold r, Renderer.calculateImageRect. rewrite (or1_positive dpr Hdpr).
  cbn. fold W H.
  assert (HW : 0 < W) by (apply Rdiv_lt_0_compat; assumption).
  assert (HH : 0 < H) by (apply Rdiv_lt_0_compat; assumption).
  assert (Ha : iw * (W / iw) = W) by (field; lra).
  assert (Hb : ih * (H / ih) = H) by (field; lra).
  assert (Hpa : 0 < W / iw) by (apply Rdiv_lt_0_compat; assumption).
  assert (Hpb : 0 < H / ih) by (apply Rdiv_lt_0_compat; assumption).
  unfold Rmin. destruct (Rle_dec (W / iw) (H / ih)) as [Hle|Hgt].
  - assert (Hh : ih * (W / iw) <= H) by nra.
    assert (Hh0 : 0 < ih * (W / iw)) by nra.
    assert (Hr : iw * (W / iw) * ih = ih * (W / iw) * iw) by ring.
    rewrite Ha in *. repeat split; try lra.
  - assert (Hw : iw * (H / ih) <= W) by nra.
    assert (Hw0 : 0 < iw * (H / ih)) by nra.
    assert (Hr : iw * (H / ih) * ih = ih * (H / ih) * iw) by ring.
    rewrite Hb in *. repeat split; try lra.
Qed.

(** One axis of [clientToNormalized]: the image starts at [o] and is
    [w] long, the point is at [c]. *)
Lemma axis_point (o w c : R) :
  0 < w ->
  let v := Rmax (0 / 1) (Rmin (1 / 1) ((c - o) / w)) in
  0 <= v <= 1
  /\ (o <= c <= o + w -> o + v * w = c)
  /\ (c <= o -> v = 0)
  /\ (o + w <= c -> v = 1).
Proof.
  intros Hw v. unfold v.
  destruct (unit_clamp ((c - o) / w)) as (Hr & Hin & Hlo & Hhi).
  destruct (div_pos_range (c - o) w Hw) as [H0 H1].
  assert (Ht : (c - o) / w * w = c - o) by (field; lra).
  assert (Hi : 0 < / w) by now apply Rinv_0_lt_compat.
  split; [exact Hr|]. split; [|split].
  - intros [Hlo' Hhi']. rewrite Hin.
    + lra.
    + split; [apply H0; lra | apply H1; lra].
  - intros Hle. apply Hlo. unfold Rdiv. nra.
  - intros Hge. apply Hhi.
    apply Rmult_le_reg_r with w; [exact Hw|]. rewrite Ht. lra.
Qed.

(** One axis of [pixelToNormalized]: the image starts at [o] and is [w]
    long, the box starts at [a] and is [b] long. *)
Lemma axis_box (o w a b : R) :
  0 < w ->
  let x := Rmax (0 / 1) (Rmin (1 / 1) ((a - o) / w)) in
  let width := Rmax (0 / 1) (Rmin (1 / 1 - x) (b / w)) in
  0 <= x <= 1 /\ 0 <= width /\ x + width <= 1
  /\ (o <= a -> 0 <= b -> a + b <= o + w ->
      o + x * w = a /\ width * w = b).
Proof.
  intros Hw x width.
  destruct (axis_point o w a Hw) as (Hr & Hin & _). fold x in Hr, Hin.
  assert (Hwd : 0 <= width <= 1 - x
                /\ (0 <= b / w <= 1 - x -> width = b / w)).
  { unfold width, Rmax, Rmin.
    destruct (Rle_dec (1 / 1 - x) (b / w));
      [destruct (Rle_dec (0 / 1) (1 / 1 - x)) | destruct (Rle_dec (0 / 1) (b / w))];
      split; intros; lra. }
  destruct Hwd as [Hrange Hexact].
  split; [exact Hr|]. split; [lra|]. split; [lra|].
  intros Ha Hb Hab.
  assert (Hx : o + x * w = a) by (apply Hin; lra).
  split; [exact Hx|].
  assert (Ht : b / w * w = b) by (field; lra).
  destruct (div_pos_range b w Hw) as [G0 _].
  rewrite Hexact; [exact Ht|].
  split; [apply G0; exact Hb|].
  apply Rmult_le_reg_r with w; [exact Hw|]. rewrite Ht. nra.
Qed.

(** X18.  In exact arithmetic, for an image rectangle of positive width and
    height: [clientToNormalized] gives coordinates in [[0, 1]], on each
    axis that of the point relative to the image when the point is on
    the image along that axis, and the nearest edge (0 or 1) otherwise;
    [pixelToNormalized] gives a box inside the unit square
    ([x + width <= 1], [y + height <= 1], nothing negative), and on each
    axis a pixel box that lies on the image is converted exactly:
    scaling the result by the image size and adding its corner gives
    the pixel box back. *)
Theorem normalized_coordinates_stay_on_image :
  forall imageRect : Rect.t R,
    0 < Rect.width imageRect -> 0 < Rect.height imageRect ->
    (forall rect_left rect_top clientX clientY,
       let p :=
         Renderer.clientToNormalized imageRect rect_left rect_top
           clientX clientY in
       let canvasX := clientX - rect_left in
       let canvasY := clientY - rect_top in
       0 <= Vec2.x p <= 1 /\ 0 <= Vec2.y p <= 1
       /\ (Rect.x imageRect <= canvasX
           <= Rect.x imageRect + Rect.width imageRect ->
           Rect.x imageRect + Vec2.x p * Rect.width imageRect = canvasX)
       /\ (canvasX <= Rect.x imageRect -> Vec2.x p = 0)
       /\ (Rect.x imageRect + Rect.width imageRect <= canvasX -> Vec2.x p = 1)
       /\ (Rect.y imageRect <= canvasY
           <= Rect.y imageRect + Rect.height imageRect ->
           Rect.y imageRect + Vec2.y p * Rect.height imageRect = canvasY)
       /\ (canvasY <= Rect.y imageRect -> Vec2.y p = 0)
       /\ (Rect.y imageRect + Rect.height imageRect <= canvasY ->
           Vec2.y p = 1))
    /\ (forall rect,
          let n := Renderer.pixelToNormalized imageRect rect in
          0 <= Rect.x n <= 1 /\ 0 <= Rect.y n <= 1
          /\ 0 <= Rect.width n /\ 0 <= Rect.height n
          /\ Rect.x n + Rect.width n <= 1
          /\ Rect.y n + Rect.height n <= 1
          /\ (Rect.x imageRect <= Rect.x rect ->
              0 <= Rect.width rect ->
              Rect.x rect + Rect.width rect
              <= Rect.x imageRect + Rect.width imageRect ->
              Rect.x imageRect + Rect.x n * Rect.width imageRect = Rect.x rect
              /\ Rect.width n * Rect.width imageRect = Rect.width rect)
          /\ (Rect.y imageRect <= Rect.y rect ->
              0 <= Rect.height rect ->
              Rect.y rect + Rect.height rect
              <= Rect.y imageRect + Rect.height imageRect ->
              Rect.y imageRect + Rect.y n * Rect.height imageRect = Rect.y rect
              /\ Rect.height n * Rect.height imageRect = Rect.height rect)).
Proof.
  intros imageRect HW HH. split.
  - intros rect_left rect_top clientX clientY p canvasX canvasY.
    destruct (axis_point (Rect.x imageRect) (Rect.width imageRect) canvasX HW)
      as (Hrx & Hinx & Hlox & Hhix).
    destruct (axis_point (Rect.y imageRect) (Rect.height imageRect) canvasY HH)
      as (Hry & Hiny & Hloy & Hhiy).
    split; [exact Hrx|]. split; [exact Hry|].
    split; [exact Hinx|]. split; [exact Hlox|]. split; [exact Hhix|].
    split; [exact Hiny|]. split; [exact Hloy | exact Hhiy].
  - intros rect n.
    destruct (axis_box (Rect.x imageRect) (Rect.width imageRect)
                (Rect.x rect) (Rect.width rect) HW) as (Hx & Hw0 & Hxw & Hbx).
    destruct (axis_box (Rect.y imageRect) (Rect.height imageRect)
                (Rect.y rect) (Rect.height rect) HH) as (Hy & Hh0 & Hyh & Hby).
    split; [exact Hx|]. split; [exact Hy|].
    split; [exact Hw0|]. split; [exact Hh0|].
    split; [exact Hxw|]. split; [exact Hyh|].
    split; [exact Hbx | exact Hby].
Qed.

Lemma normalized_bounds (imageRect : Rect.t R)
    (rect_left rect_top clientX clientY : R) :
  let p :=
    Renderer.clientToNormalized imageRect rect_left rect_top clientX clientY in
  0 <= Vec2.x p <= 1 /\ 0 <= Vec2.y p <= 1.
Proof.
  unfold Renderer.clientToNormalized. cbn.
  split; apply unit_clamp.
Qed.

End RendererCoordinates.

Section RendererSelection.

Local Open Scope R_scope.

(** X19.  In exact arithmetic.  The selection box of a drag does not depend on
    the direction of the drag, and it spans the two corners.
    [onSelectionEnd] hands no region over unless a selection is under
    way and the box is more than 10 pixels wide and high.  For an image
    rectangle of positive size, a box that big dragged at or beyond the
    right edge of the image is handed over as a region with [x = 1] and
    [width = 0]. *)
Theorem selection_box_and_hand_over :
  (forall (start : Vec2.t R) currentX currentY,
     let rect := Renderer.updateSelectionRect start currentX currentY in
     rect
     = Renderer.updateSelectionRect (Vec2.mk currentX currentY)
         (Vec2.x start) (Vec2.y start)
     /\ Rect.x rect <= Vec2.x start <= Rect.x rect + Rect.width rect
     /\ Rect.x rect <= currentX <= Rect.x rect + Rect.width rect
     /\ Rect.y rect <= Vec2.y start <= Rect.y rect + Rect.height rect
     /\ Rect.y rect <= currentY <= Rect.y rect + Rect.height rect)
  /\ (forall (imageRect rect : Rect.t R) isSelecting,
        isSelecting = false \/ Rect.width rect <= 10 \/ Rect.height rect <= 10 ->
        Renderer.onSelectionEnd isSelecting (Some rect) imageRect = None)
  /\ (forall (imageRect : Rect.t R) (start : Vec2.t R) currentX currentY,
        0 < Rect.width imageRect -> 0 < Rect.height imageRect ->
        Rect.x imageRect + Rect.width imageRect <= Vec2.x start ->
        Rect.x imageRect + Rect.width imageRect <= currentX ->
        10 < Rabs (currentX - Vec2.x start) ->
        10 < Rabs (currentY - Vec2.y start) ->
        exists region,
          Renderer.onSelectionEnd true
            (Some (Renderer.updateSelectionRect start currentX currentY))
            imageRect
          = Some region
          /\ Rect.x region = 1 /\ Rect.width region = 0).
Proof.
  split.
  { intros start currentX currentY rect. unfold rect.
    unfold Renderer.updateSelectionRect. cbn.
    split.
    - f_equal; try apply Rmin_comm; apply Rabs_minus_sym.
    - unfold Rmin, Rabs.
      destruct (Rle_dec (Vec2.x start) currentX),
        (Rle_dec (Vec2.y start) currentY),
        (Rcase_abs (currentX - Vec2.x start)),
        (Rcase_abs (currentY - Vec2.y start)); repeat split; lra. }
  split.
  { intros imageRect rect isSelecting Hsmall.
    unfold Renderer.onSelectionEnd.
    destruct isSelecting; [|reflexivity].
    cbn. unfold Rltb.
    destruct (Rlt_dec (10 / 1) (Rect.width rect)) as [Hw|Hw];
      [|reflexivity].
    destruct (Rlt_dec (10 / 1) (Rect.height rect)) as [Hh|Hh];
      [|reflexivity].
    destruct Hsmall as [Hs|[Hs|Hs]]; [discriminate | lra | lra]. }
  intros imageRect start currentX currentY HW HH Hstart Hcur Hdx Hdy.
  eexists. split.
  { unfold Renderer.onSelectionEnd, Renderer.updateSelectionRect.
    cbn. unfold Rltb.
    destruct (Rlt_dec (10 / 1) (Rabs (currentX - Vec2.x start)));
      [|exfalso; lra].
    destruct (Rlt_dec (10 / 1) (Rabs (currentY - Vec2.y start)));
      [|exfalso; lra].
    cbn. reflexivity. }
  cbn.
  set (vx := (Rmin (Vec2.x start) currentX - Rect.x imageRect)
             / Rect.width imageRect).
  assert (Hvx : 1 <= vx).
  { destruct (div_pos_range
                (Rmin (Vec2.x start) currentX - Rect.x imageRect
                 - Rect.width imageRect)
                (Rect.width imageRect) HW) as [H0 _].
    assert (Hmin : Rect.x imageRect + Rect.width imageRect
                   <= Rmin (Vec2.x start) currentX)
      by (unfold Rmin; destruct (Rle_dec (Vec2.x start) currentX); lra).
    assert (Hq : 0 <= (Rmin (Vec2.x start) currentX - Rect.x imageRect
                       - Rect.width imageRect) / Rect.width imageRect)
      by (apply H0; lra).
    replace vx
      with ((Rmin (Vec2.x start) currentX - Rect.x imageRect
             - Rect.width imageRect) / Rect.width imageRect + 1)
      by (unfold vx; field; lra).
    lra. }
  destruct (unit_clamp vx) as (_ & _ & _ & Hhi).
  rewrite (Hhi Hvx). split; [reflexivity|].
  assert (Hq : 0 <= Rabs (currentX - Vec2.x start) / Rect.width imageRect).
  { apply (proj1 (div_pos_range _ _ HW)). apply Rabs_pos. }
  unfold Rmax, Rmin.
  destruct (Rle_dec (1 / 1 - 1) _); [|lra].
  destruct (Rle_dec (0 / 1) (1 / 1 - 1)); lra.
Qed.

Lemma finite_quotient_nonzero (a b : R) :
  b <> 0 -> Renderer.finite_quotient a b = Some (a / b).
Proof.
  intros Hb. unfold Renderer.finite_quotient.
  destruct (Req_dec_T b 0); [contradiction | reflexivity].
Qed.

Lemma finite_quotient_zero (a : R) : Renderer.finite_quotient a 0 = None.
Proof.
  unfold Renderer.finite_quotient.
  destruct (Req_dec_T 0 0) as [_|H]; [reflexivity | now destruct H].
Qed.

(** X20.  In exact arithmetic.  While the image rectangle has no width
    or no height, [hitTestRegion] returns -1.  Otherwise it returns -1
    when no region passes its test, and else the highest index of a
    region that does: the region added last wins.  A region without
    width or without height never passes the test.  For a region of
    positive width and height the test is that of the ellipse of the
    physics: the normalised distance from the centre is at most 1. *)
Theorem hitTestRegion_picks_topmost :
  forall (imageRect : Rect.t R) (regions : list (Rect.t R)) canvasX canvasY,
    let normX := (canvasX - Rect.x imageRect) / Rect.width imageRect in
    let normY := (canvasY - Rect.y imageRect) / Rect.height imageRect in
    let hit := Renderer.hitTestRegion imageRect regions canvasX canvasY in
    (Rect.width imageRect = 0 \/ Rect.height imageRect = 0 -> hit = (-1)%Z)
    /\ (Rect.width imageRect <> 0 -> Rect.height imageRect <> 0 ->
        (hit = (-1)%Z
         /\ Forall (fun region => Renderer.hits normX normY region = false)
              regions)
        \/ ((0 <= hit < Z.of_nat (List.length regions))%Z
            /\ (exists region,
                  nth_error regions (Z.to_nat hit) = Some region
                  /\ Renderer.hits normX normY region = true)
            /\ Forall (fun region => Renderer.hits normX normY region = false)
                 (skipn (S (Z.to_nat hit)) regions)))
    /\ (forall px py (rect : Rect.t R),
          Rect.width rect = 0 \/ Rect.height rect = 0 ->
          Renderer.hits px py rect = false)
    /\ (forall (e : PhysicsEngine.t R) rect u1 u2 coin px py,
          0 < Rect.width rect -> 0 < Rect.height rect ->
          (Renderer.hits px py rect = true
           <-> ellipse_distance_spec px py
                 (created_region e 0 rect u1 u2 coin) <= 1)).
Proof.
  intros imageRect regions canvasX canvasY normX normY hit.
  assert (Hloop : forall n, (n <= List.length regions)%nat ->
            let h := Renderer.hitTestRegion_loop normX normY regions n in
            (h = (-1)%Z
             /\ Forall (fun region => Renderer.hits normX normY region = false)
                  (firstn n regions))
            \/ ((0 <= h < Z.of_nat n)%Z
                /\ (exists region,
                      nth_error regions (Z.to_nat h) = Some region
                      /\ Renderer.hits normX normY region = true)
                /\ Forall (fun region => Renderer.hits normX normY region = false)
                     (firstn (n - S (Z.to_nat h)) (skipn (S (Z.to_nat h)) regions)))).
  { induction n as [|n IH]; intros Hn; cbn zeta.
    - left. split; [reflexivity | constructor].
    - cbn [Renderer.hitTestRegion_loop].
      destruct (nth_error regions n) as [region|] eqn:Hnth.
      2:{ apply nth_error_None in Hnth. lia. }
      assert (Hsplit : firstn (S n) regions = firstn n regions ++ [region]).
      { rewrite <- (firstn_skipn n regions) at 1.
        rewrite firstn_app, firstn_firstn, length_firstn.
        replace (Nat.min (S n) n) with n by lia.
        replace (S n - Nat.min n (List.length regions))%nat with 1%nat by lia.
        f_equal. clear - Hnth. revert regions Hnth.
        induction n as [|n IHn]; intros [|r rs] Hnth; try discriminate.
        - injection Hnth as ->. reflexivity.
        - cbn [skipn]. now apply IHn. }
      destruct (Renderer.hits normX normY region) eqn:Hhit.
      + right. rewrite Nat2Z.id. split; [lia|].
        split; [exists region; split; assumption|].
        replace (S n - S n)%nat with 0%nat by lia. constructor.
      + destruct (IH ltac:(lia)) as [[Hh Hall]|(Hr & Hex & Hall)].
        * left. split; [exact Hh|]. rewrite Hsplit. apply Forall_app.
          split; [exact Hall | constructor; [exact Hhit | constructor]].
        * right. split; [lia|]. split; [exact Hex|].
          set (h := Renderer.hitTestRegion_loop normX normY regions n) in *.
          set (k := S (Z.to_nat h)) in *.
          assert (Hk : (k <= n)%nat) by (unfold k; lia).
          assert (Hfs : firstn (S n - k) (skipn k regions)
                        = firstn (n - k) (skipn k regions) ++ [region]).
          { assert (Hs : skipn k (firstn (S n) regions)
                         = skipn k (firstn n regions) ++ [region]).
            { rewrite Hsplit, skipn_app, length_firstn.
              replace (k - Nat.min n (List.length regions))%nat with 0%nat
                by lia.
              reflexivity. }
            rewrite !skipn_firstn_comm in Hs. exact Hs. }
          rewrite Hfs. apply Forall_app.
          split; [exact Hall | constructor; [exact Hhit | constructor]]. }
  split; [|split; [|split]].
  - intros Hzero. unfold hit, Renderer.hitTestRegion.
    destruct Hzero as [-> | ->]; rewrite finite_quotient_zero;
      [reflexivity|].
    destruct (Renderer.finite_quotient _ _); reflexivity.
  - intros HW HH. unfold hit, Renderer.hitTestRegion.
    rewrite !finite_quotient_nonzero by assumption. fold normX normY.
    destruct (Hloop (List.length regions) (le_n _)) as [[Hh Hall]|(Hr & Hex & Hall)].
    + left. split; [exact Hh|]. now rewrite firstn_all in Hall.
    + right. split; [exact Hr|]. split; [exact Hex|].
      rewrite firstn_all2 in Hall; [exact Hall|].
      rewrite length_skipn. lia.
  - intros px py rect Hzero. unfold Renderer.hits. cbn zeta.
    destruct Hzero as [-> | ->];
      replace (0 / 2) with 0 by lra; rewrite finite_quotient_zero;
      [reflexivity|].
    destruct (Renderer.finite_quotient _ _); reflexivity.
  - intros e rect u1 u2 coin px py Hw Hh.
    unfold Renderer.hits, ellipse_distance_spec, created_region.
    cbn [Region.x Region.y Region.width Region.height]. cbn zeta.
    rewrite !finite_quotient_nonzero by lra.
    set (q := ((px - (Rect.x rect + Rect.width rect / 2))
               / (Rect.width rect / 2)) ^ 2
              + ((py - (Rect.y rect + Rect.height rect / 2))
                 / (Rect.height rect / 2)) ^ 2).
    assert (Hq : 0 <= q).
    { unfold q. apply Rplus_le_le_0_compat; apply pow2_ge_0. }
    destruct (Rle_dec q 1) as [Hle|Hgt]; split; intros H.
    + rewrite <- sqrt_1. now apply sqrt_le_1_alt.
    + reflexivity.
    + discriminate.
    + exfalso. apply Hgt.
      rewrite <- sqrt_1 in H. apply sqrt_le_0 in H; lra.
Qed.

(** X21.  In exact arithmetic.  [drawTexturedTriangle] draws nothing when the
    determinant of the source triangle is below 0.001 in magnitude.
    Otherwise the matrix it hands to [ctx.transform] is the affine map
    of the source triangle onto the destination triangle: it sends each
    source vertex to its destination vertex, and it is the identity
    when the two triangles coincide. *)
Theorem drawTexturedTriangle_maps_vertices :
  forall sx0 sy0 sx1 sy1 sx2 sy2 dx0 dy0 dx1 dy1 dx2 dy2 : R,
    let denom := (sx0 - sx2) * (sy1 - sy2) - (sx1 - sx2) * (sy0 - sy2) in
    let image (t : @Transform R) (x y : R) :=
      (m11 t * x + m12 t * y + m13 t, m21 t * x + m22 t * y + m23 t) in
    (Rabs denom < 1 / 1000 ->
     drawTexturedTriangle sx0 sy0 sx1 sy1 sx2 sy2 dx0 dy0 dx1 dy1 dx2 dy2
     = None)
    /\ (1 / 1000 <= Rabs denom ->
        exists t,
          drawTexturedTriangle sx0 sy0 sx1 sy1 sx2 sy2 dx0 dy0 dx1 dy1 dx2 dy2
          = Some t
          /\ image t sx0 sy0 = (dx0, dy0)
          /\ image t sx1 sy1 = (dx1, dy1)
          /\ image t sx2 sy2 = (dx2, dy2)
          /\ (dx0 = sx0 -> dy0 = sy0 -> dx1 = sx1 -> dy1 = sy1 ->
              dx2 = sx2 -> dy2 = sy2 ->
              forall x y, image t x y = (x, y))).
Proof.
  intros sx0 sy0 sx1 sy1 sx2 sy2 dx0 dy0 dx1 dy1 dx2 dy2 denom image.
  split.
  - intros Hsmall. unfold drawTexturedTriangle. cbn. fold denom.
    rewrite Rltb_true; [reflexivity | exact Hsmall].
  - intros Hbig.
    assert (Hne : denom <> 0).
    { intros H0. rewrite H0, Rabs_R0 in Hbig. lra. }
    unfold drawTexturedTriangle. cbn. fold denom.
    rewrite Rltb_false by exact Hbig.
    eexists. split; [reflexivity|].
    unfold image. cbn [m11 m12 m13 m21 m22 m23].
    repeat split.
    + f_equal; unfold denom in *; field; exact Hne.
    + f_equal; unfold denom in *; field; exact Hne.
    + f_equal; unfold denom in *; field; exact Hne.
    + intros -> -> -> -> -> -> x y.
      f_equal; unfold denom in *; field; exact Hne.
Qed.

(** X22.  In exact arithmetic.  The clip path of [drawTexturedTriangle] is the
    destination triangle with each vertex pushed straight away from the
    centroid by less than [expand], which lies between 0.3 and 0.8
    pixels. *)
Theorem clipTriangle_expands_by_less_than_a_pixel :
  forall dx0 dy0 dx1 dy1 dx2 dy2 : R,
    let '(expand, ((ex0, ey0), (ex1, ey1), (ex2, ey2))) :=
      Renderer.clipTriangle dx0 dy0 dx1 dy1 dx2 dy2 in
    let cx := (dx0 + dx1 + dx2) / 3 in
    let cy := (dy0 + dy1 + dy2) / 3 in
    let pushed (ex ey dx dy : R) :=
      (ex - dx) ^ 2 + (ey - dy) ^ 2 < expand ^ 2
      /\ exists k, 0 <= k /\ ex - dx = k * (dx - cx) /\ ey - dy = k * (dy - cy) in
    3 / 10 <= expand <= 8 / 10
    /\ pushed ex0 ey0 dx0 dy0
    /\ pushed ex1 ey1 dx1 dy1
    /\ pushed ex2 ey2 dx2 dy2.
Proof.
  intros dx0 dy0 dx1 dy1 dx2 dy2. unfold Renderer.clipTriangle.
  cbv zeta.
  set (expand := Rmax (3 / 10) (Rmin (8 / 10) _)).
  set (cx := (dx0 + dx1 + dx2) / 3). set (cy := (dy0 + dy1 + dy2) / 3).
  assert (He : 3 / 10 <= expand <= 8 / 10).
  { unfold expand, Rmax, Rmin.
    repeat match goal with
      | |- context [Rle_dec ?a ?b] => destruct (Rle_dec a b)
      end; lra. }
  clearbody expand.
  assert (Hpush : forall dx dy,
            let dist := sqrt ((dx - cx) ^ 2 + (dy - cy) ^ 2) + 1 / 100 in
            ((dx + (dx - cx) * expand / dist) - dx) ^ 2
            + ((dy + (dy - cy) * expand / dist) - dy) ^ 2 < expand ^ 2
            /\ exists k, 0 <= k
                 /\ (dx + (dx - cx) * expand / dist) - dx = k * (dx - cx)
                 /\ (dy + (dy - cy) * expand / dist) - dy = k * (dy - cy)).
  { intros dx dy dist.
    set (q := (dx - cx) ^ 2 + (dy - cy) ^ 2) in *.
    assert (Hq : 0 <= q)
      by (unfold q; apply Rplus_le_le_0_compat; apply pow2_ge_0).
    pose proof (sqrt_pos q) as Hs.
    pose proof (sqrt_sqrt q Hq) as Hss.
    assert (Hd : 0 < dist) by (unfold dist; lra).
    split.
    - replace (((dx + (dx - cx) * expand / dist) - dx) ^ 2
               + ((dy + (dy - cy) * expand / dist) - dy) ^ 2)
        with (expand ^ 2 * (q / dist ^ 2)) by (unfold q; field; lra).
      assert (Hlt : q / dist ^ 2 < 1).
      { apply Rmult_lt_reg_r with (dist ^ 2); [nra|].
        replace (q / dist ^ 2 * dist ^ 2) with q by (field; lra).
        unfold dist. nra. }
      assert (He2 : 0 < expand ^ 2) by nra.
      apply (Rmult_lt_compat_l (expand ^ 2)) in Hlt; [lra | exact He2].
    - exists (expand / dist). split.
      + apply Rlt_le, Rdiv_lt_0_compat; lra.
      + split; field; lra. }
  split; [exact He|].
  split; [apply Hpush|]. split; apply Hpush.
Qed.

End RendererSelection.

Section MeshInference.

Local Open Scope R_scope.

Implicit Types (e : PhysicsEngine.t R).

Lemma initVertices_nth {num : Type} {JSN : JSNumber num}
    (e : PhysicsEngine.t num) (x y : nat) :
  (x <= PhysicsEngine.gridSizeX e)%nat ->
  (y <= PhysicsEngine.gridSizeY e)%nat ->
  nth_error (PhysicsEngine.vertices (initVertices e))
    (y * (PhysicsEngine.gridSizeX e + 1) + x)
  = Some (Vertex.mk
            (div (int (Z.of_nat x)) (int (Z.of_nat (PhysicsEngine.gridSizeX e))))
            (div (int (Z.of_nat y)) (int (Z.of_nat (PhysicsEngine.gridSizeY e))))
            (int 0) (int 0)).
Proof.
  intros Hx Hy. unfold initVertices.
  cbn [PhysicsEngine.vertices PhysicsEngine.with_vertices].
  destruct (flat_map_rows _ _ (seq 0 (S (PhysicsEngine.gridSizeY e)))
              (initVertices_row e)) as [_ Hnth].
  replace (PhysicsEngine.gridSizeX e + 1)%nat
    with (S (PhysicsEngine.gridSizeX e)) by lia.
  rewrite (Hnth y x y).
  - rewrite nth_error_map, nth_error_seq.
    destruct (Nat.ltb_spec x (S (PhysicsEngine.gridSizeX e))); [reflexivity|lia].
  - rewrite nth_error_seq.
    destruct (Nat.ltb_spec y (S (PhysicsEngine.gridSizeY e))); [reflexivity|lia].
  - lia.
Qed.

Lemma first_other_row_finds (firstY : R) (ds : list (Sample.t R)) :
  forall n i d,
    (forall k dk, (k < n)%nat -> nth_error ds k = Some dk ->
                  Sample.y dk = firstY) ->
    nth_error ds n = Some d ->
    Sample.y d <> firstY ->
    Renderer.first_other_row firstY ds i = Some (i + n)%nat.
Proof.
  induction ds as [|d0 ds IH]; intros n i d Hrow Hn Hd.
  - destruct n; discriminate.
  - cbn [Renderer.first_other_row]. destruct n as [|n].
    + injection Hn as ->.
      destruct (Req_dec_T (Sample.y d) firstY); [contradiction|].
      now rewrite Nat.add_0_r.
    + destruct (Req_dec_T (Sample.y d0) firstY) as [_|Hne].
      * rewrite (IH n (S i) d); [f_equal; lia | | exact Hn | exact Hd].
        intros k dk Hk Hdk. apply (Hrow (S k) dk); [lia | exact Hdk].
      * exfalso. apply Hne. apply (Hrow 0%nat d0); [lia | reflexivity].
Qed.

Lemma Math_round_INR (n : nat) : Math_round (INR n) = Z.of_nat n.
Proof.
  change (Math_round (INR n)) with (Rround (INR n)).
  unfold Rround. symmetry. apply Int_part_spec.
  rewrite <- INR_IZR_INZ. lra.
Qed.

Lemma inferGridSize_of_rows (X Y : nat) (ds : list (Sample.t R)) :
  (1 <= X)%nat -> (1 <= Y)%nat ->
  List.length ds = ((X + 1) * (Y + 1))%nat ->
  (forall x y d,
     (x <= X)%nat -> (y <= Y)%nat ->
     nth_error ds (y * (X + 1) + x) = Some d ->
     Sample.y d = INR y / INR Y) ->
  Renderer.inferGridSize ds = (Z.of_nat X, Z.of_nat Y).
Proof.
  intros HX HY Hlen Hrows. unfold Renderer.inferGridSize.
  destruct ds as [|d0 [|d1 ds']]; [cbn in Hlen; nia | cbn in Hlen; nia |].
  cbv iota. set (ds := d0 :: d1 :: ds') in *.
  assert (Hd0 : nth_error ds 0 = Some d0) by reflexivity.
  clearbody ds.
  assert (H0 : Sample.y d0 = 0).
  { rewrite (Hrows 0%nat 0%nat d0); [cbn; lra | lia | lia | exact Hd0]. }
  assert (Hlt : (X + 1 < List.length ds)%nat) by (rewrite Hlen; nia).
  destruct (nth_error ds (X + 1)) as [d|] eqn:Hd;
    [|apply nth_error_None in Hd; lia].
  assert (Hy1 : Sample.y d = 1 / INR Y).
  { rewrite (Hrows 0%nat 1%nat d); [cbn; lra | lia | lia |].
    rewrite <- Hd. f_equal. lia. }
  assert (HYpos : 0 < INR Y) by (apply lt_0_INR; lia).
  rewrite (first_other_row_finds (Sample.y d0) ds (X + 1) 0 d).
  - cbn [Nat.add].
    replace (Z.of_nat (X + 1) - 1)%Z with (Z.of_nat X) by lia.
    destruct (Z.eqb_spec (Z.of_nat X) 0) as [H|_]; [lia|].
    f_equal. rewrite Hlen.
    replace (INR ((X + 1) * (Y + 1)) / IZR (Z.of_nat X + 1))
      with (INR (Y + 1)).
    + rewrite Math_round_INR. lia.
    + rewrite mult_INR, plus_IZR, <- INR_IZR_INZ, !plus_INR. cbn [INR].
      pose proof (pos_INR X). field. lra.
  - intros k dk Hk Hdk. rewrite H0.
    rewrite (Hrows k 0%nat dk); [cbn; lra | lia | lia | exact Hdk].
  - exact Hd.
  - rewrite H0, Hy1. intros H.
    apply (Rmult_eq_compat_r (INR Y)) in H.
    unfold Rdiv in H. rewrite Rmult_assoc, Rinv_l in H; lra.
Qed.

Lemma samples_rows e (ds : list (Sample.t R)) :
  List.map (fun s => (Sample.x s, Sample.y s)) ds
  = List.map (fun v => (Vertex.baseX v, Vertex.baseY v))
      (PhysicsEngine.vertices (initVertices e)) ->
  List.length ds
  = ((PhysicsEngine.gridSizeX e + 1) * (PhysicsEngine.gridSizeY e + 1))%nat
  /\ (forall x y d,
        (x <= PhysicsEngine.gridSizeX e)%nat ->
        (y <= PhysicsEngine.gridSizeY e)%nat ->
        nth_error ds (y * (PhysicsEngine.gridSizeX e + 1) + x) = Some d ->
        Sample.x d = INR x / INR (PhysicsEngine.gridSizeX e)
        /\ Sample.y d = INR y / INR (PhysicsEngine.gridSizeY e)).
Proof.
  intros Hmap. split.
  - rewrite <- (length_map (fun s => (Sample.x s, Sample.y s))), Hmap,
      length_map.
    apply initVertices_length.
  - intros x y d Hx Hy Hd.
    pose proof (f_equal
                  (fun l => nth_error l
                              (y * (PhysicsEngine.gridSizeX e + 1) + x))
                  Hmap) as Hn.
    cbn beta in Hn. rewrite !nth_error_map, Hd in Hn.
    rewrite (initVertices_nth e x y Hx Hy) in Hn.
    cbn [option_map Vertex.baseX Vertex.baseY] in Hn.
    injection Hn as -> ->.
    rewrite <- !INR_IZR_INZ, !Rdiv_1_r. split; reflexivity.
Qed.

(** X23.  In exact arithmetic, for an engine whose vertices are those
    [initVertices] builds for a grid of at least one cell in each
    direction: from the arrays that [getDisplacements], [update] and
    [applyForceAtPosition] return, [renderWithMeshDeformation] infers
    the grid sizes of the engine, [gridSizeX] from the length of the
    first row of equal [y] and [gridSizeY] from the number of samples;
    and the four indices it computes for a cell of that grid are those
    of the corners of the cell: samples at
    [(gx / gridSizeX, gy / gridSizeY)] and its right, lower and
    lower-right neighbours. *)
Theorem inferGridSize_recovers_grid :
  forall e force patternId posX posY,
    (1 <= PhysicsEngine.gridSizeX e)%nat ->
    (1 <= PhysicsEngine.gridSizeY e)%nat ->
    PhysicsEngine.vertices e = PhysicsEngine.vertices (initVertices e) ->
    let X := PhysicsEngine.gridSizeX e in
    let Y := PhysicsEngine.gridSizeY e in
    let corner (ds : list (Sample.t R)) (i x y : nat) :=
      exists d,
        nth_error ds i = Some d
        /\ Sample.x d = INR x / INR X /\ Sample.y d = INR y / INR Y in
    forall ds,
      ds = getDisplacements e
      \/ ds = snd (update e force patternId)
      \/ ds = snd (applyForceAtPosition e force posX posY) ->
      Renderer.inferGridSize ds = (Z.of_nat X, Z.of_nat Y)
      /\ (forall gx gy,
            (gx < X)%nat -> (gy < Y)%nat ->
            let '(i00, i10, i01, i11) := Renderer.cellIndices X gx gy in
            corner ds i00 gx gy
            /\ corner ds i10 (gx + 1)%nat gy
            /\ corner ds i01 gx (gy + 1)%nat
            /\ corner ds i11 (gx + 1)%nat (gy + 1)%nat).
Proof.
  intros e force patternId posX posY HX HY Hv X Y corner ds Hds.
  assert (Hmap : List.map (fun s => (Sample.x s, Sample.y s)) ds
                 = List.map (fun v => (Vertex.baseX v, Vertex.baseY v))
                     (PhysicsEngine.vertices (initVertices e))).
  { rewrite <- Hv. destruct Hds as [-> | [-> | ->]].
    - apply samples_follow_vertices.
    - change (snd (update e force patternId))
        with (calculateVertexDisplacements (fst (update e force patternId))).
      rewrite samples_follow_vertices. reflexivity.
    - change (snd (applyForceAtPosition e force posX posY))
        with (calculateVertexDisplacements
                (fst (applyForceAtPosition e force posX posY))).
      rewrite samples_follow_vertices. reflexivity. }
  destruct (samples_rows e ds Hmap) as [Hlen Hrows]. fold X Y in Hlen, Hrows.
  split.
  - apply inferGridSize_of_rows; try assumption.
    intros x y d Hx Hy Hd. now apply (Hrows x y d).
  - assert (Hcorner : forall x y, (x <= X)%nat -> (y <= Y)%nat ->
                        corner ds (y * (X + 1) + x)%nat x y).
    { intros x y Hx Hy.
      destruct (nth_error ds (y * (X + 1) + x)) as [d|] eqn:Hd.
      - exists d. split; [exact Hd|]. now apply (Hrows x y d).
      - apply nth_error_None in Hd. rewrite Hlen in Hd. nia. }
    intros gx gy Hgx Hgy. unfold Renderer.cellIndices.
    split; [apply Hcorner; lia|].
    split.
    { replace (gy * (X + 1) + gx + 1)%nat with (gy * (X + 1) + (gx + 1))%nat
        by lia.
      apply Hcorner; lia. }
    split; [apply Hcorner; lia|].
    replace ((gy + 1) * (X + 1) + gx + 1)%nat
      with ((gy + 1) * (X + 1) + (gx + 1))%nat by lia.
    apply Hcorner; lia.
Qed.

End MeshInference.

(** *** The application: the two region lists *)

Section AppRegions.

Context {num : Type} {JSN : JSNumber num} {JST : JSTrig num}
  {JSR : JSRound num}.

Local Open Scope js_scope.

Implicit Types (a : App.t num) (e : PhysicsEngine.t num).

Lemma rects_same_motion (rs rs' : list (Region.t num)) :
  Forall2 same_but_motion rs rs' ->
  List.map App.rect_of rs' = List.map App.rect_of rs.
Proof.
  induction 1 as [|r r' rs rs' (Hx & Hy & Hw & Hh & _) _ IH]; [reflexivity|].
  cbn [List.map]. rewrite IH. f_equal.
  unfold App.rect_of. now rewrite Hx, Hy, Hw, Hh.
Qed.

Lemma rects_same_velocity (rs rs' : list (Region.t num)) :
  Forall2 same_but_velocity rs rs' ->
  List.map App.rect_of rs' = List.map App.rect_of rs.
Proof.
  induction 1 as [|r r' rs rs' (Hx & Hy & Hw & Hh & _) _ IH]; [reflexivity|].
  cbn [List.map]. rewrite IH. f_equal.
  unfold App.rect_of. now rewrite Hx, Hy, Hw, Hh.
Qed.

Lemma rects_same_tuning (rs rs' : list (Region.t num)) :
  Forall2 same_but_tuning rs rs' ->
  List.map App.rect_of rs' = List.map App.rect_of rs.
Proof.
  induction 1 as [|r r' rs rs' (Hx & Hy & Hw & Hh & _) _ IH]; [reflexivity|].
  cbn [List.map]. rewrite IH. f_equal.
  unfold App.rect_of. now rewrite Hx, Hy, Hw, Hh.
Qed.

Lemma rects_after_call e (c : @Call num) :
  match c with
  | CallAddRegion _ _ _ _ | CallSetRegions _ | CallClearRegions
  | CallRemoveRegion _ => True
  | _ =>
      List.map App.rect_of (PhysicsEngine.regions (call e c))
      = List.map App.rect_of (PhysicsEngine.regions e)
  end.
Proof.
  destruct c; cbn [call]; try exact I; try reflexivity.
  - apply rects_same_motion.
    unfold update. cbn [fst PhysicsEngine.regions PhysicsEngine.with_regions].
    apply update_regions_same.
  - unfold updatePressPosition.
    destruct (JSMap.get id (PhysicsEngine.pressPoints e)); reflexivity.
  - unfold endPress.
    destruct (JSMap.get id (PhysicsEngine.pressPoints e)); [|reflexivity].
    cbn [PhysicsEngine.regions PhysicsEngine.with_regions
         PhysicsEngine.with_pressPoints].
    apply rects_same_velocity, endPress_regions_same.
  - unfold applyForceAtPosition.
    cbn [fst PhysicsEngine.regions PhysicsEngine.with_regions].
    change (PhysicsEngine.regions (updatePressState e))
      with (PhysicsEngine.regions e).
    rewrite map_map. apply map_ext. intros r.
    rewrite applyForceAtPosition_region_spec.
    destruct (ltb _ _); [|reflexivity].
    destruct (region_step_spec_same (updatePressState e) r
                (or0 (Vec2.x force) * PhysicsEngine.sensitivity (updatePressState e)
                 * calculateRegionInfluence posX posY r)
                (or0 (Vec2.y force) * PhysicsEngine.sensitivity (updatePressState e)
                 * calculateRegionInfluence posX posY r))
      as (Hx & Hy & Hw & Hh & _).
    unfold App.rect_of. now rewrite Hx, Hy, Hw, Hh.
  - apply rects_same_velocity. unfold applyImpulse.
    cbn [PhysicsEngine.regions PhysicsEngine.with_regions].
    apply applyImpulse_regions_same.
  - unfold reset.
    cbn [PhysicsEngine.regions PhysicsEngine.with_regions
         PhysicsEngine.with_vertices PhysicsEngine.with_forceHistory].
    rewrite map_map. reflexivity.
  - apply rects_same_tuning. unfold setPhysicsParams.
    cbn [PhysicsEngine.regions PhysicsEngine.with_regions].
    apply retune_regions_same.
  - apply rects_same_tuning. unfold resetToDefaults.
    cbn [PhysicsEngine.regions PhysicsEngine.with_regions].
    apply retune_regions_same.
Qed.

Lemma rects_fold_addRegion (rects : list (Rect.t num * (num * num * bool))) :
  forall e0,
    List.map App.rect_of
      (PhysicsEngine.regions
         (fold_left (fun e1 '(r, (u1, u2, coin)) => addRegion e1 r u1 u2 coin)
            rects e0))
    = List.map App.rect_of (PhysicsEngine.regions e0) ++ List.map fst rects.
Proof.
  induction rects as [|[r [[u1 u2] coin]] rects IH]; intros e0.
  - cbn. now rewrite app_nil_r.
  - cbn [fold_left List.map fst]. rewrite IH, addRegion_regions, map_app.
    rewrite <- app_assoc. cbn [List.map app created_region App.rect_of
      Region.x Region.y Region.width Region.height].
    destruct r. reflexivity.
Qed.

Lemma with_draws_regions (regions : list (Rect.t num)) draws :
  forall i, List.map fst (App.with_draws regions draws i) = regions.
Proof.
  induction regions as [|r rs IH]; intros i; cbn; [reflexivity|].
  now rewrite IH.
Qed.

Lemma calculateGridSize_regions e :
  PhysicsEngine.regions (calculateGridSize e) = PhysicsEngine.regions e.
Proof.
  unfold calculateGridSize.
  destruct (geb (PhysicsEngine.aspectRatio e) (int 1)); reflexivity.
Qed.

Lemma setImageAspectRatio_regions e (width height : num) :
  PhysicsEngine.regions (setImageAspectRatio e width height)
  = PhysicsEngine.regions e.
Proof.
  unfold setImageAspectRatio, initVertices.
  cbn [PhysicsEngine.regions PhysicsEngine.with_vertices].
  now rewrite calculateGridSize_regions.
Qed.

Lemma setGridDensity_regions e (density : Z) :
  PhysicsEngine.regions (setGridDensity e density) = PhysicsEngine.regions e.
Proof.
  unfold setGridDensity, initVertices.
  cbn [PhysicsEngine.regions PhysicsEngine.with_vertices].
  now rewrite calculateGridSize_regions.
Qed.

Lemma resize_regions a (canvas_width canvas_height devicePixelRatio : num) :
  App.physics (App.resize a canvas_width canvas_height devicePixelRatio)
  = App.physics a
  /\ App.renderer_regions
       (App.resize a canvas_width canvas_height devicePixelRatio)
     = App.renderer_regions a.
Proof.
  unfold App.resize. destruct (App.image a) as [[w h]|]; split; reflexivity.
Qed.

Lemma animate_in_step a :
  List.map App.rect_of (PhysicsEngine.regions (App.physics a))
  = App.renderer_regions a ->
  List.map App.rect_of
    (PhysicsEngine.regions (App.physics (fst (App.animate a))))
  = App.renderer_regions (fst (App.animate a)).
Proof.
  intros Hsync. unfold App.animate.
  destruct (negb (App.isAnimating a)); [exact Hsync|].
  pose proof (rects_after_call (App.physics a)
                (CallUpdate (Vec2.mk (int 0) (int 0)) None)) as H.
  cbn [call] in H.
  destruct (update (App.physics a) (Vec2.mk (int 0) (int 0)) None).
  cbn [fst App.physics App.renderer_regions] in *. now rewrite H.
Qed.

Lemma loadImage_in_step a (img_width img_height : num)
    (canvas_width canvas_height devicePixelRatio : num) :
  List.map App.rect_of (PhysicsEngine.regions (App.physics a))
  = App.renderer_regions a ->
  let a' :=
    App.loadImage a img_width img_height canvas_width canvas_height
      devicePixelRatio in
  List.map App.rect_of (PhysicsEngine.regions (App.physics a'))
  = App.renderer_regions a'.
Proof.
  intros Hsync a'. unfold a', App.loadImage.
  destruct (resize_regions
              (App.mk (setImageAspectRatio (App.physics a) img_width img_height)
                 (App.renderer_regions a) (Some (img_width, img_height))
                 (App.imageRect a) (App.isAnimating a))
              canvas_width canvas_height devicePixelRatio) as [-> ->].
  cbn [App.physics App.renderer_regions].
  now rewrite setImageAspectRatio_regions.
Qed.

Lemma restored_regions_in_step
    (regions : list (Rect.t num * (num * num * bool))) :
  forall a,
    List.map App.rect_of (PhysicsEngine.regions (App.physics a))
    = App.renderer_regions a ->
    let a' :=
      fold_left
        (fun a '(region, (u1, u2, coin)) =>
           App.mk (addRegion (App.physics a) region u1 u2 coin)
             (Renderer.addRegion (App.renderer_regions a) region)
             (App.image a) (App.imageRect a) (App.isAnimating a))
        regions a in
    List.map App.rect_of (PhysicsEngine.regions (App.physics a'))
    = App.renderer_regions a'.
Proof.
  induction regions as [|[region [[u1 u2] coin]] regions IH];
    intros a Hsync; cbn zeta; [exact Hsync|].
  cbn [fold_left]. apply IH.
  cbn [App.physics App.renderer_regions]. unfold Renderer.addRegion.
  rewrite addRegion_regions, map_app, Hsync.
  destruct region. reflexivity.
Qed.

Lemma handle_in_step a (ev : @App.Event num) :
  List.map App.rect_of (PhysicsEngine.regions (App.physics a))
  = App.renderer_regions a ->
  List.map App.rect_of (PhysicsEngine.regions (App.physics (App.handle a ev)))
  = App.renderer_regions (App.handle a ev).
Proof.
  intros Hsync. destruct ev; cbn [App.handle].
  - unfold App.onRegionSelected, Renderer.addRegion.
    cbn [App.physics App.renderer_regions].
    rewrite addRegion_regions, map_app, Hsync.
    destruct region. reflexivity.
  - unfold App.deleteRegionAt, Renderer.removeRegion, removeRegion.
    cbn [App.physics App.renderer_regions].
    rewrite <- Hsync, length_map.
    destruct (_ && _)%bool; [|reflexivity].
    cbn [PhysicsEngine.regions PhysicsEngine.with_regions].
    now rewrite map_app, firstn_map, skipn_map.
  - unfold App.startAnimation. apply animate_in_step.
    unfold setRegions. cbn [App.physics App.renderer_regions].
    rewrite rects_fold_addRegion, with_draws_regions. reflexivity.
  - unfold App.enterEditMode. cbn [App.physics App.renderer_regions].
    rewrite <- Hsync. exact (rects_after_call (App.physics a) CallReset).
  - reflexivity.
  - unfold App.handleMotion.
    destruct (negb (App.isAnimating a)); [exact Hsync|].
    cbn [App.physics App.renderer_regions]. rewrite <- Hsync.
    destruct data.
    + exact (rects_after_call (App.physics a)
               (CallUpdate force (Some patternId))).
    + exact (rects_after_call (App.physics a) (CallUpdate force None)).
    + exact (rects_after_call (App.physics a)
               (CallApplyForceAtPosition force _ _)).
    + exact (rects_after_call (App.physics a) (CallUpdate force None)).
    + exact (rects_after_call (App.physics a) (CallUpdate force None)).
    + reflexivity.
    + exact (rects_after_call (App.physics a) (CallEndPress id random)).
    + exact (rects_after_call (App.physics a)
               (CallApplyImpulse impulse random)).
  - now apply animate_in_step.
  - destruct (resize_regions a canvas_width canvas_height devicePixelRatio)
      as [-> ->].
    exact Hsync.
  - now apply loadImage_in_step.
  - reflexivity.
  - unfold App.loadPreset_restore.
    cbn [App.physics App.renderer_regions].
    pose proof (restored_regions_in_step regions _
                  (loadImage_in_step a img_width img_height canvas_width
                     canvas_height devicePixelRatio Hsync)) as H.
    cbn zeta in H. rewrite <- H.
    set (a2 := fold_left _ regions _).
    assert (H1 : List.map App.rect_of
                   (PhysicsEngine.regions
                      match physicsParams with
                      | Some (params, random) =>
                          setPhysicsParams (App.physics a2) params random
                      | None => App.physics a2
                      end)
                 = List.map App.rect_of
                     (PhysicsEngine.regions (App.physics a2))).
    { destruct physicsParams as [[params random]|]; [|reflexivity].
      exact (rects_after_call (App.physics a2)
               (CallSetPhysicsParams params random)). }
    destruct gridDensity as [density|]; [|exact H1].
    now rewrite setGridDensity_regions.
  - cbn [App.physics App.renderer_regions].
    now rewrite setGridDensity_regions.
  - cbn [App.physics App.renderer_regions]. rewrite <- Hsync.
    exact (rects_after_call (App.physics a)
             (CallSetPhysicsParams params random)).
  - unfold App.resetPhysicsSettings.
    cbn [App.physics App.renderer_regions]. rewrite <- Hsync.
    pose proof (rects_after_call (setGridDensity (App.physics a) 20)
                  (CallResetToDefaults random)) as H.
    cbn [call] in H. rewrite H.
    now rewrite setGridDensity_regions.
Qed.

(** X24.  Whatever happens to an application after its start (an image
    loaded, regions selected or deleted, the animation started, edited
    or reset, a preset loaded, motion events, frames, resizes of the
    window, changes of the sliders of the settings and their reset),
    the engine and the renderer hold the same regions: as many, in the
    same order, the region of the engine at an index having the box of
    the region of the renderer there.  So the index [hitTestRegion]
    finds in the list of the renderer is the index of that region in
    the engine.  While [isAnimating] is false a motion event changes
    nothing and no frame is drawn. *)
Theorem app_region_lists_stay_in_step :
  forall events : list (@App.Event num),
    let a := fold_left App.handle events App.new_App in
    List.map App.rect_of (PhysicsEngine.regions (App.physics a))
    = App.renderer_regions a
    /\ getRegionCount (App.physics a)
       = Renderer.getRegionCount (App.renderer_regions a)
    /\ (forall index region,
          nth_error (App.renderer_regions a) index = Some region ->
          exists r,
            nth_error (PhysicsEngine.regions (App.physics a)) index = Some r
            /\ App.rect_of r = region)
    /\ (forall rect_left rect_top data random,
          App.isAnimating a = false ->
          App.handleMotion a rect_left rect_top data random = a
          /\ App.animate a = (a, None)).
Proof.
  intros events.
  assert (H : forall a0,
            List.map App.rect_of (PhysicsEngine.regions (App.physics a0))
            = App.renderer_regions a0 ->
            let a := fold_left App.handle events a0 in
            List.map App.rect_of (PhysicsEngine.regions (App.physics a))
            = App.renderer_regions a).
  { induction events as [|ev events IH]; intros a0 Hsync; cbn zeta.
    - exact Hsync.
    - cbn [fold_left]. apply IH. now apply handle_in_step. }
  intros a. pose proof (H App.new_App eq_refl) as Hsync.
  fold a in Hsync.
  split; [exact Hsync|]. split.
  { unfold getRegionCount, Renderer.getRegionCount.
    now rewrite <- Hsync, length_map. }
  split.
  { intros index region Hnth. rewrite <- Hsync in Hnth.
    rewrite nth_error_map in Hnth.
    destruct (nth_error (PhysicsEngine.regions (App.physics a)) index)
      as [r|]; [|discriminate].
    injection Hnth as <-. exists r. split; reflexivity. }
  intros rect_left rect_top data random Hoff.
  unfold App.handleMotion, App.animate. rewrite Hoff. split; reflexivity.
Qed.

End AppRegions.

(** *** The motion sensor *)

Section SensorPatterns.

Local Open Scope R_scope.

Lemma sin_range (v : R) : -1 <= sin v <= 1.
Proof. apply SIN_bound. Qed.

Lemma cos_range (v : R) : -1 <= cos v <= 1.
Proof. apply COS_bound. Qed.

Lemma abs_sin_range (v : R) : 0 <= Rabs (sin v) <= 1.
Proof.
  split; [apply Rabs_pos|]. apply Rabs_le. apply sin_range.
Qed.

Lemma landing_range (t : R) (v : R) :
  0 <= t -> -1 <= sin v * exp (- t * 3) <= 1.
Proof.
  intros Ht. pose proof (sin_range v) as Hs.
  pose proof (exp_pos (- t * 3)) as Hp.
  assert (He : exp (- t * 3) <= 1).
  { rewrite <- exp_0. destruct (Req_dec t 0) as [->|Hne].
    - replace (- 0 * 3) with 0 by ring. lra.
    - left. apply exp_increasing. lra. }
  split; nra.
Qed.

Ltac pattern_cases patternId :=
  unfold MotionSensor.calculatePatternForce;
  destruct (String.eqb patternId "breath");
  [|destruct (String.eqb patternId "walk");
    [|destruct (String.eqb patternId "run");
      [|destruct (String.eqb patternId "jump");
        [|destruct (String.eqb patternId "shake");
          [|destruct (String.eqb patternId "wave");
            [|destruct (String.eqb patternId "kneadLeft");
              [|destruct (String.eqb patternId "kneadRight")]]]]]]].

(** X25.  In exact arithmetic.  Whatever the pattern id and the time,
    [calculatePatternForce] returns a force with [|x| <= 0.6] and
    [|y| <= 1.5]; an id that names no pattern gives no force.  The two
    knead patterns move on the circle of radius 0.5, [kneadLeft] being
    [kneadRight] mirrored in [y].  The timer of [startAutoSway] hands
    nothing to the callback when the sensor is stopped or the automatic
    sway is off; when the sensor runs with the automatic sway on, it
    hands over exactly one motion: that force scaled by [autoStrength],
    with the id of the current pattern.  The current pattern always
    exists: the constructor starts at the first one, and [setPattern]
    moves to the pattern of the given id, or changes nothing when no
    pattern has it. *)
Theorem pattern_forces_are_bounded :
  forall (patternId : string) (time : R),
    let force := MotionSensor.calculatePatternForce patternId time in
    Rabs (Vec2.x force) <= 6 / 10
    /\ Rabs (Vec2.y force) <= 15 / 10
    /\ (~ In patternId MotionSensor.autoPatterns -> force = Vec2.mk 0 0)
    /\ (let left := MotionSensor.calculatePatternForce "kneadLeft" time in
        let right := MotionSensor.calculatePatternForce "kneadRight" time in
        Vec2.x left * Vec2.x left + Vec2.y left * Vec2.y left = 1 / 4
        /\ Vec2.x right * Vec2.x right + Vec2.y right * Vec2.y right = 1 / 4
        /\ Vec2.x left = Vec2.x right /\ Vec2.y left = - Vec2.y right)
    /\ (forall s : MotionSensor.t R,
          MotionSensor.isRunning s = false
          \/ MotionSensor.autoEnabled s = false ->
          MotionSensor.autoSway s time = [])
    /\ (forall (s : MotionSensor.t R) (id : string),
          MotionSensor.isRunning s = true ->
          MotionSensor.autoEnabled s = true ->
          nth_error MotionSensor.autoPatterns
            (MotionSensor.currentPatternIndex s) = Some id ->
          MotionSensor.autoSway s time
          = [MotionData.auto
               (Vec2.mk
                  (Vec2.x (MotionSensor.calculatePatternForce id time)
                   * MotionSensor.autoStrength s)
                  (Vec2.y (MotionSensor.calculatePatternForce id time)
                   * MotionSensor.autoStrength s))
               id])
    /\ (forall window_orientation,
          nth_error MotionSensor.autoPatterns
            (MotionSensor.currentPatternIndex
               (@MotionSensor.new_MotionSensor R _ window_orientation))
          = Some "breath"%string)
    /\ (forall s : MotionSensor.t R,
          (In patternId MotionSensor.autoPatterns ->
           nth_error MotionSensor.autoPatterns
             (MotionSensor.currentPatternIndex
                (MotionSensor.setPattern s patternId))
           = Some patternId)
          /\ (~ In patternId MotionSensor.autoPatterns ->
              MotionSensor.setPattern s patternId = s)).
Proof.
  intros patternId time force.
  split; [|split; [|split; [|split; [|split; [|split; [|split]]]]]].
  - unfold force. pattern_cases patternId; cbn [Vec2.x];
      try (rewrite Rabs_R0; lra); apply Rabs_le;
      repeat match goal with
        | |- context [sin ?v] =>
            lazymatch goal with
            | _ : -1 <= sin v <= 1 |- _ => fail
            | _ => pose proof (sin_range v)
            end
        | |- context [cos ?v] =>
            lazymatch goal with
            | _ : -1 <= cos v <= 1 |- _ => fail
            | _ => pose proof (cos_range v)
            end
        end; lra.
  - unfold force. pattern_cases patternId; cbn [Vec2.y];
      try (rewrite Rabs_R0; lra); apply Rabs_le.
    + pose proof (sin_range (time * (15 / 10))).
      pose proof (sin_range (time * (23 / 10))). lra.
    + pose proof (abs_sin_range (time * 4)). lra.
    + pose proof (abs_sin_range (time * 8)).
      pose proof (sin_range (time * 16)). lra.
    + set (jumpCycle := MotionSensor.remainder (time * (15 / 10)) (PI * 2)).
      destruct (Rlt_dec jumpCycle (PI * (3 / 10))) as [H1|H1].
      * pose proof (sin_range (jumpCycle / (3 / 10) * PI / 2)). lra.
      * destruct (Rlt_dec jumpCycle (PI * 1)) as [H2|H2].
        -- pose proof (cos_range
                         ((jumpCycle - PI * (3 / 10)) / (7 / 10) * PI / 2)).
           lra.
        -- assert (Ht : 0 <= (jumpCycle - PI) / PI).
           { pose proof PI_RGT_0 as Hpi.
             apply Rmult_le_reg_r with PI; [lra|].
             unfold Rdiv. rewrite Rmult_assoc, Rinv_l by lra. lra. }
           pose proof (landing_range ((jumpCycle - PI) / PI)
                         ((jumpCycle - PI) / PI * PI * 3) Ht).
           lra.
    + pose proof (sin_range (time * 20)). pose proof (sin_range (time * 27)).
      pose proof (sin_range (time * 33)). lra.
    + pose proof (sin_range (time * 3)).
      pose proof (sin_range (time * (55 / 10))). lra.
    + pose proof (sin_range (- time * 3)). lra.
    + pose proof (sin_range (time * 3)). lra.
  - intros Hnot. unfold force, MotionSensor.calculatePatternForce.
    repeat match goal with
      | |- context [String.eqb patternId ?p] =>
          destruct (String.eqb_spec patternId p) as [->|_];
          [exfalso; apply Hnot; cbn; tauto|]
      end.
    reflexivity.
  - cbn zeta. cbn.
    replace (- time * 3) with (- (time * 3)) by ring.
    rewrite cos_neg, sin_neg.
    pose proof (sin2_cos2 (time * 3)) as H. unfold Rsqr in H.
    repeat split; nra.
  - intros s Hoff. unfold MotionSensor.autoSway.
    destruct Hoff as [-> | ->]; [reflexivity|].
    destruct (MotionSensor.isRunning s); reflexivity.
  - intros s id Hrun Hauto Hid. unfold MotionSensor.autoSway.
    rewrite Hrun, Hauto, Hid. reflexivity.
  - intros window_orientation. reflexivity.
  - intros s. split.
    + intros Hin. unfold MotionSensor.setPattern.
      cbn in Hin.
      repeat (destruct Hin as [<- | Hin]; [reflexivity|]).
      destruct Hin.
    + intros Hnot. unfold MotionSensor.setPattern, MotionSensor.autoPatterns.
      cbn [MotionSensor.findIndex].
      repeat match goal with
        | |- context [String.eqb ?p patternId] =>
            destruct (String.eqb_spec p patternId) as [<-|_];
            [exfalso; apply Hnot; cbn; tauto|]
        end.
      reflexivity.
Qed.

(** X26.  In exact arithmetic.  From the 1.0 of the constructor, whatever
    calls of [increaseStrength], [decreaseStrength] and
    [setAutoStrength] follow, [autoStrength] stays in [[0.25, 2]];
    [setAutoStrength] leaves it in [[0.5, 2]], and three calls of
    [decreaseStrength] on a new sensor bring it to 0.25. *)
Theorem autoStrength_stays_in_range :
  forall (window_orientation : Z) (cs : list (@MotionSensor.StrengthCall R)),
    let s0 := MotionSensor.new_MotionSensor window_orientation in
    let s := fold_left MotionSensor.strengthCall cs s0 in
    25 / 100 <= MotionSensor.autoStrength s <= 2
    /\ (forall value,
          5 / 10
          <= MotionSensor.autoStrength (MotionSensor.setAutoStrength s value)
          <= 2)
    /\ MotionSensor.autoStrength
         (MotionSensor.decreaseStrength
            (MotionSensor.decreaseStrength (MotionSensor.decreaseStrength s0)))
       = 25 / 100.
Proof.
  intros window_orientation cs s0 s.
  assert (Hstep : forall (s1 : MotionSensor.t R) c,
            25 / 100 <= MotionSensor.autoStrength s1 <= 2 ->
            25 / 100
            <= MotionSensor.autoStrength (MotionSensor.strengthCall s1 c) <= 2).
  { intros s1 c H. destruct c; cbn; unfold Rmax, Rmin;
      repeat match goal with
        | |- context [Rle_dec ?a ?b] => destruct (Rle_dec a b)
        end; lra. }
  split.
  { unfold s. assert (H0 : 25 / 100 <= MotionSensor.autoStrength s0 <= 2)
      by (cbn; lra).
    revert H0. generalize s0. induction cs as [|c cs IH]; intros s1 H1;
      [exact H1|].
    cbn [fold_left]. apply IH, Hstep, H1. }
  split.
  { intros value. cbn. unfold Rmax, Rmin.
    repeat match goal with
      | |- context [Rle_dec ?a ?b] => destruct (Rle_dec a b)
      end; lra. }
  cbn. unfold Rmax.
  repeat match goal with
    | |- context [Rle_dec ?a ?b] => destruct (Rle_dec a b)
    end; lra.
Qed.

End SensorPatterns.

Section SensorEvents.

Local Open Scope R_scope.

Implicit Types (s : MotionSensor.t R).

Lemma total_force_cons (data : MotionData.t R) (events : list (MotionData.t R)) :
  total_force (data :: events)
  = match force_of data with
    | Some force =>
        (Vec2.x force + fst (total_force events),
         Vec2.y force + snd (total_force events))
    | None => total_force events
    end.
Proof.
  unfold total_force. cbn [fold_right].
  destruct (fold_right _ _ events) as [x y].
  destruct (force_of data); reflexivity.
Qed.

Lemma handleDeviceMotion_step s (acc : option (Vec2.t R)) :
  let '(s', events) := MotionSensor.handleDeviceMotion s acc in
  fst (total_force events)
  = (Vec2.x (MotionSensor.lastAcceleration s')
     - Vec2.x (MotionSensor.lastAcceleration s)) * (5 / 10)
  /\ snd (total_force events)
     = (Vec2.y (MotionSensor.lastAcceleration s')
        - Vec2.y (MotionSensor.lastAcceleration s)) * (5 / 10)
  /\ Forall (fun data => exists force, data = MotionData.accelerometer force)
       events
  /\ MotionSensor.orientation s' = MotionSensor.orientation s
  /\ MotionSensor.lastMousePosition s' = MotionSensor.lastMousePosition s.
Proof.
  unfold MotionSensor.handleDeviceMotion.
  assert (Hnone : forall s0 : MotionSensor.t R,
            fst (total_force (@nil (MotionData.t R)))
            = (Vec2.x (MotionSensor.lastAcceleration s0)
               - Vec2.x (MotionSensor.lastAcceleration s0)) * (5 / 10)
            /\ snd (total_force (@nil (MotionData.t R)))
               = (Vec2.y (MotionSensor.lastAcceleration s0)
                  - Vec2.y (MotionSensor.lastAcceleration s0)) * (5 / 10)).
  { intros s0.
    change (total_force (@nil (MotionData.t R))) with (0 / 1, 0 / 1).
    cbn [fst snd]. split; lra. }
  destruct (negb (MotionSensor.isRunning s)
            || negb (MotionSensor.sensorEnabled s))%bool.
  { destruct (Hnone s). repeat split; try assumption. constructor. }
  destruct acc as [acc|].
  2:{ destruct (Hnone s). repeat split; try assumption. constructor. }
  cbv zeta. rewrite !or0_R.
  assert (Hone : forall x y : R,
            let s' := MotionSensor.with_lastAcceleration s (Vec2.mk x y) in
            let events :=
              [MotionData.accelerometer
                 (Vec2.mk
                    ((x - Vec2.x (MotionSensor.lastAcceleration s)) * (5 / 10))
                    ((y - Vec2.y (MotionSensor.lastAcceleration s)) * (5 / 10)))] in
            fst (total_force events)
            = (Vec2.x (MotionSensor.lastAcceleration s')
               - Vec2.x (MotionSensor.lastAcceleration s)) * (5 / 10)
            /\ snd (total_force events)
               = (Vec2.y (MotionSensor.lastAcceleration s')
                  - Vec2.y (MotionSensor.lastAcceleration s)) * (5 / 10)
            /\ Forall
                 (fun data => exists force, data = MotionData.accelerometer force)
                 events
            /\ MotionSensor.orientation s' = MotionSensor.orientation s
            /\ MotionSensor.lastMousePosition s'
               = MotionSensor.lastMousePosition s).
  { intros x y s' events. unfold events. rewrite total_force_cons.
    change (total_force (@nil (MotionData.t R))) with (0 / 1, 0 / 1).
    cbn [force_of fst snd Vec2.x Vec2.y MotionSensor.lastAcceleration
         MotionSensor.with_lastAcceleration s'].
    split; [lra|]. split; [lra|].
    split; [constructor; [eexists; reflexivity | constructor]|].
    split; reflexivity. }
  destruct (MotionSensor.orientation s =? 90)%Z;
    [|destruct (MotionSensor.orientation s =? -90)%Z;
      [|destruct (MotionSensor.orientation s =? 180)%Z]];
    apply Hone.
Qed.

Lemma total_force_app (events1 events2 : list (MotionData.t R)) :
  fst (total_force (events1 ++ events2))
  = fst (total_force events1) + fst (total_force events2)
  /\ snd (total_force (events1 ++ events2))
     = snd (total_force events1) + snd (total_force events2).
Proof.
  induction events1 as [|data events1 [IHx IHy]].
  - cbn [app].
    change (total_force (@nil (MotionData.t R))) with (0 / 1, 0 / 1).
    cbn [fst snd]. split; lra.
  - cbn [app]. rewrite !total_force_cons.
    destruct (force_of data); cbn [fst snd]; [|split; assumption].
    rewrite IHx, IHy. split; lra.
Qed.

(** X27.  In exact arithmetic.  A [devicemotion] event hands the callback
    half the change of the acceleration, turned by the orientation of
    the screen, since the event before; so over any sequence of such
    events the forces handed over add up to half of the difference
    between the last acceleration recorded and the one recorded before
    the sequence, whatever lay in between (and to nothing while the
    sensor is stopped or switched off, when nothing is recorded).  Every
    event handed over is of type [accelerometer]. *)
Theorem device_motion_forces_telescope :
  forall s (accs : list (option (Vec2.t R))),
    let '(s', events) := MotionSensor.handleDeviceMotions s accs in
    fst (total_force events)
    = (Vec2.x (MotionSensor.lastAcceleration s')
       - Vec2.x (MotionSensor.lastAcceleration s)) * (5 / 10)
    /\ snd (total_force events)
       = (Vec2.y (MotionSensor.lastAcceleration s')
          - Vec2.y (MotionSensor.lastAcceleration s)) * (5 / 10)
    /\ Forall (fun data => exists force, data = MotionData.accelerometer force)
         events
    /\ ((MotionSensor.isRunning s = false
         \/ MotionSensor.sensorEnabled s = false) ->
        s' = s /\ events = []).
Proof.
  intros s accs. revert s.
  induction accs as [|acc accs IH]; intros s.
  - cbn. repeat split; try lra. constructor.
  - cbn [MotionSensor.handleDeviceMotions].
    pose proof (handleDeviceMotion_step s acc) as H1.
    assert (Hoff : (MotionSensor.isRunning s = false
                    \/ MotionSensor.sensorEnabled s = false) ->
                   MotionSensor.handleDeviceMotion s acc = (s, [])).
    { intros [H|H]; unfold MotionSensor.handleDeviceMotion; rewrite H;
        [reflexivity|].
      now destruct (MotionSensor.isRunning s). }
    destruct (MotionSensor.handleDeviceMotion s acc) as [s1 events1].
    destruct H1 as (Hx1 & Hy1 & Hall1 & _).
    specialize (IH s1).
    destruct (MotionSensor.handleDeviceMotions s1 accs) as [s2 events2].
    destruct IH as (Hx2 & Hy2 & Hall2 & Hoff2).
    destruct (total_force_app events1 events2) as [Hx Hy].
    split; [rewrite Hx, Hx1, Hx2; lra|].
    split; [rewrite Hy, Hy1, Hy2; lra|].
    split; [apply Forall_app; split; assumption|].
    intros H. specialize (Hoff H). injection Hoff as -> ->.
    destruct (Hoff2 H) as [-> ->]. split; reflexivity.
Qed.

Lemma moved_spec (dx dy : R) :
  ((Rltb (1 / 1) (Rabs dx) || Rltb (1 / 1) (Rabs dy))%bool = true ->
   1 < Rabs dx \/ 1 < Rabs dy)
  /\ (1 < Rabs dx \/ 1 < Rabs dy ->
      (Rltb (1 / 1) (Rabs dx) || Rltb (1 / 1) (Rabs dy))%bool = true).
Proof.
  unfold Rltb.
  destruct (Rlt_dec (1 / 1) (Rabs dx)), (Rlt_dec (1 / 1) (Rabs dy)); cbn;
    split; intros H; try reflexivity; try discriminate;
    try (left; lra); try (right; lra).
  destruct H; lra.
Qed.

(** X28.  In exact arithmetic.  [handleMouseMove] does nothing while the
    sensor is stopped or manual input is off.  Otherwise it records the
    pointer as the last position, whether it reports the move or not,
    and it reports at most one event: one exactly when a position was
    recorded before, the move from it exceeds 1 pixel in [x] or in [y],
    and the manual mode is [pointer] or [global]; the event carries 0.1
    times the move, and in [pointer] mode the pointer as well.  No
    handler of the sensor ever hands over an event of type [tap]. *)
Theorem pointer_moves_are_filtered :
  forall s (clientX clientY : R),
    let '(s', events) := MotionSensor.handleMouseMove s clientX clientY in
    ((MotionSensor.isRunning s = false \/ MotionSensor.manualEnabled s = false) ->
     s' = s /\ events = [])
    /\ (MotionSensor.isRunning s = true ->
        MotionSensor.manualEnabled s = true ->
        MotionSensor.lastMousePosition s' = Some (Vec2.mk clientX clientY)
        /\ (events = []
            \/ exists last,
                 MotionSensor.lastMousePosition s = Some last
                 /\ (1 < Rabs (clientX - Vec2.x last)
                     \/ 1 < Rabs (clientY - Vec2.y last))
                 /\ let force :=
                      Vec2.mk ((clientX - Vec2.x last) * (1 / 10))
                        ((clientY - Vec2.y last) * (1 / 10)) in
                    (MotionSensor.manualMode s = "pointer"%string
                     /\ events = [MotionData.pointerMove force clientX clientY])
                    \/ (MotionSensor.manualMode s = "global"%string
                        /\ events = [MotionData.mouse force]))
        /\ (forall last,
              MotionSensor.lastMousePosition s = Some last ->
              1 < Rabs (clientX - Vec2.x last)
              \/ 1 < Rabs (clientY - Vec2.y last) ->
              MotionSensor.manualMode s = "pointer"%string
              \/ MotionSensor.manualMode s = "global"%string ->
              events <> []))
    /\ (forall tagName (touches changed : list (MotionSensor.Touch R)) acc,
          Forall (fun data => is_tap data = false)
            (events
             ++ snd (MotionSensor.handleMouseDown s tagName clientX clientY)
             ++ snd (MotionSensor.handleMouseUp s)
             ++ snd (MotionSensor.handleTouchStart s tagName changed touches)
             ++ snd (MotionSensor.handleTouchMove s touches)
             ++ snd (MotionSensor.handleTouchEnd s changed)
             ++ snd (MotionSensor.handleDeviceMotion s acc))).
Proof.
  intros s clientX clientY.
  destruct (MotionSensor.handleMouseMove s clientX clientY) as [s' events] eqn:E.
  assert (Hshape :
            forall (factor : R) (global : Vec2.t R -> MotionData.t R) x y,
              (forall f, is_tap (global f) = false) ->
              Forall (fun data => is_tap data = false)
                (snd (MotionSensor.pointerMoved s x y factor global))).
  { intros factor global x y Hg. unfold MotionSensor.pointerMoved. cbn [snd].
    destruct (MotionSensor.lastMousePosition s); [|constructor].
    destruct (_ || _)%bool; [|constructor].
    destruct (String.eqb _ "pointer");
      [constructor; [reflexivity | constructor]|].
    destruct (String.eqb _ "global"); [|constructor].
    constructor; [apply Hg | constructor]. }
  split; [|split].
  - intros Hoff. unfold MotionSensor.handleMouseMove in E.
    destruct Hoff as [H|H]; rewrite H in E.
    + injection E as <- <-. split; reflexivity.
    + destruct (MotionSensor.isRunning s); injection E as <- <-;
        split; reflexivity.
  - intros Hrun Hman. unfold MotionSensor.handleMouseMove in E.
    rewrite Hrun, Hman in E. cbn [negb orb] in E.
    unfold MotionSensor.pointerMoved in E. injection E as <- <-.
    split; [reflexivity|].
    destruct (MotionSensor.lastMousePosition s) as [last|];
      [|split; [left; reflexivity | intros last [=]]].
    cbn [Math_abs R_JSNumber sub mul lit int ltb Vec2.x Vec2.y].
    change (IZR 1 / IZR 1) with (1 / 1).
    change (IZR 1 / IZR 10) with (1 / 10).
    destruct (moved_spec (clientX - Vec2.x last) (clientY - Vec2.y last))
      as [Hmoved Hstill].
    destruct (Rltb (1 / 1) (Rabs (clientX - Vec2.x last))
              || Rltb (1 / 1) (Rabs (clientY - Vec2.y last)))%bool.
    2:{ split; [left; reflexivity|].
        intros last' [= <-] Hm _. specialize (Hstill Hm). discriminate. }
    specialize (Hmoved eq_refl).
    destruct (String.eqb_spec (MotionSensor.manualMode s) "pointer") as [Hp|Hp].
    { split; [|intros; discriminate].
      right. exists last. split; [reflexivity|]. split; [exact Hmoved|].
      left. split; [exact Hp | reflexivity]. }
    destruct (String.eqb_spec (MotionSensor.manualMode s) "global") as [Hg|Hg].
    { split; [|intros; discriminate].
      right. exists last. split; [reflexivity|]. split; [exact Hmoved|].
      right. split; [exact Hg | reflexivity]. }
    split; [left; reflexivity|].
    intros last' _ _ [Hm|Hm]; contradiction.
  - intros tagName touches changed acc.
    repeat (apply Forall_app; split).
    + unfold MotionSensor.handleMouseMove in E.
      destruct (_ || _)%bool.
      * injection E as <- <-. constructor.
      * replace events
          with (snd (MotionSensor.pointerMoved s clientX clientY (1 / 10)
                       (@MotionData.mouse R))) by (cbn in E; now rewrite E).
        apply Hshape. reflexivity.
    + unfold MotionSensor.handleMouseDown.
      destruct (_ || _)%bool; [constructor|].
      destruct (MotionSensor.onControl tagName); [constructor|].
      constructor; [reflexivity | constructor].
    + unfold MotionSensor.handleMouseUp.
      destruct (_ || _)%bool; [constructor|].
      constructor; [reflexivity | constructor].
    + unfold MotionSensor.handleTouchStart.
      destruct (_ || _)%bool; [constructor|].
      destruct (MotionSensor.onControl tagName); [constructor|].
      destruct touches; cbn [snd]; apply Forall_map, Forall_forall;
        intros; reflexivity.
    + unfold MotionSensor.handleTouchMove.
      destruct (_ || _)%bool; [constructor|].
      destruct touches; [constructor|].
      apply Hshape. reflexivity.
    + unfold MotionSensor.handleTouchEnd.
      destruct (_ || _)%bool; [constructor|].
      cbn [snd]. apply Forall_map, Forall_forall. intros; reflexivity.
    + pose proof (handleDeviceMotion_step s acc) as H.
      destruct (MotionSensor.handleDeviceMotion s acc) as [s1 events1].
      destruct H as (_ & _ & Hall & _). cbn [snd].
      eapply Forall_impl; [|exact Hall].
      intros data [force ->]. reflexivity.
Qed.

End SensorEvents.

Section Click.

Local Open Scope R_scope.

Lemma endPress_regions_at_depth_0 (point : PressPoint.t R) random rs :
  forall k, endPress_regions point 0 random k rs = rs.
Proof.
  induction rs as [|r rs IH]; intros k; cbn [endPress_regions]; [reflexivity|].
  cbv zeta. destruct (ltb _ _); rewrite IH; [|reflexivity].
  f_equal. destruct r as [x y w h p [vx vy] st da de ph].
  unfold Region.moved. cbn. f_equal. f_equal; ring.
Qed.

(** X29.  In exact arithmetic, with the sensor running, manual input on, the
    application animating and an image rectangle of positive size.  A
    mouse button pressed away from a control reaches the engine as a
    press point of id 0, at the pointer in image coordinates clamped to
    [[0, 1]], with depth 0 and target depth 1; pressed on a button, a
    label, a select or an input it reaches nothing.  Releasing the
    button before a frame has passed sets the target depth back to 0
    and, the depth being 0 still, moves no region. *)
Theorem click_presses_and_releases :
  forall (a : App.t R) (s : MotionSensor.t R) tagName clientX clientY
         rect_left rect_top random,
    MotionSensor.isRunning s = true ->
    MotionSensor.manualEnabled s = true ->
    App.isAnimating a = true ->
    0 < Rect.width (App.imageRect a) ->
    0 < Rect.height (App.imageRect a) ->
    let down := snd (MotionSensor.handleMouseDown s tagName clientX clientY) in
    let up := snd (MotionSensor.handleMouseUp s) in
    let a1 := handleMotions a rect_left rect_top down random in
    let a2 := handleMotions a1 rect_left rect_top up random in
    (MotionSensor.onControl tagName = true -> a1 = a)
    /\ (MotionSensor.onControl tagName = false ->
        exists px py,
          0 <= px <= 1 /\ 0 <= py <= 1
          /\ Vec2.mk px py
             = Renderer.clientToNormalized (App.imageRect a) rect_left rect_top
                 clientX clientY
          /\ JSMap.get 0%Z (PhysicsEngine.pressPoints (App.physics a1))
             = Some (PressPoint.mk px py 0 1)
          /\ JSMap.get 0%Z (PhysicsEngine.pressPoints (App.physics a2))
             = Some (PressPoint.mk px py 0 0)
          /\ PhysicsEngine.regions (App.physics a2)
             = PhysicsEngine.regions (App.physics a)).
Proof.
  intros a s tagName clientX clientY rect_left rect_top random
    Hrun Hman Hanim HW HH down up a1 a2.
  unfold a2, a1, up, down, MotionSensor.handleMouseDown,
    MotionSensor.handleMouseUp.
  rewrite Hrun, Hman. cbn [negb orb snd].
  split.
  - intros ->. reflexivity.
  - intros ->. cbn [snd].
    destruct (normalized_bounds (App.imageRect a) rect_left rect_top
                clientX clientY) as [Hx Hy].
    set (p := Renderer.clientToNormalized (App.imageRect a) rect_left rect_top
                clientX clientY) in *.
    assert (Ha1 : handleMotions a rect_left rect_top
                    [MotionData.pressStart 0 clientX clientY] random
                  = App.mk
                      (startPress (App.physics a) 0 (Vec2.x p) (Vec2.y p))
                      (App.renderer_regions a) (App.image a)
                      (App.imageRect a) true).
    { unfold handleMotions. cbn [fold_left]. unfold App.handleMotion.
      rewrite Hanim. reflexivity. }
    rewrite Ha1.
    assert (Hget : JSMap.get 0%Z
                     (PhysicsEngine.pressPoints
                        (startPress (App.physics a) 0 (Vec2.x p) (Vec2.y p)))
                   = Some (PressPoint.mk (Vec2.x p) (Vec2.y p) 0 1)).
    { unfold startPress.
      cbn [PhysicsEngine.pressPoints PhysicsEngine.with_pressPoints].
      rewrite get_set_same. f_equal. f_equal; cbn; lra. }
    exists (Vec2.x p), (Vec2.y p).
    split; [exact Hx|]. split; [exact Hy|].
    split; [destruct p; reflexivity|].
    split; [exact Hget|].
    unfold handleMotions. cbn [fold_left]. unfold App.handleMotion.
    cbn [App.isAnimating negb App.physics].
    unfold endPress. rewrite Hget.
    cbn [PhysicsEngine.pressPoints PhysicsEngine.with_pressPoints
         PhysicsEngine.regions PhysicsEngine.with_regions
         PressPoint.x PressPoint.y PressPoint.depth].
    split.
    + rewrite get_set_same. f_equal. f_equal. cbn. lra.
    + replace (mul 0 (int 8)) with 0 by (cbn; lra).
      apply endPress_regions_at_depth_0.
Qed.

End Click.

(** ** The statements above on concrete inputs *)

Section MoreWitnesses.

Local Open Scope R_scope.

Lemma endPress_kick_witness :
  JSMap.get 0 (PhysicsEngine.pressPoints OnApp.pressed)
  = Some (PressPoint.mk (5 / 10) (5 / 10) (int 0) (int 1))
  /\ 0 <= PressPoint.depth (PressPoint.mk (5 / 10) (5 / 10) (int 0) (int 1))
  /\ List.length (PhysicsEngine.regions (endPress OnApp.pressed 0 OnApp.half))
     = List.length (PhysicsEngine.regions OnApp.pressed).
Proof.
  assert (Hget : JSMap.get 0 (PhysicsEngine.pressPoints OnApp.pressed)
                 = Some (PressPoint.mk (5 / 10) (5 / 10) (int 0) (int 1)))
    by reflexivity.
  assert (Hd : 0 <= PressPoint.depth
                      (PressPoint.mk (5 / 10) (5 / 10) (int 0) (int 1)))
    by (cbn; lra).
  split; [exact Hget|]. split; [exact Hd|].
  symmetry.
  exact (Forall2_length
           (endPress_kick_is_bounded_and_upward OnApp.pressed 0 _ OnApp.half
              Hget Hd)).
Defined.

Lemma applyImpulse_kick_witness :
  (forall k, 0 <= OnApp.half k <= 1)
  /\ List.length
       (PhysicsEngine.regions
          (applyImpulse OnR.one_region (Vec2.mk 1 0) OnApp.half))
     = List.length (PhysicsEngine.regions OnR.one_region).
Proof.
  assert (Hr : forall k, 0 <= OnApp.half k <= 1)
    by (intros k; unfold OnApp.half; lra).
  split; [exact Hr|].
  symmetry.
  exact (Forall2_length
           (applyImpulse_kick_is_bounded OnR.one_region (Vec2.mk 1 0)
              OnApp.half Hr)).
Defined.

Lemma tuning_witness :
  (forall k, 0 <= OnApp.half k <= 1)
  /\ Forall
       (fun r =>
          56 / 1000 <= Region.stiffness r <= 104 / 1000
          /\ 874 / 1000 <= Region.damping r <= 966 / 1000)
       (PhysicsEngine.regions (resetToDefaults OnR.one_region OnApp.half)).
Proof.
  assert (Hr : forall k, 0 <= OnApp.half k <= 1)
    by (intros k; unfold OnApp.half; lra).
  split; [exact Hr|].
  exact (proj2 (proj2 (tuning_stays_within_variation OnR.one_region
                         OnApp.half Hr))).
Defined.

Lemma exact_is_standard : standard_model (fun x : R => x) 0.
Proof.
  split; [|split; [|split]].
  - split; [lra|]. apply Rlt_le, Rinv_0_lt_compat. lra.
  - intros x y H. exact H.
  - intros z _. reflexivity.
  - intros x _. rewrite Rminus_diag, Rabs_R0. lra.
Qed.

Lemma setImageAspectRatio_witness :
  standard_model (fun x : R => x) 0
  /\ (1 <= PhysicsEngine.gridDensity OnR.engine0 <= 1000)%nat
  /\ 1 <= 800 <= 10 ^ 9 /\ 1 <= 600 <= 10 ^ 9
  /\ Nat.min
       (PhysicsEngine.gridSizeX
          (@setImageAspectRatio R (Rounded_JSNumber (fun x : R => x))
             R_JSRound OnR.engine0 800 600))
       (PhysicsEngine.gridSizeY
          (@setImageAspectRatio R (Rounded_JSNumber (fun x : R => x))
             R_JSRound OnR.engine0 800 600))
     = PhysicsEngine.gridDensity OnR.engine0.
Proof.
  assert (Hd : (1 <= PhysicsEngine.gridDensity OnR.engine0 <= 1000)%nat)
    by (cbn; lia).
  assert (Hw : 1 <= 800 <= 10 ^ 9) by (simpl; lra).
  assert (Hh : 1 <= 600 <= 10 ^ 9) by (simpl; lra).
  split; [exact exact_is_standard|].
  split; [exact Hd|]. split; [exact Hw|]. split; [exact Hh|].
  exact (proj1 (proj2 (proj2
           (proj1 setImageAspectRatio_scales_longer_side
              (fun x : R => x) 0 exact_is_standard
              OnR.engine0 800 600 Hd Hw Hh)))).
Defined.

Lemma setGridDensity_witness :
  0 < PhysicsEngine.aspectRatio OnR.engine0
  /\ (5 <= PhysicsEngine.gridDensity (setGridDensity OnR.engine0 100) <= 40)%nat.
Proof.
  assert (Ha : 0 < PhysicsEngine.aspectRatio OnR.engine0) by (cbn; lra).
  split; [exact Ha|].
  exact (proj1 (setGridDensity_clamps_and_rebuilds OnR.engine0 100 Ha)).
Defined.

Lemma calculateImageRect_witness :
  0 < 800 /\ 0 < 600 /\ 0 < 2 /\ 0 < 400 /\ 0 < 400
  /\ Rect.width (Renderer.calculateImageRect 800 600 2 400 400) * 400
     = Rect.height (Renderer.calculateImageRect 800 600 2 400 400) * 400.
Proof.
  assert (H1 : 0 < 800) by lra. assert (H2 : 0 < 600) by lra.
  assert (H3 : 0 < 2) by lra. assert (H4 : 0 < 400) by lra.
  repeat (split; [assumption|]).
  exact (proj1 (calculateImageRect_letterboxes 800 600 2 400 400
                  H1 H2 H3 H4 H4)).
Defined.

Lemma normalized_coordinates_witness :
  0 < Rect.width OnApp.image /\ 0 < Rect.height OnApp.image
  /\ Rect.y OnApp.image <= 50 - 0
     <= Rect.y OnApp.image + Rect.height OnApp.image
  /\ Rect.x OnApp.image + Rect.width OnApp.image <= 250 - 0
  /\ Vec2.x (Renderer.clientToNormalized OnApp.image 0 0 250 50) = 1
  /\ Rect.y OnApp.image
     + Vec2.y (Renderer.clientToNormalized OnApp.image 0 0 250 50)
       * Rect.height OnApp.image
     = 50 - 0.
Proof.
  assert (Hw : 0 < Rect.width OnApp.image) by (cbn; lra).
  assert (Hh : 0 < Rect.height OnApp.image) by (cbn; lra).
  assert (Hy : Rect.y OnApp.image <= 50 - 0
               <= Rect.y OnApp.image + Rect.height OnApp.image)
    by (cbn; lra).
  assert (Hx : Rect.x OnApp.image + Rect.width OnApp.image <= 250 - 0)
    by (cbn; lra).
  split; [exact Hw|]. split; [exact Hh|].
  split; [exact Hy|]. split; [exact Hx|].
  destruct (proj1 (normalized_coordinates_stay_on_image OnApp.image Hw Hh)
              0 0 250 50) as (_ & _ & _ & _ & Hright & Hon & _).
  split; [exact (Hright Hx) | exact (Hon Hy)].
Defined.

Lemma hitTestRegion_witness :
  (Rect.width (App.imageRect (App.reset OnApp.app)) = 0
   \/ Rect.height (App.imageRect (App.reset OnApp.app)) = 0)
  /\ Renderer.hitTestRegion (App.imageRect (App.reset OnApp.app))
       (App.renderer_regions OnApp.app) 50 50
     = (-1)%Z.
Proof.
  assert (H : Rect.width (App.imageRect (App.reset OnApp.app)) = 0)
    by (cbn; lra).
  split; [left; exact H|].
  exact (proj1 (hitTestRegion_picks_topmost
                  (App.imageRect (App.reset OnApp.app))
                  (App.renderer_regions OnApp.app) 50 50)
           (or_introl H)).
Defined.

Lemma autoSway_witness :
  MotionSensor.isRunning OnApp.swaying = true
  /\ MotionSensor.autoEnabled OnApp.swaying = true
  /\ nth_error MotionSensor.autoPatterns
       (MotionSensor.currentPatternIndex OnApp.swaying)
     = Some "breath"%string
  /\ MotionSensor.autoSway OnApp.swaying 0
     = [MotionData.auto
          (Vec2.mk
             (Vec2.x (MotionSensor.calculatePatternForce "breath" 0)
              * MotionSensor.autoStrength OnApp.swaying)
             (Vec2.y (MotionSensor.calculatePatternForce "breath" 0)
              * MotionSensor.autoStrength OnApp.swaying))
          "breath"%string].
Proof.
  assert (Hrun : MotionSensor.isRunning OnApp.swaying = true) by reflexivity.
  assert (Hauto : MotionSensor.autoEnabled OnApp.swaying = true)
    by reflexivity.
  assert (Hid : nth_error MotionSensor.autoPatterns
                  (MotionSensor.currentPatternIndex OnApp.swaying)
                = Some "breath"%string) by reflexivity.
  split; [exact Hrun|]. split; [exact Hauto|]. split; [exact Hid|].
  exact (proj1 (proj2 (proj2 (proj2 (proj2 (proj2
           (pattern_forces_are_bounded "breath"%string 0))))))
           OnApp.swaying "breath"%string Hrun Hauto Hid).
Defined.

Lemma inferGridSize_witness :
  (1 <= PhysicsEngine.gridSizeX OnR.one_region)%nat
  /\ (1 <= PhysicsEngine.gridSizeY OnR.one_region)%nat
  /\ PhysicsEngine.vertices OnR.one_region
     = PhysicsEngine.vertices (initVertices OnR.one_region)
  /\ Renderer.inferGridSize (getDisplacements OnR.one_region) = (10%Z, 10%Z).
Proof.
  assert (HX : (1 <= PhysicsEngine.gridSizeX OnR.one_region)%nat)
    by (cbn; lia).
  assert (HY : (1 <= PhysicsEngine.gridSizeY OnR.one_region)%nat)
    by (cbn; lia).
  assert (Hv : PhysicsEngine.vertices OnR.one_region
               = PhysicsEngine.vertices (initVertices OnR.one_region))
    by reflexivity.
  split; [exact HX|]. split; [exact HY|]. split; [exact Hv|].
  exact (proj1 (inferGridSize_recovers_grid OnR.one_region (Vec2.mk 0 0) None
                  0 0 HX HY Hv (getDisplacements OnR.one_region)
                  (or_introl eq_refl))).
Defined.

Lemma click_witness :
  MotionSensor.isRunning OnApp.sensor = true
  /\ MotionSensor.manualEnabled OnApp.sensor = true
  /\ App.isAnimating OnApp.app = true
  /\ 0 < Rect.width (App.imageRect OnApp.app)
  /\ 0 < Rect.height (App.imageRect OnApp.app)
  /\ MotionSensor.onControl "BUTTON" = true
  /\ handleMotions OnApp.app 0 0
       (snd (MotionSensor.handleMouseDown OnApp.sensor "BUTTON" 50 50))
       OnApp.half
     = OnApp.app.
Proof.
  assert (Hw : 0 < Rect.width (App.imageRect OnApp.app)) by (cbn; lra).
  assert (Hh : 0 < Rect.height (App.imageRect OnApp.app)) by (cbn; lra).
  split; [reflexivity|]. split; [reflexivity|]. split; [reflexivity|].
  split; [exact Hw|]. split; [exact Hh|]. split; [reflexivity|].
  exact (proj1 (click_presses_and_releases OnApp.app OnApp.sensor "BUTTON"
                  50 50 0 0 OnApp.half eq_refl eq_refl eq_refl Hw Hh)
           eq_refl).
Defined.

End MoreWitnesses.
